(** * iob-lib: the module setup engine and the template instantiation engine

    A shallow embedding of [scripts/iob_module.py] and
    [scripts/createSystem.py].  Python dictionaries are finite maps
    ([gmap string _]), Python lists are lists, exceptions are the [Raise]
    branch of a result type, and the class attributes that [iob_module]
    mutates are fields of an explicit store threaded through the calls. *)

From Stdlib Require Import ZArith Ascii String List Lia.
From stdpp Require Import base option list gmap strings.

Local Open Scope string_scope.
Local Open Scope list_scope.

(** ** Exceptions and results *)

Inductive exn : Type :=
| KeyError (key : string)
| TypeError (what : string)
| AssertionError (msg : string)
| ImportError (what : string)
| OSError (path : string)
| IndexError
| NameError (what : string)
| UnicodeDecodeError
| Exception (msg : string).

Inductive result (A : Type) : Type :=
| Ok (a : A)
| Raise (e : exn).

Arguments Ok {A} a.
Arguments Raise {A} e.

(** The error monad: [x ← r; k] runs [k] on the value of [r] and
    propagates an exception. *)
#[global] Instance result_bind : MBind result := fun A B k r =>
  match r with
  | Ok a => k a
  | Raise e => Raise e
  end.

#[global] Instance result_ret : MRet result := fun A a => Ok a.

(** [d[k]]: a missing key raises [KeyError]. *)
Definition getitem {V : Type} (d : gmap string V) (k : string) : result V :=
  match d !! k with
  | Some v => Ok v
  | None => Raise (KeyError k)
  end.

(** ** [iob_module.update_dict_list] *)

Section update_dict_list.
Context {V : Type} `{EqDecision V}.

(** [_item.update(item)]: the keys of [item] take [item]'s values, every
    other key of [_item] stays. *)
Definition dict_update (_item item : gmap string V) : gmap string V :=
  item ∪ _item.

(** The inner [for _item in dict_list: ... else: dict_list.append(item)].
    [_item["name"]] is evaluated before [item["name"]]. *)
Fixpoint merge_item (item : gmap string V) (dict_list : list (gmap string V))
  : result (list (gmap string V)) :=
  match dict_list with
  | [] => Ok [item]
  | _item :: rest =>
      n1 ← getitem _item "name";
      n2 ← getitem item "name";
      if decide (n1 = n2) then Ok (dict_update _item item :: rest)
      else (rest' ← merge_item item rest; Ok (_item :: rest'))
  end.

(** The outer [for item in new_items]. *)
Fixpoint update_dict_list (dict_list new_items : list (gmap string V))
  : result (list (gmap string V)) :=
  match new_items with
  | [] => Ok dict_list
  | item :: more =>
      dict_list' ← merge_item item dict_list;
      update_dict_list dict_list' more
  end.

(** The names of a list of entries. *)
Definition names (l : list (gmap string V)) : list (option V) :=
  map (fun d => d !! "name") l.

Definition named (d : gmap string V) : Prop := is_Some (d !! "name").

(** Merging every item of [items] that carries the name of [e] into [e],
    in list order. *)
Definition merge_step (it e : gmap string V) : gmap string V :=
  if decide (e !! "name" = it !! "name") then dict_update e it else e.

Definition merge_into (e : gmap string V) (items : list (gmap string V))
  : gmap string V :=
  foldl (fun acc it => merge_step it acc) e items.

(** The first item of each name that [seen] does not hold, in list order. *)
Fixpoint fresh (seen : list (option V)) (items : list (gmap string V))
  : list (gmap string V) :=
  match items with
  | [] => []
  | it :: more =>
      if decide (it !! "name" ∈ seen) then fresh seen more
      else it :: fresh (seen ++ [it !! "name"]) more
  end.

(** The last value bound to key [k] by the items named [n], if any. *)
Fixpoint last_value (n : option V) (k : string) (items : list (gmap string V))
  : option V :=
  match items with
  | [] => None
  | it :: more =>
      match last_value n k more with
      | Some v => Some v
      | None => if decide (it !! "name" = n) then it !! k else None
      end
  end.

End update_dict_list.

(** ** Python string operations used by the scripts *)

(** [s.startswith(p)] *)
Fixpoint starts_with (p s : string) : bool :=
  match p, s with
  | EmptyString, _ => true
  | String a p', String b s' => Ascii.eqb a b && starts_with p' s'
  | String _ _, EmptyString => false
  end.

(** [word in s] *)
Fixpoint contains (word s : string) : bool :=
  starts_with word s ||
  match s with
  | EmptyString => false
  | String _ s' => contains word s'
  end.

(** The optional [count] argument of [str.replace]: [None] is no limit. *)
Definition count_left (count : option nat) : bool :=
  match count with
  | Some O => false
  | _ => true
  end.

Definition count_pred (count : option nat) : option nat :=
  match count with
  | Some n => Some (Nat.pred n)
  | None => None
  end.

(** [s.replace(old, new, count)] for a non-empty [old]: a scan from the left
    that replaces each occurrence it meets and resumes after it; [skip] is
    the number of characters of the occurrence still to pass over. *)
Fixpoint replace_scan (old new : string) (count : option nat) (skip : nat)
  (s : string) : string :=
  match s with
  | EmptyString => EmptyString
  | String c s' =>
      match skip with
      | S k => replace_scan old new count k s'
      | O =>
          if starts_with old s && count_left count
          then new +:+ replace_scan old new (count_pred count)
                         (String.length old - 1) s'
          else String c (replace_scan old new count 0 s')
      end
  end.

(** [s.replace("", new, count)]: [new] goes before every character and at
    the end. *)
Fixpoint replace_empty (new : string) (count : option nat) (s : string)
  : string :=
  if count_left count then
    new +:+ match s with
            | EmptyString => EmptyString
            | String c s' => String c (replace_empty new (count_pred count) s')
            end
  else s.

Definition py_replace (old new : string) (count : option nat) (s : string)
  : string :=
  match old with
  | EmptyString => replace_empty new count s
  | String _ _ => replace_scan old new count 0 s
  end.

(** [s[::-1]] *)
Fixpoint rev_string_onto (s acc : string) : string :=
  match s with
  | EmptyString => acc
  | String c s' => rev_string_onto s' (String c acc)
  end.

Definition reverse (s : string) : string := rev_string_onto s EmptyString.

(** [s.upper()] on ASCII letters. *)
Definition upper_char (c : ascii) : ascii :=
  let n := nat_of_ascii c in
  if (97 <=? n)%nat && (n <=? 122)%nat then ascii_of_nat (n - 32) else c.

Fixpoint upper (s : string) : string :=
  match s with
  | EmptyString => EmptyString
  | String c s' => String (upper_char c) (upper s')
  end.

Definition newline : ascii := "010"%char.

Definition carriage_return : ascii := "013"%char.

(** What [open(path, "r")] hands to the program as the text of a file:
    with universal newlines a CR LF and a lone CR are read as LF.
    [after_cr] tells that the character before was a CR. *)
Fixpoint translate_newlines (after_cr : bool) (s : string) : string :=
  match s with
  | EmptyString => EmptyString
  | String c s' =>
      if Ascii.eqb c carriage_return
      then String newline (translate_newlines true s')
      else if Ascii.eqb c newline && after_cr
           then translate_newlines false s'
           else String c (translate_newlines false s')
  end.

Definition universal_newlines (s : string) : string :=
  translate_newlines false s.

(** [file.readlines()]: the lines of a text, each with its terminator. *)
Fixpoint readlines (s : string) : list string :=
  match s with
  | EmptyString => []
  | String c s' =>
      if Ascii.eqb c newline then String c EmptyString :: readlines s'
      else match readlines s' with
           | [] => [String c EmptyString]
           | l :: ls => String c l :: ls
           end
  end.

(** [file.writelines(lines)] and [sep.join(parts)] *)
Fixpoint writelines (lines : list string) : string :=
  match lines with
  | [] => EmptyString
  | l :: ls => l +:+ writelines ls
  end.


(** ** [os.path] on POSIX paths *)

(** The text after the last ["/"] and the text up to and including it. *)
Fixpoint split_last_slash (p : string) : string * string :=
  match p with
  | EmptyString => (EmptyString, EmptyString)
  | String c p' =>
      let '(head, tail) := split_last_slash p' in
      if contains "/" p then (String c head, tail)
      else (EmptyString, p)
  end.

Fixpoint all_slashes (s : string) : bool :=
  match s with
  | EmptyString => true
  | String c s' => Ascii.eqb c "/"%char && all_slashes s'
  end.

(** [s.rstrip("/")] *)
Fixpoint rstrip_slash (s : string) : string :=
  match s with
  | EmptyString => EmptyString
  | String c s' => if all_slashes s then EmptyString else String c (rstrip_slash s')
  end.

Definition basename (p : string) : string := snd (split_last_slash p).

Definition dirname (p : string) : string :=
  let head := fst (split_last_slash p) in
  if all_slashes head then head else rstrip_slash head.

Fixpoint ends_with_slash (s : string) : bool :=
  match s with
  | EmptyString => false
  | String c EmptyString => Ascii.eqb c "/"%char
  | String _ s' => ends_with_slash s'
  end.

(** [os.path.join(a, b)] *)
Definition path_join (a b : string) : string :=
  if starts_with "/" b then b
  else match a with
       | EmptyString => b
       | _ => if ends_with_slash a then a +:+ b else a +:+ "/" +:+ b
       end.

(** ** Files *)

(** A file is readable as text or it is not ([open(src, "r")] followed by
    [readlines()] raises on it); [f_mode] is [os.stat(path).st_mode]. *)
Inductive content : Type :=
| Text (text : string)
| Binary (bytes : string).

Record file : Type := { f_content : content; f_mode : N }.

(** ** [iob_module.copy_with_rename] *)

(** [.replace(old_core_name, new_core_name)
     .replace(old_core_name.upper(), new_core_name.upper())] *)
Definition rename_text (old_core_name new_core_name s : string) : string :=
  py_replace (upper old_core_name) (upper new_core_name) None
    (py_replace old_core_name new_core_name None s).

(** The destination that [copy_func] computes from [dst]. *)
Definition renamed_dst (old_core_name new_core_name dst : string) : string :=
  path_join (dirname dst)
    (basename (rename_text old_core_name new_core_name dst)).

(** [copy_with_rename(old_core_name, new_core_name)(src, dst)].  When [src]
    is missing, [os.stat] raises, the handler's [shutil.copyfile] raises
    again and that exception leaves the function.  On a file that is not
    text the handler copies it as it is. *)
Definition copy_with_rename (old_core_name new_core_name src dst : string)
  (fs : gmap string file) : result (gmap string file) :=
  let dst := renamed_dst old_core_name new_core_name dst in
  match fs !! src with
  | None => Raise (OSError src)
  | Some f =>
      let file_perms := f_mode f in
      let written :=
        match f_content f with
        | Text s =>
            let lines := readlines (universal_newlines s) in
            Text (writelines (map (rename_text old_core_name new_core_name) lines))
        | Binary b => Binary b
        end in
      Ok (<[dst := {| f_content := written; f_mode := file_perms |}]> fs)
  end.





(** ** Python lists: [insert] and indexing *)

(** [l.insert(i, x)]: a negative index counts from the end, and an index
    outside the list is moved to its nearest end. *)
Definition py_insert {A : Type} (i : Z) (x : A) (l : list A) : list A :=
  let n := Z.of_nat (length l) in
  let j := if (i <? 0)%Z then Z.max 0 (i + n) else Z.min i n in
  take (Z.to_nat j) l ++ x :: drop (Z.to_nat j) l.

(** The position that [l[i]] denotes, when there is one. *)
Definition py_index {A : Type} (i : Z) (l : list A) : option nat :=
  let n := Z.of_nat (length l) in
  let j := if (i <? 0)%Z then (i + n)%Z else i in
  if (0 <=? j)%Z && (j <? n)%Z then Some (Z.to_nat j) else None.

(** [l[i]] *)
Definition py_get {A : Type} (i : Z) (l : list A) : result A :=
  match py_index i l with
  | Some j => match l !! j with
              | Some x => Ok x
              | None => Raise IndexError
              end
  | None => Raise IndexError
  end.

(** [l[i] = x] *)
Definition py_set {A : Type} (i : Z) (x : A) (l : list A) : result (list A) :=
  match py_index i l with
  | Some j => Ok (<[j := x]> l)
  | None => Raise IndexError
  end.

(** ** [createSystem.py] *)

(** One entry of [peripherals_list]. *)
Record instance : Type := {
  i_type : string;
  i_name : string;
  i_params : list (string * string)
}.

(** One port of a peripheral type. *)
Record signal : Type := { sig_name : string }.

(** One entry of [internal_wires]; [w_n_bits] is the width as printed. *)
Record wire : Type := { w_name : string; w_n_bits : string }.

(** The functions of [submodule_utils] and [ios] that [createSystem.py]
    calls and that are not part of these sources. *)
Class helpers : Type := {
  (** what [find_idx] returns when no line holds the word *)
  find_idx_absent : list string -> string -> Z;
  (** [import_setup(dir).meta['name']] *)
  setup_meta_name : string -> result string;
  get_peripherals_ports_params_top :
    list instance -> gmap string string ->
    result (gmap string (list signal) * gmap string (list signal) *
            gmap string string);
  get_reserved_signals : list signal -> list signal;
  get_pio_signals : list signal -> list signal;
  get_reserved_signal_connection : string -> string -> string -> string;
  get_peripheral_port_mapping : instance -> string -> string
}.

Definition nl : string := String newline EmptyString.
Definition dquote : string := String "034"%char EmptyString.

(** The index of the first line that holds [word]. *)
Fixpoint first_line_with (word : string) (lines : list string) : option nat :=
  match lines with
  | [] => None
  | l :: ls => if contains word l then Some 0
               else S <$> first_line_with word ls
  end.

(** [line[::-1].replace(",", "", 1)[::-1]] *)
Definition strip_last_comma (line : string) : string :=
  reverse (py_replace "," "" (Some 1) (reverse line)).

Definition include_line (top : string) : string :=
  "`include " +:+ dquote +:+ top +:+ "_swreg_def.vh" +:+ dquote +:+ nl.

Section createSystem.
Context `{helpers}.

(** Modelled from the spec: [find_idx] of [submodule_utils] is not under
    src/.  By §4.5 the include lines go immediately after the header
    marker ([find_idx(lines, "PHEADER")]), an instance body goes directly
    above the closing keyword ([find_idx(lines, "endmodule") - 1]) and the
    wires directly after the end of the port list: the result is one past
    the index of the first line that holds the word.  What it returns
    when no line holds the word is left open ([find_idx_absent]). *)
Definition find_idx (lines : list string) (word : string) : Z :=
  match first_line_with word lines with
  | Some i => Z.of_nat i + 1
  | None => find_idx_absent lines word
  end.

(** The loop of [insert_header_files]. *)
Fixpoint insert_header_loop (header_index : Z) (submodule_dirs : gmap string string)
  (peripherals_list : list instance) (included_peripherals : list string)
  (template_contents : list string) : result (list string) :=
  match peripherals_list with
  | [] => Ok template_contents
  | instance :: rest =>
      if decide (i_type instance ∈ included_peripherals)
      then insert_header_loop header_index submodule_dirs rest
             included_peripherals template_contents
      else
        dir ← getitem submodule_dirs (i_type instance);
        top ← setup_meta_name dir;
        insert_header_loop header_index submodule_dirs rest
          (included_peripherals ++ [i_type instance])
          (py_insert header_index (include_line top) template_contents)
  end.

Definition insert_header_files (template_contents : list string)
  (peripherals_list : list instance) (submodule_dirs : gmap string string)
  : result (list string) :=
  let header_index := find_idx template_contents "PHEADER" in
  insert_header_loop header_index submodule_dirs peripherals_list []
    template_contents.

(** Removing the comma of the first connection line inserted. *)
Definition strip_first_inserted (start_index : Z) (first_reversed_signal : bool)
  (template_contents : list string) : result (list string) :=
  if first_reversed_signal then
    line ← py_get start_index template_contents;
    py_set start_index (strip_last_comma line) template_contents
  else Ok template_contents.

(** [for signal in get_reserved_signals(...)]; the state of the loop is
    the list of lines and [first_reversed_signal]. *)
Fixpoint insert_reserved_signals (top : string) (top_list : gmap string string)
  (instance : instance) (start_index : Z) (signals : list signal)
  (first_reversed_signal : bool) (template_contents : list string)
  : result (list string * bool) :=
  match signals with
  | [] => Ok (template_contents, first_reversed_signal)
  | signal :: rest =>
      type_top ← getitem top_list (i_type instance);
      let line :=
        "      " +:+
        get_reserved_signal_connection (sig_name signal)
          (upper top +:+ "_" +:+ i_name instance)
          (upper type_top +:+ "_SWREG") +:+ "," +:+ nl in
      template_contents ←
        strip_first_inserted start_index first_reversed_signal
          (py_insert start_index line template_contents);
      insert_reserved_signals top top_list instance start_index rest false
        template_contents
  end.

(** [for signal in get_pio_signals(...)] *)
Fixpoint insert_pio_signals (instance : instance) (start_index : Z)
  (signals : list signal) (first_reversed_signal : bool)
  (template_contents : list string) : result (list string * bool) :=
  match signals with
  | [] => Ok (template_contents, first_reversed_signal)
  | signal :: rest =>
      let line :=
        "      ." +:+ sig_name signal +:+ "(" +:+
        get_peripheral_port_mapping instance (sig_name signal) +:+ ")," +:+ nl in
      template_contents ←
        strip_first_inserted start_index first_reversed_signal
          (py_insert start_index line template_contents);
      insert_pio_signals instance start_index rest false template_contents
  end.

(** [for param, value in instance['params'].items()] *)
Fixpoint insert_params (start_index : Z) (params : list (string * string))
  (first_reversed_signal : bool) (template_contents : list string)
  : list string :=
  match params with
  | [] => template_contents
  | (param, value) :: rest =>
      let line :=
        "      ." +:+ param +:+ "(" +:+ value +:+ ")" +:+
        (if first_reversed_signal then "" else ",") +:+ nl in
      insert_params start_index rest false
        (py_insert start_index line template_contents)
  end.

(** The body of [for instance in peripherals_list]. *)
Definition insert_instance (top : string)
  (port_list : gmap string (list signal)) (top_list : gmap string string)
  (instance : instance) (template_contents : list string)
  : result (list string) :=
  let start_index := (find_idx template_contents "endmodule" - 1)%Z in
  let template_contents :=
    py_insert start_index ("      );" +:+ nl) template_contents in
  ports ← getitem port_list (i_type instance);
  '(template_contents, first_reversed_signal) ←
    insert_reserved_signals top top_list instance start_index
      (get_reserved_signals ports) true template_contents;
  ports ← getitem port_list (i_type instance);
  '(template_contents, first_reversed_signal) ←
    insert_pio_signals instance start_index (get_pio_signals ports)
      first_reversed_signal template_contents;
  let template_contents :=
    py_insert start_index ("   " +:+ i_name instance +:+ " (" +:+ nl)
      template_contents in
  let template_contents :=
    if (0 <? length (i_params instance))%nat then
      let template_contents :=
        py_insert start_index ("   )" +:+ nl) template_contents in
      let template_contents :=
        insert_params start_index (i_params instance) true template_contents in
      py_insert start_index ("     #(" +:+ nl) template_contents
    else template_contents in
  type_top ← getitem top_list (i_type instance);
  let template_contents :=
    py_insert start_index ("   " +:+ type_top +:+ nl) template_contents in
  let template_contents := py_insert start_index nl template_contents in
  let template_contents :=
    py_insert start_index ("   // " +:+ i_name instance +:+ nl)
      template_contents in
  Ok (py_insert start_index nl template_contents).

Fixpoint insert_instances (top : string)
  (port_list : gmap string (list signal)) (top_list : gmap string string)
  (peripherals_list : list instance) (template_contents : list string)
  : result (list string) :=
  match peripherals_list with
  | [] => Ok template_contents
  | instance :: rest =>
      template_contents ←
        insert_instance top port_list top_list instance template_contents;
      insert_instances top port_list top_list rest template_contents
  end.

(** [if internal_wires: ...] *)
Definition insert_internal_wires (internal_wires : option (list wire))
  (template_contents : list string) : list string :=
  match internal_wires with
  | None | Some [] => template_contents
  | Some wires =>
      let start_index := find_idx template_contents ");" in
      let template_contents :=
        foldl (fun tc wire =>
                 py_insert start_index
                   ("    wire [" +:+ w_n_bits wire +:+ "-1:0] " +:+
                    w_name wire +:+ nl) tc)
              template_contents wires in
      py_insert start_index ("    // Module internal wires" +:+ nl)
        template_contents
  end.

(** The path of the template of [top]. *)
Definition template_path (setup_dir top : string) : string :=
  setup_dir +:+ "/hardware/src/" +:+ top +:+ ".vt".

(** [create_systemv]; the file system goes in and comes out.
    [os.path.isfile] is the presence of the path in [fs]; a new file gets
    the mode [new_mode]. *)
Definition create_systemv (new_mode : N) (setup_dir : string)
  (submodule_dirs : gmap string string) (top : string)
  (peripherals_list : list instance) (out_file : string)
  (internal_wires : option (list wire)) (fs : gmap string file)
  : result (gmap string file) :=
  match fs !! template_path setup_dir top with
  | None => Ok fs
  | Some template_file =>
      match f_content template_file with
      | Binary _ => Raise UnicodeDecodeError
      | Text text =>
          let template_contents := readlines (universal_newlines text) in
          template_contents ←
            insert_header_files template_contents peripherals_list
              submodule_dirs;
          '(port_list, params_list, top_list) ←
            get_peripherals_ports_params_top peripherals_list submodule_dirs;
          template_contents ←
            insert_instances top port_list top_list peripherals_list
              template_contents;
          let template_contents :=
            insert_internal_wires internal_wires template_contents in
          let mode := match fs !! out_file with
                      | Some old => f_mode old
                      | None => new_mode
                      end in
          Ok (<[out_file := {| f_content := Text (writelines template_contents);
                               f_mode := mode |}]> fs)
      end
  end.

End createSystem.

(** The distinct elements of a list in the order of their first
    occurrence. *)
Fixpoint first_seen (l : list string) : list string :=
  match l with
  | [] => []
  | t :: r => t :: filter (fun u => u <> t) (first_seen r)
  end.

(** A stand-in for [submodule_utils] and [ios] on which the statements
    below are run: a setup directory holds the core of that name, every
    type has the one port [data], the ports named [clk_i] and [rst_i] are
    the reserved ones, and every regular port is connected to [w]. *)
Definition demo_helpers : helpers := {|
  find_idx_absent := fun lines _ => Z.of_nat (length lines);
  setup_meta_name := fun dir => Ok dir;
  get_peripherals_ports_params_top := fun l dirs =>
    Ok (list_to_map (map (fun i => (i_type i, [ {| sig_name := "data" |} ])) l),
        list_to_map (map (fun i => (i_type i, [])) l),
        list_to_map (map (fun i => (i_type i, i_type i)) l));
  get_reserved_signals :=
    filter (fun sg => sig_name sg = "clk_i" \/ sig_name sg = "rst_i");
  get_pio_signals :=
    filter (fun sg => ~ (sig_name sg = "clk_i" \/ sig_name sg = "rst_i"));
  get_reserved_signal_connection := fun name _ _ =>
    "." +:+ name +:+ "(" +:+ name +:+ ")";
  get_peripheral_port_mapping := fun _ _ => "w"
|}.

(** The text of one instantiation of type [type_top] named [name] with the
    single connection [.data(w)]. *)
Definition instance_block (type_top name : string) : list string :=
  [ nl; "   // " +:+ name +:+ nl; nl; "   " +:+ type_top +:+ nl;
    "   " +:+ name +:+ " (" +:+ nl; "      .data(w)" +:+ nl; "      );" +:+ nl ].

(** A system with two UARTs and a timer, and a template with a header
    marker. *)
Definition demo_peripherals : list instance :=
  [ {| i_type := "UART"; i_name := "UART0"; i_params := [] |};
    {| i_type := "TIMER"; i_name := "TIMER0"; i_params := [] |};
    {| i_type := "UART"; i_name := "UART1"; i_params := [] |} ].

Definition demo_dirs : gmap string string :=
  {[ "UART" := "iob_uart"; "TIMER" := "iob_timer" ]}.

Definition demo_top_of (type : string) : string :=
  default "" (demo_dirs !! type).

(** ** [iob_module]: data *)

(** The values of setup options: a purpose is a string, [is_top_module] a
    boolean. *)
Inductive scalar : Type :=
| SStr (s : string)
| SBool (b : bool).

#[global] Instance scalar_eq_dec : EqDecision scalar.
Proof. solve_decision. Defined.

(** The values held by the entries of [confs], [ios], [regs] and
    [block_groups]: strings, integers (a Python [bool] is an integer), and
    for a register group the list of its registers. *)
Inductive atom : Type :=
| AStr (s : string)
| AInt (z : Z).

#[global] Instance atom_eq_dec : EqDecision atom.
Proof. solve_decision. Defined.

Inductive value : Type :=
| Atom (a : atom)
| Dicts (l : list (gmap string atom)).

#[global] Instance value_eq_dec : EqDecision value.
Proof. solve_decision. Defined.

(** Truth value of an option. *)
Definition truthy (x : scalar) : bool :=
  match x with
  | SStr s => negb (String.eqb s "")
  | SBool b => b
  end.

Definition hardware : scalar := SStr "hardware".

(** What stands in a [submodule_list]: a dictionary asking for a generated
    interface, a subclass of [iob_module], a class that is no such
    subclass, or an object that is no class at all. *)
Inductive submodule : Type :=
| SDict (vs_name : gmap string string)
| SClass (cls : string)
| SForeignClass (repr : string)
| SObject (repr : string).

(** An entry is the submodule itself or a tuple of it and its setup
    options. *)
Inductive entry : Type :=
| Bare (s : submodule)
| Tuple (s : submodule) (setup_options : gmap string scalar).

(** What the author of a descriptor class writes: the class attributes and
    the lists its hooks hand to the methods of [iob_module]. *)
Record descriptor : Type := {
  cls_name : string;
  cls_version : string;
  cls_previous_version : option string;
  cls_flows : string;
  cls_setup_dir : string;
  cls_build_dir : option string;
  cls_ancestors : list (string * string);
  new_submodules : list entry;
  new_confs : list (gmap string value);
  new_ios : list (gmap string value);
  new_regs : list (gmap string value);
  new_block_groups : list (gmap string value)
}.

(** The class attributes that setup assigns. *)
Record cls_state : Type := {
  _setup_purpose : option (list scalar);
  is_top_module : bool;
  _initialized_attributes : bool;
  build_dir : string;
  previous_version : option string;
  confs : list (gmap string value);
  regs : list (gmap string value);
  ios : list (gmap string value);
  block_groups : list (gmap string value);
  submodule_list : list entry
}.

(** What setup does outside the interpreter, in order. *)
Inductive event : Type :=
| MakeDirs (path : string)
| CopyFile (src dst : string)
| CopyTree (src dst : string) (rename : option (string * string))
| RemoveCommon (keep from : string)
| External (call : string) (args : list string).

(** The store: the attributes of every descriptor class, the attribute
    [iob_module.build_dir] that all of them read, and the trace. *)
Record state : Type := {
  classes : gmap string cls_state;
  shared_build_dir : string;
  trace : list event
}.

Definition initial_cls_state (d : descriptor) : cls_state := {|
  _setup_purpose := None;
  is_top_module := false;
  _initialized_attributes := false;
  build_dir := default "" (cls_build_dir d);
  previous_version := cls_previous_version d;
  confs := [];
  regs := [];
  ios := [];
  block_groups := [];
  submodule_list := []
|}.

Definition initial_state (descriptors : gmap string descriptor) : state := {|
  classes := initial_cls_state <$> descriptors;
  shared_build_dir := "";
  trace := []
|}.

(** Assignments to single attributes. *)
Definition set_setup_purpose (l : option (list scalar)) (cs : cls_state) : cls_state :=
  {| _setup_purpose := l; is_top_module := is_top_module cs;
     _initialized_attributes := _initialized_attributes cs;
     build_dir := build_dir cs; previous_version := previous_version cs;
     confs := confs cs; regs := regs cs; ios := ios cs;
     block_groups := block_groups cs; submodule_list := submodule_list cs |}.

Definition set_is_top_module (b : bool) (cs : cls_state) : cls_state :=
  {| _setup_purpose := _setup_purpose cs; is_top_module := b;
     _initialized_attributes := _initialized_attributes cs;
     build_dir := build_dir cs; previous_version := previous_version cs;
     confs := confs cs; regs := regs cs; ios := ios cs;
     block_groups := block_groups cs; submodule_list := submodule_list cs |}.

Definition set_submodule_list (l : list entry) (cs : cls_state) : cls_state :=
  {| _setup_purpose := _setup_purpose cs; is_top_module := is_top_module cs;
     _initialized_attributes := _initialized_attributes cs;
     build_dir := build_dir cs; previous_version := previous_version cs;
     confs := confs cs; regs := regs cs; ios := ios cs;
     block_groups := block_groups cs; submodule_list := l |}.

Definition set_confs (l : list (gmap string value)) (cs : cls_state) : cls_state :=
  {| _setup_purpose := _setup_purpose cs; is_top_module := is_top_module cs;
     _initialized_attributes := _initialized_attributes cs;
     build_dir := build_dir cs; previous_version := previous_version cs;
     confs := l; regs := regs cs; ios := ios cs;
     block_groups := block_groups cs; submodule_list := submodule_list cs |}.

Definition set_regs (l : list (gmap string value)) (cs : cls_state) : cls_state :=
  {| _setup_purpose := _setup_purpose cs; is_top_module := is_top_module cs;
     _initialized_attributes := _initialized_attributes cs;
     build_dir := build_dir cs; previous_version := previous_version cs;
     confs := confs cs; regs := l; ios := ios cs;
     block_groups := block_groups cs; submodule_list := submodule_list cs |}.

Definition set_ios (l : list (gmap string value)) (cs : cls_state) : cls_state :=
  {| _setup_purpose := _setup_purpose cs; is_top_module := is_top_module cs;
     _initialized_attributes := _initialized_attributes cs;
     build_dir := build_dir cs; previous_version := previous_version cs;
     confs := confs cs; regs := regs cs; ios := l;
     block_groups := block_groups cs; submodule_list := submodule_list cs |}.

Definition set_block_groups (l : list (gmap string value)) (cs : cls_state) : cls_state :=
  {| _setup_purpose := _setup_purpose cs; is_top_module := is_top_module cs;
     _initialized_attributes := _initialized_attributes cs;
     build_dir := build_dir cs; previous_version := previous_version cs;
     confs := confs cs; regs := regs cs; ios := ios cs;
     block_groups := l; submodule_list := submodule_list cs |}.

(** The assignments at the head of [init_attributes]. *)
Definition reset_attributes (shared : string) (version : string) (cs : cls_state)
  : cls_state :=
  {| _setup_purpose := _setup_purpose cs; is_top_module := is_top_module cs;
     _initialized_attributes := true;
     build_dir := shared;
     previous_version :=
       match previous_version cs with
       | None | Some EmptyString => Some version
       | Some v => Some v
       end;
     confs := []; regs := []; ios := []; block_groups := [];
     submodule_list := [] |}.

(** ** The monad of setup: store, exceptions and fuel *)

Inductive outcome (A : Type) : Type :=
| Return (a : A) (st : state)
| Throw (e : exn) (st : state)
| OutOfFuel.

Arguments Return {A} a st.
Arguments Throw {A} e st.
Arguments OutOfFuel {A}.

Definition M (A : Type) : Type := state -> outcome A.

#[global] Instance M_ret : MRet M := fun A a st => Return a st.

#[global] Instance M_bind : MBind M := fun A B k m st =>
  match m st with
  | Return a st' => k a st'
  | Throw e st' => Throw e st'
  | OutOfFuel => OutOfFuel
  end.

Definition throw {A : Type} (e : exn) : M A := fun st => Throw e st.

Definition lift {A : Type} (r : result A) : M A :=
  match r with
  | Ok a => mret a
  | Raise e => throw e
  end.

(** The attributes of class [c]; a name bound to no class is an error. *)
Definition get_cls (c : string) : M cls_state := fun st =>
  match classes st !! c with
  | Some cs => Return cs st
  | None => Throw (NameError c) st
  end.

Definition modify_cls (c : string) (f : cls_state -> cls_state) : M unit :=
  fun st =>
    Return tt {| classes := alter f c (classes st);
                 shared_build_dir := shared_build_dir st;
                 trace := trace st |}.

Definition get_shared_build_dir : M string := fun st =>
  Return (shared_build_dir st) st.

Definition set_shared_build_dir (dir : string) : M unit := fun st =>
  Return tt {| classes := classes st; shared_build_dir := dir;
               trace := trace st |}.

Definition emit (e : event) : M unit := fun st =>
  Return tt {| classes := classes st;
               shared_build_dir := shared_build_dir st;
               trace := trace st ++ [e] |}.

Definition when (b : bool) (m : M unit) : M unit := if b then m else mret tt.

(** ** [iob_module]: methods *)

(** The descriptor classes of a project and what setup reads from outside
    these sources: [build_srcs.version_str_to_digits], [build_srcs.LIB_DIR],
    the colour strings of [iob_colors], and which paths of the source trees
    are directories and files. *)
Class project : Type := {
  descriptors : gmap string descriptor;
  version_str_to_digits : string -> string;
  LIB_DIR : string;
  FAIL : string;
  ENDC : string;
  isdir : string -> bool;
  isfile : string -> bool
}.

Definition PURPOSE_DIRS : gmap string string :=
  {[ "hardware" := "hardware/src";
     "simulation" := "hardware/simulation/src";
     "fpga" := "hardware/fpga/src" ]}.

(** The index of the first entry named [n]; an entry without a name met on
    the way raises. *)
Fixpoint find_named (n : string) (l : list (gmap string value))
  : result (option nat) :=
  match l with
  | [] => Ok None
  | d :: rest =>
      v ← getitem d "name";
      if decide (v = Atom (AStr n)) then Ok (Some 0)
      else (r ← find_named n rest; Ok (option_map S r))
  end.

(** [for reg in general_regs_table["regs"]: if reg["name"] == "VERSION":
    raise Exception(...)] *)
Fixpoint check_version_reserved (name : string) (l : list (gmap string atom))
  : result unit :=
  match l with
  | [] => Ok tt
  | reg :: rest =>
      v ← getitem reg "name";
      if decide (v = AStr "VERSION")
      then Raise (Exception
                    (name +:+ ": Register 'VERSION' is reserved. Please remove it."))
      else check_version_reserved name rest
  end.

(** The keyword arguments that [__setup] and [__generate] accept. *)
Definition setup_kwargs (setup_options : gmap string scalar)
  : result (scalar * bool) :=
  if decide (dom setup_options ⊆ ({[ "purpose"; "is_top_module" ]} : gset string))
  then Ok (default hardware (setup_options !! "purpose"),
           from_option truthy false (setup_options !! "is_top_module"))
  else Raise (TypeError "__setup() got an unexpected keyword argument").

Definition generate_kwargs (setup_options : gmap string scalar) : result scalar :=
  if decide (dom setup_options ⊆ ({[ "purpose" ]} : gset string))
  then Ok (default hardware (setup_options !! "purpose"))
  else Raise (TypeError "__generate() got an unexpected keyword argument").

(** [if not k in vs_name: vs_name[k] = ""] *)
Definition set_default (k : string) (vs_name : gmap string string)
  : gmap string string :=
  match vs_name !! k with
  | Some _ => vs_name
  | None => <[k := ""]> vs_name
  end.

Definition version_macro (digits : string) : gmap string value :=
  {[ "name" := Atom (AStr "VERSION");
     "type" := Atom (AStr "M");
     "val" := Atom (AStr ("16'h" +:+ digits));
     "min" := Atom (AStr "NA");
     "max" := Atom (AStr "NA");
     "descr" := Atom (AStr "Product version. This 16-bit macro uses nibbles to represent decimal numbers using their binary values. The two most significant nibbles represent the integral part of the version, and the two least significant nibbles represent the decimal part. For example V12.34 is represented by 0x1234.") ]}.

Definition version_register (digits : string) : gmap string atom :=
  {[ "name" := AStr "VERSION";
     "type" := AStr "R";
     "n_bits" := AInt 16;
     "rst_val" := AStr digits;
     "addr" := AInt (-1);
     "log2n_items" := AInt 0;
     "autologic" := AInt 1;
     "descr" := AStr "Product version.  This 16-bit register uses nibbles to represent decimal numbers using their binary values. The two most significant nibbles represent the integral part of the version, and the two least significant nibbles represent the decimal part. For example V12.34 is represented by 0x1234." ]}.

Definition general_group : gmap string value :=
  {[ "name" := Atom (AStr "general");
     "descr" := Atom (AStr "General Registers.");
     "regs" := Dicts [] ]}.

Section iob_module.
Context `{project}.

Definition get_descriptor (c : string) : M descriptor :=
  match descriptors !! c with
  | Some d => mret d
  | None => throw (NameError c)
  end.

(** [get_setup_purpose]: the last purpose of the history. *)
Definition get_setup_purpose (c : string) : M scalar :=
  cs ← get_cls c;
  match _setup_purpose cs with
  | None => throw (TypeError "object of type 'NoneType' has no len()")
  | Some l =>
      match last l with
      | Some p => mret p
      | None => throw (Exception (FAIL +:+ "Module has not been setup!" +:+ ENDC))
      end
  end.

(** [get_purpose_dir] *)
Definition get_purpose_dir (purpose : scalar) : M string :=
  match purpose with
  | SStr p =>
      match PURPOSE_DIRS !! p with
      | Some dir => mret dir
      | None => throw (AssertionError (FAIL +:+ "Unknown purpose " +:+ p +:+ ENDC))
      end
  | SBool b =>
      throw (AssertionError
               (FAIL +:+ "Unknown purpose " +:+ (if b then "True" else "False")
                +:+ ENDC))
  end.

(** [__generate]: the destination is computed, which checks the purpose,
    and the three prefixes get their defaults in the dictionary passed;
    the dictionary as it is afterwards is the result. *)
Definition generate (c : string) (vs_name : gmap string string)
  (purpose : scalar) : M (gmap string string) :=
  cs ← get_cls c;
  dir ← get_purpose_dir purpose;
  let dest_dir := path_join (build_dir cs) dir in
  mret (set_default "wire_prefix"
          (set_default "port_prefix" (set_default "file_prefix" vs_name))).

(** [init_attributes] *)
Definition init_attributes (c : string) : M unit :=
  cs ← get_cls c;
  if _initialized_attributes cs then mret tt
  else
    d ← get_descriptor c;
    (* [cls.build_dir] is the attribute of the class when its descriptor
       declares one, and the attribute of [iob_module] when it does not *)
    inherited ← get_shared_build_dir;
    let own := match cls_build_dir d with
               | Some _ => build_dir cs
               | None => inherited
               end in
    when (is_top_module cs)
      (set_shared_build_dir
         (if decide (own = "")
          then "../" +:+ cls_name d +:+ "_" +:+ cls_version d
          else own));;
    shared ← get_shared_build_dir;
    modify_cls c (reset_attributes shared (cls_version d));;
    (* _create_submodules_list *)
    modify_cls c (fun cs =>
      set_submodule_list (submodule_list cs ++ new_submodules d) cs);;
    (* _setup_confs, _setup_ios, _setup_regs *)
    cs ← get_cls c;
    l ← lift (update_dict_list (confs cs) (new_confs d));
    modify_cls c (set_confs l);;
    cs ← get_cls c;
    l ← lift (update_dict_list (ios cs) (new_ios d));
    modify_cls c (set_ios l);;
    cs ← get_cls c;
    l ← lift (update_dict_list (regs cs) (new_regs d));
    modify_cls c (set_regs l).

(** [__create_build_dir] *)
Definition create_build_dir (c : string) : M unit :=
  cs ← get_cls c;
  d ← get_descriptor c;
  if negb (is_top_module cs)
  then throw (AssertionError
                (FAIL +:+ "Module " +:+ cls_name d +:+ " is not a top module!"
                 +:+ ENDC))
  else
    emit (MakeDirs (build_dir cs));;
    emit (External "config_build_mk" [c]);;
    emit (MakeDirs (build_dir cs +:+ "/hardware/src"));;
    when (contains "sim" (cls_flows d))
      (emit (MakeDirs (build_dir cs +:+ "/hardware/simulation/src")));;
    when (contains "fpga" (cls_flows d))
      (emit (MakeDirs (build_dir cs +:+ "/hardware/fpga/src")));;
    emit (CopyFile (LIB_DIR +:+ "/build.mk") (build_dir cs +:+ "/Makefile")).

Definition entry_submodule (e : entry) : submodule :=
  match e with
  | Bare s | Tuple s _ => s
  end.

(** The options of a tuple are the dictionary held by the list entry;
    for a bare entry the loop body makes a new empty dictionary. *)
Definition entry_options (e : entry) : gmap string scalar :=
  match e with
  | Bare _ => ∅
  | Tuple _ o => o
  end.

(** [setup_options[k] = v] on the dictionary of a list entry. *)
Definition entry_set_option (k : string) (v : scalar) (e : entry) : entry :=
  match e with
  | Bare s => Bare s
  | Tuple s o => Tuple s (<[k := v]> o)
  end.

Definition set_option (c : string) (i : nat) (k : string) (v : scalar) : M unit :=
  modify_cls c (fun cs =>
    set_submodule_list (alter (entry_set_option k v) i (submodule_list cs)) cs).

(** The interface dictionary of a list entry after [__generate] has
    written into it. *)
Definition entry_set_vs_name (vs_name : gmap string string) (e : entry) : entry :=
  match e with
  | Bare (SDict _) => Bare (SDict vs_name)
  | Tuple (SDict _) o => Tuple (SDict vs_name) o
  | _ => e
  end.

Definition set_vs_name (c : string) (i : nat) (vs_name : gmap string string)
  : M unit :=
  modify_cls c (fun cs =>
    set_submodule_list (alter (entry_set_vs_name vs_name) i (submodule_list cs)) cs).

(** The end of the loop body of [_setup_submodules]: generate an
    interface, set up a class, or fail. *)
Definition dispatch (setup : string -> scalar -> bool -> M unit)
  (c : string) (i : nat) (_submodule : submodule)
  (setup_options : gmap string scalar) : M unit :=
  match _submodule with
  | SDict vs_name =>
      purpose ← lift (generate_kwargs setup_options);
      vs_name ← generate c vs_name purpose;
      set_vs_name c i vs_name
  | SClass sub =>
      '(purpose, is_top) ← lift (setup_kwargs setup_options);
      setup sub purpose is_top
  | SForeignClass repr =>
      d ← get_descriptor c;
      throw (Exception (FAIL +:+ "Unknown type in submodule_list of " +:+
                        cls_name d +:+ ": " +:+ repr +:+ ENDC))
  | SObject repr => throw (TypeError "issubclass() arg 1 must be a class")
  end.

(** The loop body of [_setup_submodules] for the entry at position [i];
    [setup] is the method [__setup].  [setup_options] follows the
    dictionary of the entry, and what is written into it is written into
    the entry. *)
Definition process_entry (setup : string -> scalar -> bool -> M unit)
  (c : string) (i : nat) : M unit :=
  cs ← get_cls c;
  match submodule_list cs !! i with
  | None => mret tt
  | Some e =>
      let _submodule := entry_submodule e in
      let setup_options := entry_options e in
      (* Add 'hardware' purpose by default *)
      setup_options ←
        match setup_options !! "purpose" with
        | None =>
            set_option c i "purpose" hardware;;
            mret (<["purpose" := hardware]> setup_options)
        | Some _ => mret setup_options
        end;
      purpose ← lift (getitem setup_options "purpose");
      (* Don't setup submodules that have a purpose different than
         "hardware" when this class is not the top module *)
      if negb (is_top_module cs) && bool_decide (purpose <> hardware)
      then mret tt
      else
        (* If the submodule purpose is hardware, change that purpose to
           match the purpose of the current class. *)
        setup_options ←
          (if decide (purpose = hardware)
           then latest ← get_setup_purpose c;
                set_option c i "purpose" latest;;
                mret (<["purpose" := latest]> setup_options)
           else mret setup_options);
        dispatch setup c i _submodule setup_options
  end.

(** [for submodule in submodule_list], from position [i] on, for [todo]
    entries. *)
Fixpoint setup_submodules_from (setup : string -> scalar -> bool -> M unit)
  (c : string) (i todo : nat) : M unit :=
  match todo with
  | O => mret tt
  | S todo' =>
      process_entry setup c i;;
      setup_submodules_from setup c (S i) todo'
  end.

(** [_setup_submodules(cls.submodule_list)] *)
Definition _setup_submodules (setup : string -> scalar -> bool -> M unit)
  (c : string) : M unit :=
  cs ← get_cls c;
  setup_submodules_from setup c 0 (length (submodule_list cs)).

(** [_specific_setup] *)
Definition _specific_setup (setup : string -> scalar -> bool -> M unit)
  (c : string) : M unit :=
  _setup_submodules setup c;;
  (* _create_instances does nothing *)
  (* _setup_block_groups *)
  cs ← get_cls c;
  d ← get_descriptor c;
  l ← lift (update_dict_list (block_groups cs) (new_block_groups d));
  modify_cls c (set_block_groups l).

(** The loop over [dir_list] in [_copy_srcs], for the class
    [module_class] of the loop over the classes, given by its name and
    its setup directory. *)
Fixpoint copy_dirs (c : string) (d : descriptor) (module_class : string * string)
  (dir_list : list string) : M unit :=
  match dir_list with
  | [] => mret tt
  | directory :: rest =>
      (if isdir (path_join module_class.2 directory) then
         cs ← get_cls c;
         dst_directory ←
           (if decide (directory = "hardware/src")
            then purpose ← get_setup_purpose c; get_purpose_dir purpose
            else mret directory);
         emit (CopyTree (path_join module_class.2 directory)
                 (path_join (build_dir cs) dst_directory)
                 (Some (module_class.1, cls_name d)))
       else mret tt);;
      copy_dirs c d module_class rest
  end.

(** The loop of [_copy_srcs] over the classes [mro] from [iob_module]
    down to [cls]: a class without a setup directory, or with one that a
    class before it had, is passed over.  [shutil.copytree] raises when
    the directory [document] it is to copy is not there. *)
Fixpoint copy_classes (c : string) (d : descriptor)
  (mro : list (string * string)) (previously_setup_dirs : list string)
  : M unit :=
  match mro with
  | [] => mret tt
  | module_class :: rest =>
      if decide (module_class.2 = "")
      then copy_classes c d rest previously_setup_dirs
      else if decide (module_class.2 ∈ previously_setup_dirs)
      then copy_classes c d rest previously_setup_dirs
      else
        cs ← get_cls c;
        let dir_list :=
          [ "hardware/src"; "software" ] ++
          (if is_top_module cs
           then [ "hardware/simulation"; "hardware/fpga"; "hardware/syn";
                  "hardware/lint" ]
           else []) in
        copy_dirs c d module_class dir_list;;
        when (is_top_module cs && contains "doc" (cls_flows d))
          (if isdir (path_join module_class.2 "document")
           then emit (CopyTree (path_join module_class.2 "document")
                        (path_join (build_dir cs) "document") None)
           else throw (OSError (path_join module_class.2 "document")));;
        copy_classes c d rest (previously_setup_dirs ++ [module_class.2])
  end.

(** [_copy_srcs]: the classes are the ancestors of [cls] below
    [iob_module], the highest first, and [cls] itself; [iob_module] has no
    setup directory. *)
Definition _copy_srcs (c : string) : M unit :=
  d ← get_descriptor c;
  copy_classes c d (cls_ancestors d ++ [(cls_name d, cls_setup_dir d)]) [].

(** [_auto_add_settings] *)
Definition _auto_add_settings (setup : string -> scalar -> bool -> M unit)
  (c : string) : M unit :=
  cs ← get_cls c;
  d ← get_descriptor c;
  (match confs cs with
   | [] => mret tt
   | _ =>
       found ← lift (find_named "VERSION" (confs cs));
       match found with
       | Some _ => mret tt
       | None =>
           modify_cls c (fun cs =>
             set_confs (confs cs ++
                        [version_macro (version_str_to_digits (cls_version d))]) cs)
       end
   end);;
  match regs cs with
  | [] => mret tt
  | _ =>
      when (negb (String.eqb (cls_name d) "iob_ctls"))
        (purpose ← get_setup_purpose c;
         setup "iob_ctls" purpose false);;
      purpose ← get_setup_purpose c;
      generate c {[ "interface" := "iob_s_port" ]} purpose;;
      purpose ← get_setup_purpose c;
      generate c {[ "interface" := "iob_s_s_portmap" ]} purpose;;
      mret tt
  end.

(** [_build_regs_table], up to the call of [mkregs]. *)
Definition _build_regs_table (c : string) : M unit :=
  cs ← get_cls c;
  d ← get_descriptor c;
  match regs cs with
  | [] => mret tt
  | _ =>
      found ← lift (find_named "general" (regs cs));
      j ← match found with
          | Some j => mret j
          | None =>
              modify_cls c (fun cs => set_regs (regs cs ++ [general_group]) cs);;
              mret (length (regs cs))
          end;
      cs ← get_cls c;
      when (length (default [] (_setup_purpose cs)) <? 2)%nat
        (match regs cs !! j with
         | None => mret tt
         | Some general_regs_table =>
             v ← lift (getitem general_regs_table "regs");
             match v with
             | Atom _ => throw (TypeError "the registers of a group are a list")
             | Dicts l =>
                 lift (check_version_reserved (cls_name d) l);;
                 let reg := version_register (version_str_to_digits (cls_version d)) in
                 modify_cls c (fun cs =>
                   set_regs (<[j := <["regs" := Dicts (l ++ [reg])]>
                                       general_regs_table]> (regs cs)) cs)
             end
         end)
  end.

(** [_generate_hw], [_generate_sw] and [_generate_doc] *)
Definition _generate_hw (c : string) : M unit :=
  cs ← get_cls c;
  d ← get_descriptor c;
  when (negb (bool_decide (regs cs = [])))
    (emit (External "mkregs.write_hwheader"
             [build_dir cs +:+ "/hardware/src"; cls_name d]);;
     emit (External "mkregs.write_lparam_header"
             [build_dir cs +:+ "/hardware/simulation/src"; cls_name d]);;
     emit (External "mkregs.write_hwcode"
             [build_dir cs +:+ "/hardware/src"; cls_name d]));;
  when (negb (bool_decide (confs cs = [])))
    (emit (External "mk_conf.params_vh"
             [cls_name d; build_dir cs +:+ "/hardware/src"]);;
     emit (External "mk_conf.conf_vh"
             [cls_name d; build_dir cs +:+ "/hardware/src"]));;
  when (negb (bool_decide (ios cs = [])))
    (emit (External "ios.generate_ports"
             [cls_name d; build_dir cs +:+ "/hardware/src"])).

Definition _generate_sw (c : string) : M unit :=
  cs ← get_cls c;
  d ← get_descriptor c;
  when (contains "emb" (cls_flows d))
    (emit (MakeDirs (build_dir cs +:+ "/software/src"));;
     when (negb (bool_decide (regs cs = [])))
       (emit (External "mkregs.write_swheader"
                [build_dir cs +:+ "/software/src"; cls_name d]);;
        emit (External "mkregs.write_swcode"
                [build_dir cs +:+ "/software/src"; cls_name d]);;
        emit (External "mkregs.write_swheader"
                [build_dir cs +:+ "/software/src"; cls_name d]));;
     emit (External "mk_conf.conf_h"
             [cls_name d; build_dir cs +:+ "/software/src"])).

Definition _generate_doc (c : string) : M unit :=
  cs ← get_cls c;
  d ← get_descriptor c;
  when (is_top_module cs && contains "doc" (cls_flows d))
    (emit (External "mk_conf.generate_confs_tex"
             [build_dir cs +:+ "/document/tsrc"]);;
     emit (External "ios.generate_ios_tex"
             [build_dir cs +:+ "/document/tsrc"]);;
     when (negb (bool_decide (regs cs = [])))
       (emit (External "mkregs.generate_regs_tex"
                [build_dir cs +:+ "/document/tsrc"]));;
     emit (External "blocks.generate_blocks_tex"
             [build_dir cs +:+ "/document/tsrc"])).

(** [_generate_files] *)
Definition _generate_files (c : string) : M unit :=
  _build_regs_table c;;
  _generate_hw c;;
  _generate_sw c;;
  _generate_doc c.

(** [_run_setup_files] *)
Definition _run_setup_files (c : string) : M unit :=
  d ← get_descriptor c;
  let run flow filepath :=
    when (contains flow (cls_flows d) && isfile filepath)
      (emit (External "exec_module" [filepath; c])) in
  run "sim" (cls_setup_dir d +:+ "/hardware/simulation/sim_setup.py");;
  run "fpga" (cls_setup_dir d +:+ "/hardware/fpga/fpga_setup.py");;
  run "emb" (cls_setup_dir d +:+ "/software/sw_setup.py");;
  run "doc" (cls_setup_dir d +:+ "/document/doc_setup.py").

(** [_remove_duplicate_sources]: the subfolders of [PURPOSE_DIRS] other
    than [hardware/src]. *)
Definition _remove_duplicate_sources (c : string) : M unit :=
  cs ← get_cls c;
  emit (RemoveCommon (path_join (build_dir cs) "hardware/src")
          (path_join (build_dir cs) "hardware/simulation/src"));;
  emit (RemoveCommon (path_join (build_dir cs) "hardware/src")
          (path_join (build_dir cs) "hardware/fpga/src")).

(** [_post_setup] *)
Definition _post_setup (setup : string -> scalar -> bool -> M unit)
  (c : string) : M unit :=
  emit (External "build_srcs.flows_setup" [c]);;
  _copy_srcs c;;
  _auto_add_settings setup c;;
  _generate_files c;;
  _run_setup_files c;;
  cs ← get_cls c;
  d ← get_descriptor c;
  when (is_top_module cs)
    (emit (External "verilog_tools.replace_includes"
             [cls_setup_dir d; build_dir cs]);;
     _remove_duplicate_sources c).

(** [__setup].  Each call spends one unit of [fuel]. *)
Fixpoint setup (fuel : nat) (c : string) (purpose : scalar) (is_top : bool)
  : M unit :=
  match fuel with
  | O => fun _ => OutOfFuel
  | S fuel' =>
      cs ← get_cls c;
      (* Initialize empty list for purpose *)
      when (bool_decide (_setup_purpose cs = None))
        (modify_cls c (set_setup_purpose (Some [])));;
      cs ← get_cls c;
      let history := default [] (_setup_purpose cs) in
      (* Don't setup if module has already been setup for this purpose or
         for the "hardware" purpose. *)
      if bool_decide (purpose ∈ history \/ hardware ∈ history) then mret tt
      else
        (* Only init attributes if this is the first time we run setup *)
        when (bool_decide (history = []))
          (modify_cls c (set_is_top_module is_top);;
           init_attributes c);;
        when (is_top && bool_decide (history = [])) (create_build_dir c);;
        (* Add current setup purpose to list *)
        modify_cls c (fun cs =>
          set_setup_purpose (Some (default [] (_setup_purpose cs) ++ [purpose])) cs);;
        _specific_setup (setup fuel') c;;
        _post_setup (setup fuel') c
  end.

(** [setup_as_top_module] *)
Definition setup_as_top_module (fuel : nat) (c : string) : M unit :=
  setup fuel c hardware true.

End iob_module.

(** ** Reading the store *)

(** The setup-purpose history of class [c]. *)
Definition hist (m : gmap string cls_state) (c : string) : list scalar :=
  match m !! c with
  | Some cs => default [] (_setup_purpose cs)
  | None => []
  end.

(** The store in which the entry at position [i] of the submodule list of
    [c] has been rewritten by [f]. *)
Definition with_entry (c : string) (i : nat) (f : entry -> entry) (st : state)
  : state :=
  {| classes :=
       alter (fun cs =>
                set_submodule_list (alter f i (submodule_list cs)) cs) c
         (classes st);
     shared_build_dir := shared_build_dir st;
     trace := trace st |}.

(** The purpose an entry asks for: the one its options give, and
    [hardware] when they give none. *)
Definition requested_purpose (e : entry) : scalar :=
  default hardware (entry_options e !! "purpose").



(** ** How the store changes during setup *)

Definition hist_of (cs : cls_state) : list scalar :=
  default [] (_setup_purpose cs).

(** A history grows at its end, by purposes it did not hold, each once,
    by nothing once it holds [hardware], and by nothing after [hardware]. *)
Definition extends (h h' : list scalar) : Prop :=
  exists ext,
    h' = h ++ ext /\
    NoDup ext /\
    (forall x, x ∈ ext -> x ∉ h) /\
    (hardware ∈ h -> ext = []) /\
    (forall a b, ext = a ++ hardware :: b -> b = []).

Definition same_kind (s s' : submodule) : Prop :=
  match s, s' with
  | SDict _, SDict _ => True
  | _, _ => s = s'
  end.

(** An entry of a class whose history grows from [h] to [h'] stays what
    it is; options that bind a purpose go on binding one; a purpose other
    than [hardware] stays bound, and so does [hardware] once it is the
    latest purpose of the class; and a purpose that the options did not
    bind before is the latest purpose the class had at some moment in
    between. *)
Definition entry_evolves (h h' : list scalar) (e e' : entry) : Prop :=
  match e, e' with
  | Bare s, Bare s' => same_kind s s'
  | Tuple s o, Tuple s' o' =>
      same_kind s s' /\
      (is_Some (o !! "purpose") -> is_Some (o' !! "purpose")) /\
      (forall q, o !! "purpose" = Some q ->
                 q <> hardware \/ last h = Some hardware ->
                 o' !! "purpose" = Some q) /\
      (forall q, o' !! "purpose" = Some q ->
                 o !! "purpose" = Some q \/
                 exists h1, extends h h1 /\ extends h1 h' /\ last h1 = Some q)
  | _, _ => False
  end.

Definition cls_evolves (cs cs' : cls_state) : Prop :=
  extends (hist_of cs) (hist_of cs') /\
  (hist_of cs <> [] ->
   Forall2 (entry_evolves (hist_of cs) (hist_of cs'))
     (submodule_list cs) (submodule_list cs')).

Definition evolves (st st' : state) : Prop :=
  (forall c, option_Forall2 cls_evolves (classes st !! c) (classes st' !! c)) /\
  trace st `prefix_of` trace st'.

(** What [init_attributes] and [__create_build_dir] of class [c] leave as
    it is: the other classes and the history of [c]. *)
Definition frame (c : string) (st st' : state) : Prop :=
  (forall c', c' <> c -> classes st' !! c' = classes st !! c') /\
  option_Forall2 (fun cs cs' => _setup_purpose cs' = _setup_purpose cs)
    (classes st !! c) (classes st' !! c) /\
  trace st `prefix_of` trace st'.

(** Histories without repetition and with nothing after [hardware]. *)
Definition history_ok (h : list scalar) : Prop :=
  NoDup h /\ forall a b, h = a ++ hardware :: b -> b = [].

Definition histories_ok (st : state) : Prop :=
  forall c, history_ok (hist (classes st) c).

(** A set of purposes [U] that holds every purpose of the store and of the
    project. *)
Definition entry_fits (U : list scalar) (e : entry) : Prop :=
  forall q, entry_options e !! "purpose" = Some q -> q ∈ U.

Definition cls_fits (U : list scalar) (cs : cls_state) : Prop :=
  (forall q, q ∈ hist_of cs -> q ∈ U) /\
  Forall (entry_fits U) (submodule_list cs).

Definition fits (U : list scalar) (m : gmap string cls_state) : Prop :=
  forall c cs, m !! c = Some cs -> cls_fits U cs.

Definition project_fits `{project} (U : list scalar) : Prop :=
  hardware ∈ U /\
  forall c d, descriptors !! c = Some d -> Forall (entry_fits U) (new_submodules d).

(** The pairs of a class and a purpose of [U] that no history records yet,
    and their number. *)
Definition pending (U : list scalar) (m : gmap string cls_state)
  : list (string * scalar) :=
  filter (fun cq => cq.2 ∉ hist m cq.1) (list_prod (elements (dom m)) U).

Definition measure (U : list scalar) (m : gmap string cls_state) : nat :=
  length (pending U m).

(** The purposes pinned by a list of entries. *)
Definition pinned_purposes (l : list entry) : list scalar :=
  omap (fun e => entry_options e !! "purpose") l.

(** Every purpose of the store and of the project, with [hardware] and
    [p]. *)
Definition universe `{project} (p : scalar) (m : gmap string cls_state)
  : list scalar :=
  hardware :: p ::
  flat_map (fun ccs => hist_of ccs.2 ++ pinned_purposes (submodule_list ccs.2))
    (map_to_list m) ++
  flat_map (fun cd => pinned_purposes (new_submodules cd.2))
    (map_to_list descriptors).

(** The judgment of the proofs below.  From a store that fits [U], and
    whose measure is below the bound if there is one, [m] leaves a store
    that fits [U] and is related to the first by [R], its result satisfies
    [Q], and with a bound it does not run out of fuel. *)
Definition sound (bound : option nat) (R : relation state) (U : list scalar)
  {A : Type} (m : M A) (Q : A -> Prop) : Prop :=
  forall st,
    fits U (classes st) ->
    (forall k, bound = Some k -> measure U (classes st) < k) ->
    match m st with
    | Return a st' => fits U (classes st') /\ R st st' /\ Q a
    | Throw _ st' => fits U (classes st') /\ R st st'
    | OutOfFuel => bound = None
    end.

(** The relations [sound] is used with. *)
Class good (U : list scalar) (R : relation state) : Prop := {
  good_preorder :: PreOrder R;
  good_measure : forall st st',
    R st st' -> measure U (classes st') <= measure U (classes st);
  good_emit : forall st e,
    R st {| classes := classes st; shared_build_dir := shared_build_dir st;
            trace := trace st ++ [e] |};
  good_shared : forall st dir,
    R st {| classes := classes st; shared_build_dir := dir; trace := trace st |}
}.

(** ** A project to run setup on *)

Definition demo_descriptor (name flows setup_dir : string)
  (submodules : list entry) (regs : list (gmap string value)) : descriptor := {|
  cls_name := name;
  cls_version := "V0.10";
  cls_previous_version := None;
  cls_flows := flows;
  cls_setup_dir := setup_dir;
  cls_build_dir := None;
  cls_ancestors := [];
  new_submodules := submodules;
  new_confs := [];
  new_ios := [];
  new_regs := regs;
  new_block_groups := []
|}.

(** A system [iob_soc] with a UART, a test bench pinned to simulation and a
    generated interface; the UART has a register and names the system
    among its submodules, which closes a cycle; [iob_bad] declares the
    reserved register. *)
Definition demo_project : project := {|
  descriptors :=
    {[ "iob_soc" :=
         demo_descriptor "iob_soc" "sim" "/soc"
           [ Bare (SClass "iob_uart");
             Tuple (SClass "iob_tb") {[ "purpose" := SStr "simulation" ]};
             Tuple (SClass "iob_cache") ∅;
             Bare (SDict {[ "interface" := "axi_m_port" ]}) ] [];
       "iob_uart" :=
         demo_descriptor "iob_uart" "" "/uart"
           [ Tuple (SClass "iob_soc") ∅;
             Tuple (SClass "iob_tb") {[ "purpose" := SStr "simulation" ]} ]
           [ {[ "name" := Atom (AStr "uart");
                "regs" := Dicts [ {[ "name" := AStr "TXDATA" ]} ] ]} ];
       "iob_tb" :=
         demo_descriptor "iob_tb" "" "" [ Tuple (SClass "iob_cache") ∅ ] [];
       "iob_cache" := demo_descriptor "iob_cache" "" "/cache" [] [];
       "iob_ctls" := demo_descriptor "iob_ctls" "" "/ctls" [] [];
       "iob_bad" :=
         demo_descriptor "iob_bad" "" "/bad" []
           [ {[ "name" := Atom (AStr "general");
                "regs" := Dicts [ {[ "name" := AStr "VERSION" ]} ] ]} ] ]};
  version_str_to_digits := fun _ => "0010";
  LIB_DIR := "/lib";
  FAIL := "";
  ENDC := "";
  isdir := fun path => String.eqb path "/soc/hardware/src" ||
                       String.eqb path "/bad/hardware/src";
  isfile := fun _ => false
|}.

(** An assignment to an attribute other than the history and the list of
    submodules. *)
Definition neutral (f : cls_state -> cls_state) : Prop :=
  forall cs, _setup_purpose (f cs) = _setup_purpose cs /\
             submodule_list (f cs) = submodule_list cs.

(** The options of an entry name a purpose of the universe, if any. *)
Definition opts_fit (U : list scalar) (o : gmap string scalar) : Prop :=
  forall q, o !! "purpose" = Some q -> q ∈ U.

(** The bound that is left for the calls made by a call. *)
Definition inner (bound : option nat) : option nat := Nat.pred <$> bound.

(** A class in the middle of a build: its history, whether it is the top
    module, its submodules and its registers. *)
Definition demo_cls (history : list scalar) (top : bool) (submodules : list entry)
  (registers : list (gmap string value)) : cls_state := {|
  _setup_purpose := Some history;
  is_top_module := top;
  _initialized_attributes := true;
  build_dir := "../iob_soc_V0.10";
  previous_version := Some "V0.10";
  confs := [];
  regs := registers;
  ios := [];
  block_groups := [];
  submodule_list := submodules
|}.

Definition demo_store (m : gmap string cls_state) : state := {|
  classes := m;
  shared_build_dir := "../iob_soc_V0.10";
  trace := []
|}.

(** The register group of [iob_bad]. *)
Definition bad_group : gmap string value :=
  {[ "name" := Atom (AStr "general");
     "regs" := Dicts [ {[ "name" := AStr "VERSION" ]} ] ]}.

(** ** The text that [create_systemv] makes for an instance *)

(** The lines made from the texts [bodies] by a loop that leaves the comma
    off the first line it inserts. *)
Fixpoint finish_lines (first : bool) (bodies : list string) : list string :=
  match bodies with
  | [] => []
  | b :: bs => (b +:+ (if first then "" else ",") +:+ nl) :: finish_lines false bs
  end.

(** The connections of instance [u] in the order in which
    [create_systemv] visits them: the reserved signals, then the regular
    ports. *)
Definition connection_bodies `{helpers} (top type_top : string) (u : instance)
  (ports : list signal) : list string :=
  map (fun sg =>
         "      " +:+
         get_reserved_signal_connection (sig_name sg)
           (upper top +:+ "_" +:+ i_name u) (upper type_top +:+ "_SWREG"))
      (get_reserved_signals ports) ++
  map (fun sg =>
         "      ." +:+ sig_name sg +:+ "(" +:+
         get_peripheral_port_mapping u (sig_name sg) +:+ ")")
      (get_pio_signals ports).

Definition param_bodies (params : list (string * string)) : list string :=
  map (fun pv => "      ." +:+ pv.1 +:+ "(" +:+ pv.2 +:+ ")") params.

(** The text of the instantiation of [u], from top to bottom. *)
Definition instance_text `{helpers} (top type_top : string) (u : instance)
  (ports : list signal) : list string :=
  [ nl; "   // " +:+ i_name u +:+ nl; nl; "   " +:+ type_top +:+ nl ] ++
  match i_params u with
  | [] => []
  | params =>
      ("     #(" +:+ nl) :: rev (finish_lines true (param_bodies params)) ++
      [ "   )" +:+ nl ]
  end ++
  ("   " +:+ i_name u +:+ " (" +:+ nl) ::
  rev (finish_lines true (connection_bodies top type_top u ports)) ++
  [ "      );" +:+ nl ].

Definition wire_line (w : wire) : string :=
  "    wire [" +:+ w_n_bits w +:+ "-1:0] " +:+ w_name w +:+ nl.

(** The ports of a peripheral with two reserved signals and two regular
    ports. *)
Definition demo_ports : list signal :=
  [ {| sig_name := "clk_i" |}; {| sig_name := "data" |};
    {| sig_name := "rst_i" |}; {| sig_name := "irq" |} ].


(** The descriptors of [iob_uart] and [iob_cache] in [demo_project]. *)
Definition demo_uart : descriptor :=
  demo_descriptor "iob_uart" "" "/uart"
    [ Tuple (SClass "iob_soc") ∅;
      Tuple (SClass "iob_tb") {[ "purpose" := SStr "simulation" ]} ]
    [ {[ "name" := Atom (AStr "uart");
         "regs" := Dicts [ {[ "name" := AStr "TXDATA" ]} ] ]} ].

Definition demo_cache : descriptor :=
  demo_descriptor "iob_cache" "" "/cache" [] [].

(** ** [iob_module.find_modules] *)

(** A directory tree: what [os.listdir] and [os.path.isdir] read.  The
    entries of a directory stand in the order in which [os.listdir] gives
    them. *)
Inductive node : Type :=
| File
| Dir (entries : list (string * node)).

(** [s.endswith(suffix)] *)
Definition ends_with (suffix s : string) : bool :=
  starts_with (reverse suffix) (reverse s).

(** The state of the search: [nextDirs], [found_modules] and [sys.path]. *)
Record search : Type := {
  nextDirs : list (string * list (string * node));
  found_modules : list string;
  sys_path : list string
}.

(** [for f in os.listdir(parent)] *)
Fixpoint scan_entries (parent : string) (entries : list (string * node))
  (s : search) : search :=
  match entries with
  | [] => s
  | (f, n) :: rest =>
      let ff := path_join parent f in
      scan_entries parent rest
        match n with
        | Dir es =>
            {| nextDirs := nextDirs s ++ [(ff, es)];
               found_modules := found_modules s;
               sys_path := sys_path s |}
        | File =>
            if ends_with ".py" f && negb (bool_decide (f ∈ found_modules s))
            then {| nextDirs := nextDirs s;
                    found_modules := found_modules s ++ [f];
                    sys_path := sys_path s ++ [parent] |}
            else s
        end
  end.

(** [for parent in dirs] *)
Fixpoint scan_dirs (dirs : list (string * list (string * node))) (s : search)
  : search :=
  match dirs with
  | [] => s
  | (parent, entries) :: rest => scan_dirs rest (scan_entries parent entries s)
  end.

(** [while len(dirs)]; one round of the loop spends one unit of fuel.  The
    result is [found_modules] and [sys.path] at the end. *)
Fixpoint find_modules_loop (fuel : nat)
  (dirs : list (string * list (string * node)))
  (found : list string) (path : list string)
  : option (list string * list string) :=
  match dirs with
  | [] => Some (found, path)
  | _ =>
      match fuel with
      | O => None
      | S fuel' =>
          let s := scan_dirs dirs {| nextDirs := []; found_modules := found;
                                     sys_path := path |} in
          find_modules_loop fuel' (nextDirs s) (found_modules s) (sys_path s)
      end
  end.

(** [find_modules(search_path)] on the directory [entries]. *)
Definition find_modules (fuel : nat) (search_path : string)
  (entries : list (string * node)) (path : list string)
  : option (list string * list string) :=
  find_modules_loop fuel [(search_path, entries)] [] path.

(** The number of directory levels below a directory with these entries. *)
Fixpoint levels (n : node) : nat :=
  match n with
  | File => 0
  | Dir es => S (list_max (map (fun fn => levels fn.2) es))
  end.

Definition levels_below (entries : list (string * node)) : nat :=
  list_max (map (fun fn => levels fn.2) entries).


(** A repository with a module name that occurs twice. *)
Definition demo_tree : list (string * node) :=
  [ ("setup.py", File);
    ("scripts", Dir [ ("iob_module.py", File); ("setup.py", File);
                      ("README.md", File) ]);
    ("hardware", Dir [ ("modules", Dir [ ("iob_utils.py", File) ]) ]) ].


(** * Properties *)

Section update_dict_list_facts.
Context {V : Type} `{EqDecision V}.
Implicit Types (e it : gmap string V) (L N : list (gmap string V)).

Lemma merge_step_name it e : merge_step it e !! "name" = e !! "name".
Proof.
  unfold merge_step, dict_update. case_decide as Hn; [|done].
  destruct (it !! "name") as [v|] eqn:Hit.
  - rewrite (lookup_union_Some_l _ _ _ _ Hit). done.
  - rewrite lookup_union_r; done.
Qed.

Lemma merge_into_cons e it N :
  merge_into e (it :: N) = merge_into (merge_step it e) N.
Proof. reflexivity. Qed.

Lemma merge_into_name e N : merge_into e N !! "name" = e !! "name".
Proof.
  revert e. induction N as [|it N IH]; intros e; [done|].
  rewrite merge_into_cons, IH. apply merge_step_name.
Qed.

Lemma names_map_merge_step it L : names (map (merge_step it) L) = names L.
Proof.
  unfold names. rewrite map_map. apply map_ext. intros e. apply merge_step_name.
Qed.

Lemma merge_item_miss it L :
  Forall named L -> named it -> it !! "name" ∉ names L ->
  merge_item it L = Ok (L ++ [it]).
Proof.
  intros HL [n Hn]. induction HL as [|e L [m Hm] HL IH]; intros Hnot; [done|].
  cbn [merge_item]. unfold getitem. rewrite Hm, Hn. cbn.
  cbn in Hnot. apply not_elem_of_cons in Hnot as [Hne Hnot].
  rewrite decide_False by congruence.
  rewrite (IH Hnot). done.
Qed.

Lemma merge_item_hit it L :
  Forall named L -> named it -> it !! "name" ∈ names L -> NoDup (names L) ->
  merge_item it L = Ok (map (merge_step it) L).
Proof.
  intros HL [n Hn]. induction HL as [|e L [m Hm] HL IH]; intros Hin Hnd.
  - by apply elem_of_nil in Hin.
  - cbn [merge_item]. unfold getitem. rewrite Hm, Hn. cbn.
    cbn in Hnd. apply NoDup_cons in Hnd as [Hfresh Hnd].
    destruct (decide (m = n)) as [->|Hne].
    + f_equal. cbn. unfold merge_step at 1. rewrite decide_True by congruence.
      f_equal. symmetry. rewrite <- (map_id L) at 2. apply map_ext_in.
      intros e' He'. unfold merge_step. rewrite decide_False; [done|].
      intros Heq. apply Hfresh. rewrite Hm, <- Hn, <- Heq.
      apply list_elem_of_In in He'. unfold names.
      by apply (list_elem_of_fmap_2 (fun d : gmap string V => d !! "name")).
    + cbn in Hin. apply elem_of_cons in Hin as [Hin|Hin]; [congruence|].
      rewrite (IH Hin Hnd). cbn. f_equal.
      unfold merge_step at 2. rewrite decide_False by congruence. done.
Qed.

Lemma fresh_not_seen seen N e : e ∈ fresh seen N -> e !! "name" ∉ seen.
Proof.
  revert seen. induction N as [|it N IH]; intros seen He; cbn in He.
  - by apply elem_of_nil in He.
  - case_decide as Hs; [by apply IH|].
    apply elem_of_cons in He as [->|He]; [done|].
    apply IH in He. intros Hin. apply He, elem_of_app. by left.
Qed.

Lemma fresh_spec seen N :
  NoDup seen ->
  NoDup (seen ++ names (fresh seen N)) /\
  (forall x, x ∈ seen ++ names (fresh seen N) <-> x ∈ seen ++ names N).
Proof.
  revert seen. induction N as [|it N IH]; intros seen Hnd; cbn.
  - rewrite app_nil_r. done.
  - case_decide as Hs.
    + destruct (IH seen Hnd) as [IH1 IH2]. split; [done|].
      intros x. rewrite IH2, !elem_of_app, elem_of_cons.
      split; [tauto|]. intros [?|[->|?]]; auto.
    + assert (NoDup (seen ++ [it !! "name"])) as Hnd'.
      { apply NoDup_app. split_and!; [done| |apply NoDup_singleton].
        intros x Hx Hx'. apply list_elem_of_singleton in Hx'. congruence. }
      destruct (IH _ Hnd') as [IH1 IH2]. cbn.
      rewrite <- !app_assoc in IH1. cbn in IH1. split; [done|].
      intros x. specialize (IH2 x). rewrite <- !app_assoc in IH2. cbn in IH2.
      done.
Qed.

(** The number of distinct names of two lists, the first without
    repetition, is the length of the first plus the number of fresh ones. *)
Lemma distinct_names_count L N :
  NoDup (names L) ->
  length (remove_dups (names L ++ names N)) =
  length L + length (fresh (names L) N).
Proof.
  intros Hnd. destruct (fresh_spec (names L) N Hnd) as [H1 H2].
  transitivity (length (names L ++ names (fresh (names L) N))).
  - apply Permutation_length, NoDup_Permutation; [apply NoDup_remove_dups|done|].
    intros x. rewrite elem_of_remove_dups. symmetry. apply H2.
  - unfold names. rewrite length_app, !length_map. done.
Qed.

(** The list that [update_dict_list] leaves: every old entry, in place,
    with the items of its name merged in, followed by the first item of
    every new name, with the later items of that name merged in. *)
Lemma update_dict_list_shape L N :
  Forall named L -> Forall named N -> NoDup (names L) ->
  update_dict_list L N =
  Ok (map (fun e => merge_into e N) (L ++ fresh (names L) N)).
Proof.
  intros HL HN. revert L HL. induction HN as [|it N Hit HN IH]; intros L HL Hnd.
  - cbn. rewrite app_nil_r. f_equal. symmetry. apply map_id.
  - cbn [update_dict_list fresh]. case_decide as Hin.
    + rewrite (merge_item_hit it L HL Hit Hin Hnd). cbn [mbind result_bind].
      rewrite IH.
      * rewrite names_map_merge_step. f_equal.
        rewrite !map_app, map_map. f_equal.
        apply map_ext_in. intros e He. rewrite merge_into_cons.
        unfold merge_step. rewrite decide_False; [done|].
        apply list_elem_of_In, fresh_not_seen in He. congruence.
      * apply Forall_forall. intros e He. apply list_elem_of_In in He.
        apply in_map_iff in He as (e' & <- & He').
        unfold named. rewrite merge_step_name.
        by apply (proj1 (Forall_forall _ _) HL), list_elem_of_In.
      * by rewrite names_map_merge_step.
    + rewrite (merge_item_miss it L HL Hit Hin). cbn [mbind result_bind].
      assert (names (L ++ [it]) = names L ++ [it !! "name"]) as Hnames.
      { unfold names. by rewrite map_app. }
      rewrite IH.
      * rewrite Hnames, <- app_assoc. cbn [app]. f_equal.
        apply map_ext_in. intros e He. rewrite merge_into_cons. f_equal.
        unfold merge_step, dict_update. case_decide as Heq; [|done].
        apply in_app_or in He as [He|He].
        -- exfalso. apply Hin. rewrite <- Heq. unfold names.
           apply list_elem_of_In in He.
           by apply (list_elem_of_fmap_2 (fun d : gmap string V => d !! "name")).
        -- cbn in He. destruct He as [->|He]; [symmetry; apply (idemp_L (∪))|].
           apply list_elem_of_In, fresh_not_seen in He.
           exfalso. apply He, elem_of_app. right.
           apply list_elem_of_singleton. done.
      * apply Forall_app. split; [done|]. by apply Forall_singleton.
      * rewrite Hnames. apply NoDup_app. split_and!; [done| |apply NoDup_singleton].
        intros x Hx Hx'. apply list_elem_of_singleton in Hx'. congruence.
Qed.

(** The merge law on fields: a key takes the value of the last item of
    that name that binds it, and the entry's own value otherwise. *)
Lemma merge_into_lookup e N k :
  merge_into e N !! k =
  match last_value (e !! "name") k N with
  | Some v => Some v
  | None => e !! k
  end.
Proof.
  revert e. induction N as [|it N IH]; intros e; [done|].
  rewrite merge_into_cons, IH, merge_step_name. cbn [last_value].
  destruct (last_value (e !! "name") k N) as [v|]; [done|].
  unfold merge_step, dict_update.
  destruct (decide (e !! "name" = it !! "name")) as [Heq|Hne].
  - rewrite decide_True by done. rewrite lookup_union.
    destruct (it !! k), (e !! k); done.
  - rewrite decide_False by congruence. done.
Qed.

Lemma last_value_is_Some n k N it :
  it ∈ N -> it !! "name" = n -> is_Some (it !! k) -> is_Some (last_value n k N).
Proof.
  intros Hin Hn Hk. induction N as [|it' N IH]; [by apply elem_of_nil in Hin|].
  cbn. apply elem_of_cons in Hin as [<-|Hin].
  - destruct (last_value n k N); [by eexists|]. by rewrite decide_True.
  - destruct (IH Hin) as [v ->]. by eexists.
Qed.

Lemma merge_into_keeps_item e N it k :
  it ∈ N -> it !! "name" = e !! "name" -> is_Some (it !! k) ->
  is_Some (merge_into e N !! k).
Proof.
  intros Hin Hn Hk. rewrite merge_into_lookup.
  destruct (last_value_is_Some _ k N it Hin Hn Hk) as [v ->]. by eexists.
Qed.

(** C3 (amended): for entries that all carry a name, the old ones under
    pairwise distinct names, [update_dict_list] returns a list [R] in
    which every old entry sits at its old position with the new items of
    its name merged in, followed by one entry for every new name in input
    order; in a merged entry a key holds the value of the last new item
    of that name binding it and the old value otherwise; the length of
    [R] is the number of distinct names; and every new item is found in
    [R] under its name with all of its keys. *)
Theorem update_dict_list_merge_law L N :
  Forall named L -> Forall named N -> NoDup (names L) ->
  exists R,
    update_dict_list L N = Ok R /\
    (forall i e, L !! i = Some e -> R !! i = Some (merge_into e N)) /\
    drop (length L) R = map (fun e => merge_into e N) (fresh (names L) N) /\
    names R = names L ++ names (fresh (names L) N) /\
    (forall e k, merge_into e N !! k =
                 match last_value (e !! "name") k N with
                 | Some v => Some v
                 | None => e !! k
                 end) /\
    length R = length (remove_dups (names L ++ names N)) /\
    (forall it, it ∈ N ->
       exists d, d ∈ R /\ d !! "name" = it !! "name" /\
                 forall k, is_Some (it !! k) -> is_Some (d !! k)).
Proof.
  intros HL HN Hnd. eexists. split; [by apply update_dict_list_shape|].
  rewrite map_app.
  assert (length (map (fun e => merge_into e N) L) = length L) as Hlen
    by apply length_map.
  split_and!.
  - intros i e Hi. rewrite lookup_app_l by (rewrite Hlen; by eapply lookup_lt_Some).
    change (map ?f L) with (f <$> L). by rewrite list_lookup_fmap, Hi.
  - rewrite <- Hlen. by rewrite drop_app_length.
  - unfold names. rewrite !map_app, !map_map. f_equal; apply map_ext; intros e;
      apply merge_into_name.
  - intros e k. apply merge_into_lookup.
  - rewrite length_app, !length_map. symmetry. by apply distinct_names_count.
  - intros it Hit.
    assert (it !! "name" ∈ names L ++ names (fresh (names L) N)) as Hname.
    { apply (fresh_spec (names L) N Hnd), elem_of_app. right. unfold names.
      by apply (list_elem_of_fmap_2 (fun d : gmap string V => d !! "name")). }
    unfold names in Hname. rewrite <- map_app in Hname.
    apply list_elem_of_In, in_map_iff in Hname as (e & He & Hin).
    exists (merge_into e N). split_and!.
    + rewrite <- map_app. apply list_elem_of_In.
      apply (in_map (fun e => merge_into e N)). done.
    + by rewrite merge_into_name.
    + intros k Hk. by apply (merge_into_keeps_item e N it).
Qed.

End update_dict_list_facts.

(** The law at one old entry and two new items. *)
Lemma update_dict_list_merge_law_witness :
  let L : list (gmap string string) := [ {[ "name" := "a"; "val" := "1" ]} ] in
  let N : list (gmap string string) :=
    [ {[ "name" := "a"; "val" := "2" ]}; {[ "name" := "b" ]} ] in
  exists R,
    update_dict_list L N = Ok R /\
    (forall i e, L !! i = Some e -> R !! i = Some (merge_into e N)) /\
    drop (length L) R = map (fun e => merge_into e N) (fresh (names L) N) /\
    names R = names L ++ names (fresh (names L) N) /\
    (forall e k, merge_into e N !! k =
                 match last_value (e !! "name") k N with
                 | Some v => Some v
                 | None => e !! k
                 end) /\
    length R = length (remove_dups (names L ++ names N)) /\
    (forall it, it ∈ N ->
       exists d, d ∈ R /\ d !! "name" = it !! "name" /\
                 forall k, is_Some (it !! k) -> is_Some (d !! k)).
Proof.
  intros L N. apply (update_dict_list_merge_law L N).
  - repeat constructor; eexists; vm_compute; reflexivity.
  - repeat constructor; eexists; vm_compute; reflexivity.
  - apply (bool_decide_unpack _). vm_compute. reflexivity.
Defined.

(** C3 as stated fails on a list that holds a name twice: the new item is
    merged into the first entry of its name only, and the list keeps two
    entries for one name. *)
Lemma update_dict_list_length_counterexample :
  let L : list (gmap string string) :=
    [ {[ "name" := "a"; "val" := "1" ]}; {[ "name" := "a"; "val" := "2" ]} ] in
  let N : list (gmap string string) := [ {[ "name" := "a"; "val" := "3" ]} ] in
  update_dict_list L N =
    Ok [ {[ "name" := "a"; "val" := "3" ]}; {[ "name" := "a"; "val" := "2" ]} ] /\
  length (remove_dups (names L ++ names N)) = 1 /\
  ~ (exists R, update_dict_list L N = Ok R /\
               length R = length (remove_dups (names L ++ names N))).
Proof.
  intros L N.
  assert (update_dict_list L N =
          Ok [ {[ "name" := "a"; "val" := "3" ]}; {[ "name" := "a"; "val" := "2" ]} ])
    as Hrun by (vm_compute; reflexivity).
  split_and!; [exact Hrun|vm_compute; reflexivity|].
  intros (R & HR & Hlen). rewrite Hrun in HR. injection HR as <-.
  vm_compute in Hlen. discriminate.
Qed.

(** ** Strings *)

Section string_facts.
Implicit Types (s t p old new : string) (c : ascii).

Lemma append_nil_l s : "" +:+ s = s.
Proof. reflexivity. Qed.

Lemma append_cons c s t : String c s +:+ t = String c (s +:+ t).
Proof. reflexivity. Qed.

Lemma append_nil_r s : s +:+ "" = s.
Proof. induction s as [|c s IH]; [done|by rewrite append_cons, IH]. Qed.

Lemma append_assoc s t u : (s +:+ t) +:+ u = s +:+ (t +:+ u).
Proof. induction s as [|c s IH]; [done|by rewrite !append_cons, IH]. Qed.






















End string_facts.

(** ** [copy_with_rename] *)




(** Nor is the text outside the replacements kept byte for byte: a file
    with CR LF line ends is written with LF line ends, also when nothing
    in it is replaced. *)
Example copy_with_rename_line_ends :
  let cr := String carriage_return "" in
  let src := {| f_content := Text ("wire a;" +:+ cr +:+ nl +:+ "wire b;" +:+ cr +:+ nl);
                f_mode := 420 |} in
  let fs : gmap string file := {[ "/lib/w.vh" := src ]} in
  exists fs',
    copy_with_rename "iob_reg" "iob_regfile" "/lib/w.vh" "/build/w.vh" fs = Ok fs' /\
    fs' !! "/build/w.vh" =
      Some {| f_content := Text ("wire a;" +:+ nl +:+ "wire b;" +:+ nl);
              f_mode := 420 |}.
Proof.
  intros cr src fs. eexists. split; vm_compute; reflexivity.
Qed.

(** ** [createSystem.py] *)

Section createSystem_facts.
Context `{helpers}.

(** C8: when the template [<setup_dir>/hardware/src/<top>.vt] is not a
    file, [create_systemv] returns normally and the file system is what it
    was: nothing is created and nothing is modified. *)
Theorem create_systemv_no_template (new_mode : N) (setup_dir : string)
  (submodule_dirs : gmap string string) (top : string)
  (peripherals_list : list instance) (out_file : string)
  (internal_wires : option (list wire)) (fs : gmap string file) :
  fs !! template_path setup_dir top = None ->
  create_systemv new_mode setup_dir submodule_dirs top peripherals_list
    out_file internal_wires fs = Ok fs.
Proof. intros Hnone. unfold create_systemv. by rewrite Hnone. Qed.

Lemma py_insert_at {A : Type} (pre post : list A) (x : A) :
  py_insert (Z.of_nat (length pre)) x (pre ++ post) = pre ++ x :: post.
Proof.
  unfold py_insert. rewrite length_app.
  replace (Z.of_nat (length pre) <? 0)%Z with false by (symmetry; apply Z.ltb_ge; lia).
  rewrite Z.min_l by lia. rewrite Nat2Z.id.
  by rewrite take_app_length, drop_app_length.
Qed.

Lemma first_line_with_marker pre marker post :
  Forall (fun line => contains "PHEADER" line = false) pre ->
  contains "PHEADER" marker = true ->
  first_line_with "PHEADER" (pre ++ marker :: post) = Some (length pre).
Proof.
  intros Hpre Hm. induction Hpre as [|l pre Hl Hpre IH]; cbn [app first_line_with].
  - by rewrite Hm.
  - rewrite Hl, IH. done.
Qed.

(** The types that the loop of [insert_header_files] adds to
    [included_peripherals]. *)
Lemma first_seen_filter_seen (seen : list string) t (l : list string) :
  t ∈ seen ->
  filter (fun u => u ∉ seen) (filter (fun u => u <> t) l) =
  filter (fun u => u ∉ seen) l.
Proof.
  intros Ht. rewrite list_filter_filter. apply list_filter_iff.
  intros u. split; [tauto|]. intros Hu. split; [done|]. congruence.
Qed.

Lemma first_seen_filter_snoc (seen : list string) t (l : list string) :
  filter (fun u => u ∉ seen ++ [t]) l =
  filter (fun u => u ∉ seen) (filter (fun u => u <> t) l).
Proof.
  rewrite list_filter_filter. apply list_filter_iff.
  intros u. rewrite elem_of_app, list_elem_of_singleton. tauto.
Qed.

Lemma insert_header_loop_spec (top_of : string -> string)
  (submodule_dirs : gmap string string) (pre : list string) :
  forall (l : list instance) (included : list string) (post : list string),
    (forall i, i ∈ l ->
       exists d, submodule_dirs !! i_type i = Some d /\
                 setup_meta_name d = Ok (top_of (i_type i))) ->
    insert_header_loop (Z.of_nat (length pre)) submodule_dirs l included
      (pre ++ post) =
    Ok (pre ++
        rev (map (fun t => include_line (top_of t))
               (filter (fun u => u ∉ included) (first_seen (map i_type l))))
        ++ post).
Proof.
  induction l as [|i l IH]; intros included post Hok; [done|].
  cbn [insert_header_loop map first_seen].
  assert (forall j, j ∈ l ->
            exists d, submodule_dirs !! i_type j = Some d /\
                      setup_meta_name d = Ok (top_of (i_type j))) as Hok'.
  { intros j Hj. apply Hok. by right. }
  rewrite filter_cons. destruct (decide (i_type i ∈ included)) as [Hin|Hnot].
  - rewrite decide_False by tauto.
    rewrite (IH included post Hok'). by rewrite first_seen_filter_seen.
  - rewrite decide_True by done.
    destruct (Hok i) as (d & Hd & Hname); [by left|].
    unfold getitem. rewrite Hd. cbn [mbind result_bind]. rewrite Hname.
    cbn [mbind result_bind]. rewrite py_insert_at, (IH _ _ Hok').
    rewrite first_seen_filter_snoc. cbn [map rev].
    by rewrite <- !app_assoc.
Qed.

Lemma first_seen_elem (l : list string) t : t ∈ first_seen l <-> t ∈ l.
Proof.
  induction l as [|u l IH]; [done|]. cbn [first_seen].
  rewrite !elem_of_cons, list_elem_of_filter, IH.
  destruct (decide (t = u)); tauto.
Qed.

Lemma first_seen_NoDup (l : list string) : NoDup (first_seen l).
Proof.
  induction l as [|u l IH]; [constructor|]. cbn [first_seen].
  constructor; [|by apply NoDup_filter].
  rewrite list_elem_of_filter. tauto.
Qed.

(** C7 (amended): on a template whose first line holding [PHEADER] is
    [marker], with every peripheral type resolved to its top name,
    [insert_header_files] inserts one include line per distinct type in
    use, directly after the marker line, in the reverse of the order in
    which the types first occur in the peripherals list; the other lines
    keep their order. *)
Theorem insert_header_files_spec (top_of : string -> string)
  (submodule_dirs : gmap string string) (pre post : list string)
  (marker : string) (peripherals_list : list instance) :
  Forall (fun line => contains "PHEADER" line = false) pre ->
  contains "PHEADER" marker = true ->
  (forall i, i ∈ peripherals_list ->
     exists d, submodule_dirs !! i_type i = Some d /\
               setup_meta_name d = Ok (top_of (i_type i))) ->
  let types := first_seen (map i_type peripherals_list) in
  insert_header_files (pre ++ marker :: post) peripherals_list submodule_dirs =
    Ok (pre ++ marker ::
        rev (map (fun t => include_line (top_of t)) types) ++ post) /\
  NoDup types /\
  (forall t, t ∈ types <-> t ∈ map i_type peripherals_list).
Proof.
  intros Hpre Hm Hok types. split_and!;
    [|apply first_seen_NoDup|intros t; apply first_seen_elem].
  unfold insert_header_files, find_idx.
  rewrite (first_line_with_marker pre marker post Hpre Hm).
  replace (Z.of_nat (length pre) + 1)%Z with (Z.of_nat (length (pre ++ [marker])))
    by (rewrite length_app; cbn; lia).
  replace (pre ++ marker :: post) with ((pre ++ [marker]) ++ post)
    by (by rewrite <- app_assoc).
  rewrite (insert_header_loop_spec top_of submodule_dirs _ _ _ _ Hok).
  rewrite <- !app_assoc. cbn [app]. do 2 f_equal. unfold types.
  assert (forall l : list string, filter (fun u => u ∉ []) l = l) as ->; [|done].
  intros l. induction l as [|u l IH]; [done|].
  rewrite filter_cons_True by apply not_elem_of_nil. by rewrite IH.
Qed.

Lemma first_line_with_end word pre line post :
  Forall (fun l => contains word l = false) pre ->
  contains word line = true ->
  first_line_with word (pre ++ line :: post) = Some (length pre).
Proof.
  intros Hpre Hm. induction Hpre as [|l pre Hl Hpre IH]; cbn [app first_line_with].
  - by rewrite Hm.
  - rewrite Hl, IH. done.
Qed.

Lemma py_get_at {A : Type} (pre post : list A) (x : A) :
  py_get (Z.of_nat (length pre)) (pre ++ x :: post) = Ok x.
Proof.
  unfold py_get, py_index. rewrite length_app. cbn [length].
  replace (Z.of_nat (length pre) <? 0)%Z with false by (symmetry; apply Z.ltb_ge; lia).
  replace (0 <=? Z.of_nat (length pre))%Z with true by (symmetry; apply Z.leb_le; lia).
  replace (Z.of_nat (length pre) <? Z.of_nat (length pre + S (length post)))%Z
    with true by (symmetry; apply Z.ltb_lt; lia).
  cbn [andb]. rewrite Nat2Z.id, list_lookup_middle; done.
Qed.

Lemma py_set_at {A : Type} (pre post : list A) (x y : A) :
  py_set (Z.of_nat (length pre)) y (pre ++ x :: post) = Ok (pre ++ y :: post).
Proof.
  unfold py_set, py_index. rewrite length_app. cbn [length].
  replace (Z.of_nat (length pre) <? 0)%Z with false by (symmetry; apply Z.ltb_ge; lia).
  replace (0 <=? Z.of_nat (length pre))%Z with true by (symmetry; apply Z.leb_le; lia).
  replace (Z.of_nat (length pre) <? Z.of_nat (length pre + S (length post)))%Z
    with true by (symmetry; apply Z.ltb_lt; lia).
  cbn [andb]. rewrite Nat2Z.id. f_equal.
  rewrite insert_app_r_alt by lia. rewrite Nat.sub_diag. done.
Qed.

Lemma py_insert_shape {A : Type} (i : Z) (x : A) (l : list A) :
  exists k, k <= length l /\ py_insert i x l = take k l ++ x :: drop k l.
Proof.
  unfold py_insert. cbv zeta. eexists. split; [|reflexivity].
  destruct (Z.ltb_spec i 0); lia.
Qed.

(** One instance with the regular port [data] connected to [w], no
    reserved port and no parameter: its text goes directly above the
    first line holding [endmodule], and the connection line has lost its
    comma. *)
Lemma insert_instance_one_port (top type_top : string)
  (port_list : gmap string (list signal)) (top_list : gmap string string)
  (u : instance) (ports : list signal) (pre post : list string)
  (endline : string) :
  Forall (fun l => contains "endmodule" l = false) pre ->
  contains "endmodule" endline = true ->
  port_list !! i_type u = Some ports ->
  top_list !! i_type u = Some type_top ->
  get_reserved_signals ports = [] ->
  get_pio_signals ports = [ {| sig_name := "data" |} ] ->
  get_peripheral_port_mapping u "data" = "w" ->
  i_params u = [] ->
  insert_instance top port_list top_list u (pre ++ endline :: post) =
  Ok (pre ++ instance_block type_top (i_name u) ++ endline :: post).
Proof.
  intros Hpre Hend Hports Htop Hres Hpio Hmap Hpar.
  unfold insert_instance, find_idx.
  rewrite (first_line_with_end _ pre endline post Hpre Hend).
  replace (Z.of_nat (length pre) + 1 - 1)%Z with (Z.of_nat (length pre)) by lia.
  unfold getitem. rewrite Hports, Htop, Hpar. cbn [mbind result_bind].
  rewrite Hres, Hpio.
  cbn [mbind result_bind insert_reserved_signals insert_pio_signals sig_name].
  rewrite Hmap. unfold strip_first_inserted.
  rewrite !py_insert_at, py_get_at. cbn [mbind result_bind].
  rewrite py_set_at. cbn [mbind result_bind length Nat.ltb Nat.leb].
  rewrite !py_insert_at.
  assert (strip_last_comma ("      ." +:+ "data" +:+ "(" +:+ "w" +:+ ")," +:+ nl)
          = "      .data(w)" +:+ nl) as -> by (vm_compute; reflexivity).
  reflexivity.
Qed.

(** One position of the include line in the proof below. *)
Ltac splice_case Hinst pre post :=
  let Hi := fresh "Hi" in
  assert (Forall (fun l => contains "endmodule" l = false) pre) as Hi
    by (repeat constructor);
  apply (Hinst pre post) in Hi; cbn [app] in Hi; rewrite Hi;
  cbn [mbind result_bind]; eexists _, _; split; [reflexivity|];
  split; [vm_compute; reflexivity|];
  exists pre, post; split; [reflexivity|]; set_solver.

(** C6: the template [module top(] / [);] / [endmodule] with the one
    instance [u0] of type [T], whose only port is the regular port [data]
    connected to [w] and which overrides no parameter.  The file written
    holds, besides the include line of [T], exactly the three template
    lines and, between [);] and [endmodule] and directly above
    [endmodule], one instantiation of [T] named [u0] whose connection
    line is [.data(w)] without a comma. *)
Theorem create_systemv_splice (new_mode : N) (setup_dir out_file dir : string)
  (submodule_dirs : gmap string string) (fs : gmap string file)
  (template : file) (ports : list signal)
  (port_list params_list : gmap string (list signal))
  (top_list : gmap string string) :
  let u0 := {| i_type := "T"; i_name := "u0"; i_params := [] |} in
  fs !! template_path setup_dir "top" = Some template ->
  f_content template =
    Text ("module top(" +:+ nl +:+ ");" +:+ nl +:+ "endmodule" +:+ nl) ->
  submodule_dirs !! "T" = Some dir ->
  setup_meta_name dir = Ok "T" ->
  get_peripherals_ports_params_top [u0] submodule_dirs =
    Ok (port_list, params_list, top_list) ->
  port_list !! "T" = Some ports ->
  top_list !! "T" = Some "T" ->
  get_reserved_signals ports = [] ->
  get_pio_signals ports = [ {| sig_name := "data" |} ] ->
  get_peripheral_port_mapping u0 "data" = "w" ->
  exists out mode,
    create_systemv new_mode setup_dir submodule_dirs "top" [u0] out_file None fs =
      Ok (<[out_file := {| f_content := Text (writelines out);
                           f_mode := mode |}]> fs) /\
    filter (fun l => l <> include_line "T") out =
      [ "module top(" +:+ nl; ");" +:+ nl;
        nl; "   // u0" +:+ nl; nl; "   T" +:+ nl; "   u0 (" +:+ nl;
        "      .data(w)" +:+ nl; "      );" +:+ nl;
        "endmodule" +:+ nl ] /\
    exists before after,
      out = before ++ instance_block "T" "u0" ++ ("endmodule" +:+ nl) :: after /\
      (");" +:+ nl) ∈ before.
Proof.
  intros u0 Hfs Htext Hdir Hname Hget Hports Htop Hres Hpio Hmap.
  set (l0 := "module top(" +:+ nl). set (l1 := ");" +:+ nl).
  set (l2 := "endmodule" +:+ nl). set (inc := include_line "T").
  assert (exists k, k <= 3 /\
            insert_header_files [l0; l1; l2] [u0] submodule_dirs =
            Ok (take k [l0; l1; l2] ++ inc :: drop k [l0; l1; l2]))
    as (k & Hk & Hhead).
  { unfold insert_header_files. cbn [insert_header_loop u0 i_type].
    rewrite decide_False by apply not_elem_of_nil.
    unfold getitem. rewrite Hdir. cbn [mbind result_bind]. rewrite Hname.
    cbn [mbind result_bind].
    destruct (py_insert_shape (find_idx [l0; l1; l2] "PHEADER")
                (include_line "T") [l0; l1; l2]) as (k & Hk & ->).
    by exists k. }
  assert (forall pre post,
            Forall (fun l => contains "endmodule" l = false) pre ->
            insert_instance "top" port_list top_list u0 (pre ++ l2 :: post) =
            Ok (pre ++ instance_block "T" "u0" ++ l2 :: post)) as Hinst.
  { intros pre post Hpre.
    by apply (insert_instance_one_port "top" "T" port_list top_list u0 ports). }
  assert (readlines
            (universal_newlines
               ("module top(" +:+ nl +:+ ");" +:+ nl +:+ "endmodule" +:+ nl))
          = [l0; l1; l2]) as Hlines by (vm_compute; reflexivity).
  unfold create_systemv. rewrite Hfs, Htext, Hlines, Hhead.
  cbn [mbind result_bind]. rewrite Hget.
  cbn [mbind result_bind insert_instances insert_internal_wires].
  destruct k as [|[|[|[|k]]]]; [| | | |lia]; cbn [take drop app].
  - splice_case Hinst [inc; l0; l1] (@nil string).
  - splice_case Hinst [l0; inc; l1] (@nil string).
  - splice_case Hinst [l0; l1; inc] (@nil string).
  - splice_case Hinst [l0; l1] [inc].
Qed.

End createSystem_facts.

(** C8 at a file system without the template. *)
Lemma create_systemv_no_template_witness :
  let fs : gmap string file :=
    {[ "/core/hardware/src/other.vt" :=
         {| f_content := Text "endmodule"; f_mode := 420 |} ]} in
  @create_systemv demo_helpers 420 "/core" demo_dirs "top" demo_peripherals
    "/build/top.v" None fs = Ok fs.
Proof.
  intros fs.
  apply (@create_systemv_no_template demo_helpers 420 "/core" demo_dirs "top"
           demo_peripherals "/build/top.v" None fs).
  vm_compute. reflexivity.
Defined.

(** C7 (amended) at two UARTs and a timer. *)
Lemma insert_header_files_spec_witness :
  let pre := [ "// system" +:+ nl ] in
  let marker := "   //PHEADER" +:+ nl in
  let post := [ "module top(" +:+ nl ] in
  let types := first_seen (map i_type demo_peripherals) in
  @insert_header_files demo_helpers (pre ++ marker :: post) demo_peripherals
    demo_dirs =
    Ok (pre ++ marker ::
        rev (map (fun t => include_line (demo_top_of t)) types) ++ post) /\
  NoDup types /\
  (forall t, t ∈ types <-> t ∈ map i_type demo_peripherals).
Proof.
  intros pre marker post.
  apply (@insert_header_files_spec demo_helpers demo_top_of demo_dirs pre post
           marker demo_peripherals).
  - repeat constructor.
  - vm_compute. reflexivity.
  - apply Forall_forall. repeat constructor; eexists; split; vm_compute; reflexivity.
Defined.

(** C7 as stated fails with two types in use: the include of the type
    seen second stands directly after the marker, before the include of
    the type seen first. *)
Lemma insert_header_files_order_counterexample :
  let marker := "   //PHEADER" +:+ nl in
  let post := [ "module top(" +:+ nl ] in
  @insert_header_files demo_helpers (marker :: post) demo_peripherals demo_dirs =
    Ok [ marker; include_line "iob_timer"; include_line "iob_uart";
         "module top(" +:+ nl ] /\
  first_seen (map i_type demo_peripherals) = [ "UART"; "TIMER" ] /\
  @insert_header_files demo_helpers (marker :: post) demo_peripherals demo_dirs <>
    Ok (marker ::
        map (fun t => include_line (demo_top_of t))
          (first_seen (map i_type demo_peripherals)) ++ post).
Proof.
  intros marker post.
  assert (@insert_header_files demo_helpers (marker :: post) demo_peripherals
            demo_dirs =
          Ok [ marker; include_line "iob_timer"; include_line "iob_uart";
               "module top(" +:+ nl ]) as Hrun by (vm_compute; reflexivity).
  split_and!; [exact Hrun|vm_compute; reflexivity|].
  rewrite Hrun. vm_compute. intros Heq. discriminate Heq.
Qed.

(** C6 on the helpers [demo_helpers]. *)
Lemma create_systemv_splice_witness :
  let u0 := {| i_type := "T"; i_name := "u0"; i_params := [] |} in
  let fs : gmap string file :=
    {[ "/core/hardware/src/top.vt" :=
         {| f_content :=
              Text ("module top(" +:+ nl +:+ ");" +:+ nl +:+ "endmodule" +:+ nl);
            f_mode := 420 |} ]} in
  exists out mode,
    @create_systemv demo_helpers 420 "/core" {[ "T" := "T" ]} "top" [u0]
      "/build/top.v" None fs =
      Ok (<["/build/top.v" := {| f_content := Text (writelines out);
                                 f_mode := mode |}]> fs) /\
    filter (fun l => l <> include_line "T") out =
      [ "module top(" +:+ nl; ");" +:+ nl;
        nl; "   // u0" +:+ nl; nl; "   T" +:+ nl; "   u0 (" +:+ nl;
        "      .data(w)" +:+ nl; "      );" +:+ nl;
        "endmodule" +:+ nl ] /\
    exists before after,
      out = before ++ instance_block "T" "u0" ++ ("endmodule" +:+ nl) :: after /\
      (");" +:+ nl) ∈ before.
Proof.
  intros u0 fs.
  apply (@create_systemv_splice demo_helpers 420 "/core" "/build/top.v" "T"
           {[ "T" := "T" ]} fs
           {| f_content :=
                Text ("module top(" +:+ nl +:+ ");" +:+ nl +:+ "endmodule" +:+ nl);
              f_mode := 420 |}
           [ {| sig_name := "data" |} ]
           {[ "T" := [ {| sig_name := "data" |} ] ]}
           {[ "T" := [] ]}
           {[ "T" := "T" ]});
    vm_compute; reflexivity.
Defined.

(** ** The setup engine *)

Section iob_module_facts.
Context `{project}.
Implicit Types (st : state) (cs : cls_state) (c : string) (p q : scalar)
  (e : entry) (o : gmap string scalar).

Lemma bind_Return {A B : Type} (m : M A) (k : A -> M B) st a st' :
  m st = Return a st' -> (m ≫= k) st = k a st'.
Proof. intros Hm. unfold mbind, M_bind. by rewrite Hm. Qed.

Lemma bind_Throw {A B : Type} (m : M A) (k : A -> M B) st (err : exn) st' :
  m st = Throw err st' -> (m ≫= k) st = Throw err st'.
Proof. intros Hm. unfold mbind, M_bind. by rewrite Hm. Qed.

Lemma bind_mret {A B : Type} (a : A) (k : A -> M B) st :
  (mret a ≫= k) st = k a st.
Proof. reflexivity. Qed.

Lemma bind_lift_ok {A B : Type} (a : A) (k : A -> M B) st :
  (lift (Ok a) ≫= k) st = k a st.
Proof. reflexivity. Qed.

Lemma bind_lift_raise {A B : Type} (err : exn) (k : A -> M B) st :
  (lift (Raise err) ≫= k) st = Throw err st.
Proof. reflexivity. Qed.

Lemma bind_bind {A B C : Type} (m : M A) (k : A -> M B) (k' : B -> M C) st :
  ((m ≫= k) ≫= k') st = (m ≫= fun a => k a ≫= k') st.
Proof. unfold mbind, M_bind. by destruct (m st). Qed.

Lemma get_cls_Some c st cs :
  classes st !! c = Some cs -> get_cls c st = Return cs st.
Proof. intros Hc. unfold get_cls. by rewrite Hc. Qed.

Lemma set_option_run c i k v st :
  set_option c i k v st = Return tt (with_entry c i (entry_set_option k v) st).
Proof. reflexivity. Qed.

Lemma with_entry_lookup c i f st cs :
  classes st !! c = Some cs ->
  classes (with_entry c i f st) !! c =
  Some (set_submodule_list (alter f i (submodule_list cs)) cs).
Proof. intros Hc. cbn. by rewrite lookup_alter_eq, Hc. Qed.

Lemma get_setup_purpose_run c st cs l p :
  classes st !! c = Some cs -> _setup_purpose cs = Some l -> last l = Some p ->
  get_setup_purpose c st = Return p st.
Proof.
  intros Hc Hl Hp. unfold get_setup_purpose.
  rewrite (bind_Return _ _ _ _ _ (get_cls_Some _ _ _ Hc)). by rewrite Hl, Hp.
Qed.

Lemma entry_set_option_twice k v w e :
  entry_set_option k w (entry_set_option k v e) = entry_set_option k w e.
Proof. destruct e as [s|s o]; [done|]. cbn. by rewrite insert_insert_eq. Qed.

Lemma with_entry_twice c i f g st :
  with_entry c i g (with_entry c i f st) = with_entry c i (g ∘ f) st.
Proof.
  unfold with_entry. cbn. f_equal. rewrite alter_alter_eq.
  apply alter_ext. intros cs _. cbn. unfold set_submodule_list. cbn.
  f_equal. apply list_alter_alter_eq.
Qed.

Lemma with_entry_ext c i f g st :
  (forall e, f e = g e) -> with_entry c i f st = with_entry c i g st.
Proof.
  intros Hfg. unfold with_entry. f_equal. apply alter_ext. intros cs _.
  f_equal. apply list_alter_ext; [|done..]. intros e _. apply Hfg.
Qed.

Lemma setup_kwargs_purpose o p :
  dom o ⊆ ({[ "purpose"; "is_top_module" ]} : gset string) ->
  o !! "purpose" = Some p ->
  setup_kwargs o = Ok (p, from_option truthy false (o !! "is_top_module")).
Proof.
  intros Hdom Hp. unfold setup_kwargs. rewrite decide_True by done.
  by rewrite Hp.
Qed.

Lemma dispatch_class (rec : string -> scalar -> bool -> M unit) c i sub o p st :
  dom o ⊆ ({[ "purpose"; "is_top_module" ]} : gset string) ->
  o !! "purpose" = Some p ->
  dispatch rec c i (SClass sub) o st =
  rec sub p (from_option truthy false (o !! "is_top_module")) st.
Proof.
  intros Hdom Hp. unfold dispatch. by rewrite (setup_kwargs_purpose o p).
Qed.

(** An entry that asks for [hardware], by default or in so many words. *)
Lemma process_entry_default (rec : string -> scalar -> bool -> M unit)
  c i st cs e l p :
  classes st !! c = Some cs ->
  submodule_list cs !! i = Some e ->
  requested_purpose e = hardware ->
  _setup_purpose cs = Some l -> last l = Some p ->
  process_entry rec c i st =
  dispatch rec c i (entry_submodule e) (<["purpose" := p]> (entry_options e))
    (with_entry c i (entry_set_option "purpose" p) st).
Proof.
  intros Hc He Hreq Hl Hp. unfold process_entry.
  rewrite (bind_Return _ _ _ _ _ (get_cls_Some _ _ _ Hc)), He.
  assert (bool_decide (hardware <> hardware) = false) as Hhw
    by (apply bool_decide_eq_false; tauto).
  unfold requested_purpose in Hreq.
  destruct (entry_options e !! "purpose") as [q|] eqn:Hq; cbn in Hreq.
  - subst q. rewrite bind_mret. unfold getitem. rewrite Hq, bind_lift_ok.
    rewrite Hhw, andb_false_r, decide_True by done.
    rewrite !bind_bind.
    rewrite (bind_Return _ _ _ _ _ (get_setup_purpose_run c st cs l p Hc Hl Hp)).
    rewrite !bind_bind, (bind_Return _ _ _ _ _ (set_option_run _ _ _ _ _)).
    by rewrite bind_mret.
  - rewrite !bind_bind, (bind_Return _ _ _ _ _ (set_option_run _ _ _ _ _)).
    rewrite bind_mret. unfold getitem. rewrite lookup_insert_eq, bind_lift_ok.
    rewrite Hhw, andb_false_r, decide_True by done.
    rewrite !bind_bind.
    pose proof (with_entry_lookup c i (entry_set_option "purpose" hardware) st cs Hc)
      as Hc'.
    rewrite (bind_Return _ _ _ _ _ (get_setup_purpose_run c _ _ l p Hc' Hl Hp)).
    rewrite !bind_bind, (bind_Return _ _ _ _ _ (set_option_run _ _ _ _ _)).
    rewrite bind_mret, with_entry_twice, insert_insert_eq.
    f_equal. apply with_entry_ext. intros e'. apply entry_set_option_twice.
Qed.

Lemma get_cls_None c st :
  classes st !! c = None -> get_cls c st = Throw (NameError c) st.
Proof. intros Hc. unfold get_cls. by rewrite Hc. Qed.

Lemma get_setup_purpose_throws c st cs :
  classes st !! c = Some cs -> last (hist_of cs) = None ->
  exists err, get_setup_purpose c st = Throw err st.
Proof.
  intros Hc Hl. unfold get_setup_purpose.
  rewrite (bind_Return _ _ _ _ _ (get_cls_Some _ _ _ Hc)).
  unfold hist_of in Hl. destruct (_setup_purpose cs) as [l|]; [|by eexists].
  cbn in Hl. rewrite Hl. by eexists.
Qed.

(** An entry that asks for [hardware] in a class that has no latest
    purpose: the loop body raises, after the default has been written. *)
Lemma process_entry_unset (rec : string -> scalar -> bool -> M unit)
  c i st cs e :
  classes st !! c = Some cs ->
  submodule_list cs !! i = Some e ->
  requested_purpose e = hardware ->
  last (hist_of cs) = None ->
  exists err,
    process_entry rec c i st =
    Throw err
      (match entry_options e !! "purpose" with
       | Some _ => st
       | None => with_entry c i (entry_set_option "purpose" hardware) st
       end).
Proof.
  intros Hc He Hreq Hlast. unfold process_entry.
  rewrite (bind_Return _ _ _ _ _ (get_cls_Some _ _ _ Hc)), He.
  assert (bool_decide (hardware <> hardware) = false) as Hhw
    by (apply bool_decide_eq_false; tauto).
  unfold requested_purpose in Hreq.
  destruct (entry_options e !! "purpose") as [q|] eqn:Hq; cbn in Hreq.
  - subst q. rewrite bind_mret. unfold getitem. rewrite Hq, bind_lift_ok.
    rewrite Hhw, andb_false_r, decide_True by done.
    rewrite !bind_bind.
    destruct (get_setup_purpose_throws c st cs Hc Hlast) as [err Herr].
    exists err. by rewrite (bind_Throw _ _ _ _ _ Herr).
  - rewrite !bind_bind, (bind_Return _ _ _ _ _ (set_option_run _ _ _ _ _)).
    rewrite bind_mret. unfold getitem. rewrite lookup_insert_eq, bind_lift_ok.
    rewrite Hhw, andb_false_r, decide_True by done.
    rewrite !bind_bind.
    pose proof (with_entry_lookup c i (entry_set_option "purpose" hardware) st cs Hc)
      as Hc'.
    destruct (get_setup_purpose_throws c _ _ Hc' Hlast) as [err Herr].
    exists err. by rewrite (bind_Throw _ _ _ _ _ Herr).
Qed.

(** An entry whose options pin a purpose other than [hardware]. *)
Lemma process_entry_pinned (rec : string -> scalar -> bool -> M unit)
  c i st cs e q :
  classes st !! c = Some cs ->
  submodule_list cs !! i = Some e ->
  entry_options e !! "purpose" = Some q -> q <> hardware ->
  process_entry rec c i st =
  if is_top_module cs
  then dispatch rec c i (entry_submodule e) (entry_options e) st
  else Return tt st.
Proof.
  intros Hc He Hq Hne. unfold process_entry.
  rewrite (bind_Return _ _ _ _ _ (get_cls_Some _ _ _ Hc)), He, Hq.
  rewrite bind_mret. unfold getitem. rewrite Hq, bind_lift_ok.
  rewrite (bool_decide_eq_true_2 _ Hne), andb_true_r.
  destruct (is_top_module cs); cbn [negb]; [|done].
  rewrite decide_False by done. by rewrite bind_mret.
Qed.

(** The loop of [_setup_submodules] is the loop body at the positions
    [i], [i + 1], ... of the list, one after the other. *)
Lemma setup_submodules_from_seq (rec : string -> scalar -> bool -> M unit)
  c todo :
  forall i,
    setup_submodules_from rec c i todo =
    foldr (fun j k => process_entry rec c j ≫= fun _ => k) (mret tt) (seq i todo).
Proof.
  induction todo as [|todo IH]; intros i; [done|].
  cbn [setup_submodules_from seq foldr]. by rewrite IH.
Qed.

(** C2: [_setup_submodules] on the submodule list of [c] runs its loop
    body on every position of the list, from the first to the last, and
    stops at the first that raises.  The loop body on the entry at
    position [i], a subclass [sub] of [iob_module] with well-formed
    options: when the purpose it asks for is [hardware] (the default),
    [sub] is set up with the latest setup purpose [p] of [c], and the
    options of the entry now hold [p]; when it asks for another purpose,
    [sub] is set up with that purpose if [c] is the top module and the
    entry is passed over, with the store untouched, if it is not. *)
Theorem setup_submodules_purpose (rec : string -> scalar -> bool -> M unit)
  c i st cs e sub :
  classes st !! c = Some cs ->
  submodule_list cs !! i = Some e ->
  entry_submodule e = SClass sub ->
  dom (entry_options e) ⊆ ({[ "purpose"; "is_top_module" ]} : gset string) ->
  let top := from_option truthy false (entry_options e !! "is_top_module") in
  (_setup_submodules rec c st =
     foldr (fun j k => process_entry rec c j ≫= fun _ => k) (mret tt)
       (seq 0 (length (submodule_list cs))) st /\
   i ∈ seq 0 (length (submodule_list cs))) /\
  (forall l p,
     requested_purpose e = hardware ->
     _setup_purpose cs = Some l -> last l = Some p ->
     process_entry rec c i st =
     rec sub p top (with_entry c i (entry_set_option "purpose" p) st)) /\
  (requested_purpose e <> hardware -> is_top_module cs = true ->
   process_entry rec c i st = rec sub (requested_purpose e) top st) /\
  (requested_purpose e <> hardware -> is_top_module cs = false ->
   process_entry rec c i st = Return tt st).
Proof.
  intros Hc He Hsub Hdom top. split_and!.
  - unfold _setup_submodules.
    rewrite (bind_Return _ _ _ _ _ (get_cls_Some _ _ _ Hc)).
    by rewrite setup_submodules_from_seq.
  - apply list_elem_of_In, in_seq. apply lookup_lt_Some in He. lia.
  - intros l p Hreq Hl Hp.
    rewrite (process_entry_default rec c i st cs e l p Hc He Hreq Hl Hp), Hsub.
    rewrite (dispatch_class rec c i sub _ p).
    + unfold top. by rewrite lookup_insert_ne.
    + rewrite dom_insert. set_solver.
    + apply lookup_insert_eq.
  - intros Hreq Htop. unfold requested_purpose in *.
    destruct (entry_options e !! "purpose") as [q|] eqn:Hq; cbn in *; [|done].
    rewrite (process_entry_pinned rec c i st cs e q Hc He Hq Hreq), Htop, Hsub.
    by rewrite (dispatch_class rec c i sub _ q).
  - intros Hreq Htop. unfold requested_purpose in *.
    destruct (entry_options e !! "purpose") as [q|] eqn:Hq; cbn in *; [|done].
    by rewrite (process_entry_pinned rec c i st cs e q Hc He Hq Hreq), Htop.
Qed.

(** The loop of [_setup_submodules] takes the entries in list order. *)
Lemma setup_submodules_from_S (rec : string -> scalar -> bool -> M unit)
  c i todo st :
  setup_submodules_from rec c i (S todo) st =
  (process_entry rec c i ≫= fun _ => setup_submodules_from rec c (S i) todo) st.
Proof. reflexivity. Qed.

(** The guard of [__setup]. *)
Lemma setup_guard fuel c p top st cs l :
  classes st !! c = Some cs ->
  _setup_purpose cs = Some l ->
  p ∈ l \/ hardware ∈ l ->
  setup (S fuel) c p top st = Return tt st.
Proof.
  intros Hc Hl Hin. cbn [setup].
  rewrite (bind_Return _ _ _ _ _ (get_cls_Some _ _ _ Hc)).
  rewrite Hl, bool_decide_eq_false_2 by done. unfold when.
  rewrite bind_mret, (bind_Return _ _ _ _ _ (get_cls_Some _ _ _ Hc)), Hl.
  cbn [default]. by rewrite bool_decide_eq_true_2.
Qed.

End iob_module_facts.

(** ** The relations on stores *)

Section store_relations.
Context `{project}.
Implicit Types (st : state) (cs : cls_state) (c : string) (p q : scalar)
  (h : list scalar) (U : list scalar) (m : gmap string cls_state).

Lemma extends_refl h : extends h h.
Proof.
  exists []. rewrite app_nil_r. split_and!; [done|constructor|..].
  - intros x Hx. by apply elem_of_nil in Hx.
  - done.
  - intros a b Hab. by destruct a.
Qed.

Lemma extends_elem h h' x : extends h h' -> x ∈ h -> x ∈ h'.
Proof. intros (ext & -> & _) Hx. apply elem_of_app. by left. Qed.

Lemma extends_nonempty h h' : extends h h' -> h <> [] -> h' <> [].
Proof. intros (ext & -> & _) Hne. by destruct h. Qed.

Lemma extends_trans h1 h2 h3 : extends h1 h2 -> extends h2 h3 -> extends h1 h3.
Proof.
  intros (e1 & -> & Hnd1 & Hfr1 & Hhw1 & Hl1) (e2 & -> & Hnd2 & Hfr2 & Hhw2 & Hl2).
  exists (e1 ++ e2). rewrite app_assoc. split_and!; [done|..].
  - apply NoDup_app. split_and!; [done| |done].
    intros x Hx1 Hx2. apply (Hfr2 x Hx2), elem_of_app. by right.
  - intros x Hx Hh. apply elem_of_app in Hx as [Hx|Hx].
    + by apply (Hfr1 x).
    + apply (Hfr2 x Hx), elem_of_app. by left.
  - intros Hh. rewrite (Hhw1 Hh) in *. rewrite app_nil_r in Hhw2.
    by rewrite (Hhw2 Hh).
  - intros a b Hab.
    destruct (decide (hardware ∈ e1)) as [Hin|Hnot].
    + rewrite Hhw2 in Hab by (apply elem_of_app; by right).
      rewrite app_nil_r in Hab. by apply (Hl1 a b).
    + destruct (decide (hardware ∈ a)) as [Ha|Ha].
      * apply list_elem_of_split in Ha as (a1 & a2 & ->).
        rewrite <- app_assoc in Hab. cbn in Hab.
        assert (NoDup (e1 ++ e2)) as Hnd.
        { apply NoDup_app. split_and!; [done| |done].
          intros x Hx1 Hx2. apply (Hfr2 x Hx2), elem_of_app. by right. }
        rewrite Hab in Hnd. apply NoDup_app in Hnd as (_ & _ & Hnd).
        apply NoDup_cons in Hnd as [Hnd _]. exfalso. apply Hnd.
        apply elem_of_app. right. by left.
      * assert (exists e2', e2 = e2' ++ hardware :: b) as (e2' & He2).
        { clear -Hab Hnot Ha. revert a Hab Ha.
          induction e1 as [|x e1 IH]; intros a Hab Ha; cbn in *.
          - by exists a.
          - destruct a as [|y a]; cbn in Hab.
            + injection Hab as -> _. exfalso. apply Hnot. by left.
            + injection Hab as -> Hab. apply (IH ltac:(set_solver) a Hab).
              intros Hin. apply Ha. by right. }
        by apply (Hl2 e2' b).
Qed.

Lemma extends_history_ok h h' : extends h h' -> history_ok h -> history_ok h'.
Proof.
  intros (ext & -> & Hnd & Hfr & Hhw & Hl) [Hnd0 Hl0]. split.
  - apply NoDup_app. split_and!; [done| |done].
    intros x Hx Hx'. by apply (Hfr x Hx').
  - intros a b Hab. destruct (decide (hardware ∈ h)) as [Hin|Hnot].
    + rewrite (Hhw Hin), app_nil_r in Hab. by apply (Hl0 a b).
    + assert (exists a', ext = a' ++ hardware :: b) as (a' & He).
      { clear -Hab Hnot. revert a Hab.
        induction h as [|x h IH]; intros a Hab; cbn in *.
        - by exists a.
        - destruct a as [|y a]; cbn in Hab.
          + injection Hab as -> _. exfalso. apply Hnot. by left.
          + injection Hab as -> Hab. apply (IH ltac:(set_solver) a Hab). }
      by apply (Hl a' b).
Qed.

Lemma same_kind_refl s : same_kind s s.
Proof. by destruct s. Qed.

Lemma same_kind_trans s1 s2 s3 :
  same_kind s1 s2 -> same_kind s2 s3 -> same_kind s1 s3.
Proof. destruct s1, s2, s3; cbn; congruence. Qed.

Lemma extends_hardware_last h h' :
  extends h h' -> last h = Some hardware -> h' = h.
Proof.
  intros (ext & -> & _ & _ & Hhw & _) Hl.
  rewrite Hhw, app_nil_r; [done|].
  apply last_Some in Hl as [l' ->]. apply elem_of_app. right. by left.
Qed.

Lemma entry_evolves_refl h h' e : entry_evolves h h' e e.
Proof. destruct e; cbn; auto 6 using same_kind_refl. Qed.

Lemma entry_evolves_trans h1 h2 h3 e1 e2 e3 :
  extends h1 h2 -> extends h2 h3 ->
  entry_evolves h1 h2 e1 e2 -> entry_evolves h2 h3 e2 e3 ->
  entry_evolves h1 h3 e1 e3.
Proof.
  intros H12 H23.
  destruct e1 as [s1|s1 o1], e2 as [s2|s2 o2], e3 as [s3|s3 o3]; cbn;
    try tauto; eauto using same_kind_trans.
  intros (Hk1 & Hb1 & Hp1 & Hn1) (Hk2 & Hb2 & Hp2 & Hn2). split_and!.
  - by eapply same_kind_trans.
  - auto.
  - intros q Hq Hc. apply Hp2; [by apply Hp1|].
    destruct Hc as [Hc|Hc]; [by left|]. right.
    by rewrite (extends_hardware_last _ _ H12 Hc).
  - intros q Hq. destruct (Hn2 q Hq) as [Hq2|(hm & Ha & Hb & Hl)].
    + destruct (Hn1 q Hq2) as [Hq1|(hm & Ha & Hb & Hl)]; [by left|].
      right. exists hm. split_and!; [done| |done]. by eapply extends_trans.
    + right. exists hm. split_and!; [|done..]. by eapply extends_trans.
Qed.

Lemma entries_evolve_refl h h' (l : list entry) :
  Forall2 (entry_evolves h h') l l.
Proof. induction l; constructor; auto using entry_evolves_refl. Qed.

Lemma entries_evolve_trans h1 h2 h3 (l1 l2 l3 : list entry) :
  extends h1 h2 -> extends h2 h3 ->
  Forall2 (entry_evolves h1 h2) l1 l2 -> Forall2 (entry_evolves h2 h3) l2 l3 ->
  Forall2 (entry_evolves h1 h3) l1 l3.
Proof.
  intros Ha Hb H12. revert l3.
  induction H12 as [|e1 e2 l1 l2 He Hl IH]; intros l3 H23.
  - by inversion H23.
  - inversion H23 as [|? e3 ? l3' He' Hl']; subst. constructor.
    + by eapply entry_evolves_trans.
    + by apply IH.
Qed.

Lemma cls_evolves_refl cs : cls_evolves cs cs.
Proof. split; [apply extends_refl|intros _; apply entries_evolve_refl]. Qed.

Lemma cls_evolves_trans cs1 cs2 cs3 :
  cls_evolves cs1 cs2 -> cls_evolves cs2 cs3 -> cls_evolves cs1 cs3.
Proof.
  intros [He1 Hl1] [He2 Hl2]. split; [by eapply extends_trans|].
  intros Hne. eapply entries_evolve_trans; [done..|by apply Hl1|].
  apply Hl2. by eapply extends_nonempty.
Qed.

#[global] Instance evolves_preorder : PreOrder evolves.
Proof.
  split.
  - intros st. split; [|done]. intros c.
    destruct (classes st !! c); constructor. apply cls_evolves_refl.
  - intros st1 st2 st3 [H12 Ht12] [H23 Ht23]. split; [|by etrans].
    intros c. specialize (H12 c). specialize (H23 c).
    destruct H12 as [cs1 cs2 H12|]; inversion H23; subst; constructor.
    by eapply cls_evolves_trans.
Qed.

#[global] Instance frame_preorder c : PreOrder (frame c).
Proof.
  split.
  - intros st. split_and!; [done| |done].
    destruct (classes st !! c); by constructor.
  - intros st1 st2 st3 (Ho12 & Hc12 & Ht12) (Ho23 & Hc23 & Ht23).
    split_and!; [| |by etrans].
    + intros c' Hne. by rewrite Ho23, Ho12.
    + destruct Hc12; inversion Hc23; subst; constructor. congruence.
Qed.

(** The measure *)

Lemma filter_length_le {A : Type} (P Q : A -> Prop)
  `{!forall x, Decision (P x)} `{!forall x, Decision (Q x)} (l : list A) :
  (forall x, x ∈ l -> Q x -> P x) ->
  length (filter Q l) <= length (filter P l).
Proof.
  induction l as [|x l IH]; intros Himp; [done|].
  rewrite !filter_cons.
  assert (length (filter Q l) <= length (filter P l)) as Hle.
  { apply IH. intros y Hy. apply Himp. by right. }
  destruct (decide (Q x)) as [HQ|HQ].
  - rewrite decide_True by (apply Himp; [by left|done]). cbn. lia.
  - destruct (decide (P x)); cbn; lia.
Qed.

Lemma filter_length_lt {A : Type} (P Q : A -> Prop)
  `{!forall x, Decision (P x)} `{!forall x, Decision (Q x)} (l : list A) x :
  (forall y, y ∈ l -> Q y -> P y) ->
  x ∈ l -> P x -> ~ Q x ->
  length (filter Q l) < length (filter P l).
Proof.
  induction l as [|y l IH]; intros Himp Hx HP HQ; [by apply elem_of_nil in Hx|].
  rewrite !filter_cons.
  assert (forall z, z ∈ l -> Q z -> P z) as Himp'.
  { intros z Hz. apply Himp. by right. }
  apply elem_of_cons in Hx as [<-|Hx].
  - rewrite decide_False, decide_True by done. cbn.
    pose proof (filter_length_le P Q l Himp'). lia.
  - specialize (IH Himp' Hx HP HQ).
    destruct (decide (Q y)) as [HQy|HQy].
    + rewrite decide_True by (apply Himp; [by left|done]). cbn. lia.
    + destruct (decide (P y)); cbn; lia.
Qed.

Lemma measure_le U m m' :
  dom m' = dom m ->
  (forall c x, x ∈ hist m c -> x ∈ hist m' c) ->
  measure U m' <= measure U m.
Proof.
  intros Hdom Hgrow. unfold measure, pending. rewrite Hdom.
  apply filter_length_le. intros [c q] _ Hq Hin. apply Hq. by apply Hgrow.
Qed.

Lemma measure_lt U m m' c p :
  dom m' = dom m ->
  (forall c x, x ∈ hist m c -> x ∈ hist m' c) ->
  is_Some (m !! c) -> p ∈ U -> p ∉ hist m c -> p ∈ hist m' c ->
  measure U m' < measure U m.
Proof.
  intros Hdom Hgrow Hc HU Hnot Hin. unfold measure, pending. rewrite Hdom.
  apply (filter_length_lt _ _ _ (c, p)).
  - intros [c' q] _ Hq Hin'. apply Hq. by apply Hgrow.
  - apply list_elem_of_In, in_prod; apply list_elem_of_In; [|done].
    by apply elem_of_elements, elem_of_dom.
  - done.
  - cbn. tauto.
Qed.

Lemma same_keys_dom m m' :
  (forall c, is_Some (m !! c) <-> is_Some (m' !! c)) -> dom m' = dom m.
Proof.
  intros Hk. apply set_eq. intros c. rewrite !elem_of_dom. symmetry. apply Hk.
Qed.

Lemma evolves_keys st st' c :
  evolves st st' -> is_Some (classes st !! c) <-> is_Some (classes st' !! c).
Proof.
  intros [Hev _]. specialize (Hev c).
  destruct Hev; split; intros [? ?]; by eauto.
Qed.

Lemma evolves_hist st st' c x :
  evolves st st' -> x ∈ hist (classes st) c -> x ∈ hist (classes st') c.
Proof.
  intros [Hev _] Hx. specialize (Hev c). unfold hist in *.
  destruct Hev as [cs cs' [Hext _]|]; [|done]. by eapply extends_elem.
Qed.

Lemma frame_keys c st st' c' :
  frame c st st' -> is_Some (classes st !! c') <-> is_Some (classes st' !! c').
Proof.
  intros (Ho & Hc & _). destruct (decide (c' = c)) as [->|Hne].
  - destruct Hc; split; intros [? ?]; by eauto.
  - by rewrite Ho.
Qed.

Lemma frame_hist c st st' c' :
  frame c st st' -> hist (classes st') c' = hist (classes st) c'.
Proof.
  intros (Ho & Hc & _). unfold hist. destruct (decide (c' = c)) as [->|Hne].
  - destruct Hc as [cs cs' Heq|]; [|done]. by rewrite Heq.
  - by rewrite Ho.
Qed.

#[global] Instance evolves_good U : good U evolves.
Proof.
  split.
  - apply _.
  - intros st st' Hev. apply measure_le.
    + apply same_keys_dom. intros c. by apply evolves_keys.
    + intros c x. by apply evolves_hist.
  - intros st e. split; cbn; [|by apply prefix_app_r].
    intros c. destruct (classes st !! c); constructor. apply cls_evolves_refl.
  - intros st dir. split; cbn; [|done].
    intros c. destruct (classes st !! c); constructor. apply cls_evolves_refl.
Qed.

#[global] Instance frame_good U c : good U (frame c).
Proof.
  split.
  - apply _.
  - intros st st' Hfr. apply measure_le.
    + apply same_keys_dom. intros c'. by eapply frame_keys.
    + intros c' x. by rewrite (frame_hist c st st' c' Hfr).
  - intros st e. split_and!; cbn; [done| |by apply prefix_app_r].
    destruct (classes st !! c); by constructor.
  - intros st dir. split_and!; cbn; [done| |done].
    destruct (classes st !! c); by constructor.
Qed.

End store_relations.

(** ** Rules of the judgment [sound] *)

Section soundness.
Context `{project} (U : list scalar) (R : relation state) `{!good U R}
  (bound : option nat).
Implicit Types (st : state) (cs : cls_state) (c : string) (p q : scalar).

Lemma sound_ret {A : Type} (a : A) (Q : A -> Prop) :
  Q a -> sound bound R U (mret a) Q.
Proof. intros Ha st Hf Hb. cbn. done. Qed.

Lemma sound_ret_True {A : Type} (a : A) :
  sound bound R U (mret a) (fun _ => True).
Proof. by apply sound_ret. Qed.

Lemma sound_throw {A : Type} (err : exn) (Q : A -> Prop) :
  sound bound R U (throw err) Q.
Proof. intros st Hf Hb. cbn. done. Qed.

Lemma sound_bind {A B : Type} (m : M A) (k : A -> M B)
  (Q : A -> Prop) (Q' : B -> Prop) :
  sound bound R U m Q ->
  (forall a, Q a -> sound bound R U (k a) Q') ->
  sound bound R U (m ≫= k) Q'.
Proof.
  intros Hm Hk st Hf Hb. specialize (Hm st Hf Hb). unfold mbind, M_bind.
  destruct (m st) as [a st1|err st1|]; [|done..].
  destruct Hm as (Hf1 & HR1 & HQ).
  assert (forall k0, bound = Some k0 -> measure U (classes st1) < k0) as Hb1.
  { intros k0 Hk0. specialize (Hb k0 Hk0).
    pose proof (good_measure st st1 HR1). lia. }
  specialize (Hk a HQ st1 Hf1 Hb1).
  destruct (k a st1) as [b st2|err st2|]; [| |done].
  - destruct Hk as (Hf2 & HR2 & HQ'). split_and!; [done|by etrans|done].
  - destruct Hk as (Hf2 & HR2). split; [done|by etrans].
Qed.

Lemma sound_weaken {A : Type} (m : M A) (Q Q' : A -> Prop) :
  sound bound R U m Q -> (forall a, Q a -> Q' a) -> sound bound R U m Q'.
Proof.
  intros Hm HQ st Hf Hb. specialize (Hm st Hf Hb).
  destruct (m st); [|done..]. naive_solver.
Qed.

Lemma sound_lift {A : Type} (r : result A) :
  sound bound R U (lift r) (fun _ => True).
Proof. destruct r; [by apply sound_ret|apply sound_throw]. Qed.

Lemma sound_get_cls c : sound bound R U (get_cls c) (cls_fits U).
Proof.
  intros st Hf Hb. unfold get_cls. destruct (classes st !! c) as [cs|] eqn:Hc.
  - split_and!; [done..|]. by eapply Hf.
  - done.
Qed.

Lemma sound_get_descriptor c :
  project_fits U ->
  sound bound R U (get_descriptor c)
    (fun d => Forall (entry_fits U) (new_submodules d)).
Proof.
  intros [_ HU]. unfold get_descriptor.
  destruct (descriptors !! c) as [d|] eqn:Hd.
  - apply sound_ret. by eapply HU.
  - apply sound_throw.
Qed.

Lemma sound_emit (ev : event) : sound bound R U (emit ev) (fun _ => True).
Proof. intros st Hf Hb. cbn. split_and!; [done|apply good_emit|done]. Qed.

Lemma sound_get_shared :
  sound bound R U get_shared_build_dir (fun _ => True).
Proof. intros st Hf Hb. cbn. done. Qed.

Lemma sound_set_shared dir :
  sound bound R U (set_shared_build_dir dir) (fun _ => True).
Proof. intros st Hf Hb. cbn. split_and!; [done|apply good_shared|done]. Qed.

Lemma sound_when (b : bool) (m : M unit) :
  sound bound R U m (fun _ => True) -> sound bound R U (when b m) (fun _ => True).
Proof. intros Hm. destruct b; [done|by apply sound_ret]. Qed.

Lemma sound_seq {A B : Type} (m : M A) (m' : M B) (Q : A -> Prop)
  (Q' : B -> Prop) :
  sound bound R U m Q -> sound bound R U m' Q' ->
  sound bound R U (m ≫= fun _ => m') Q'.
Proof. intros Hm Hm'. eapply sound_bind; [done|]. by intros _ _. Qed.

Lemma fits_alter (f : cls_state -> cls_state) c (m : gmap string cls_state) :
  (forall cs, cls_fits U cs -> cls_fits U (f cs)) ->
  fits U m -> fits U (alter f c m).
Proof.
  intros Hfit Hf c' cs' Hc'. destruct (decide (c = c')) as [->|Hne].
  - rewrite lookup_alter_eq in Hc'.
    destruct (m !! c') as [cs|] eqn:Hm; [|done]. injection Hc' as <-.
    apply Hfit. by eapply Hf.
  - rewrite lookup_alter_ne in Hc' by done. by eapply Hf.
Qed.

Lemma sound_modify c (f : cls_state -> cls_state) :
  (forall cs, cls_fits U cs -> cls_fits U (f cs)) ->
  (forall st, R st {| classes := alter f c (classes st);
                      shared_build_dir := shared_build_dir st;
                      trace := trace st |}) ->
  sound bound R U (modify_cls c f) (fun _ => True).
Proof.
  intros Hfit HR st Hf Hb. cbn. split_and!; [|apply HR|done].
  by apply fits_alter.
Qed.

Lemma sound_get_setup_purpose c :
  sound bound R U (get_setup_purpose c) (fun p => p ∈ U).
Proof.
  unfold get_setup_purpose. eapply sound_bind; [apply sound_get_cls|].
  intros cs [Hh _]. unfold hist_of in Hh.
  destruct (_setup_purpose cs) as [l|]; [|apply sound_throw].
  destruct (last l) as [p|] eqn:Hp; [|apply sound_throw].
  apply sound_ret, Hh. cbn.
  apply last_Some in Hp as [l' ->]. apply elem_of_app. right. by left.
Qed.

Lemma sound_get_purpose_dir p :
  sound bound R U (get_purpose_dir p) (fun _ => True).
Proof.
  unfold get_purpose_dir. destruct p as [s|b]; [|apply sound_throw].
  destruct (PURPOSE_DIRS !! s); [by apply sound_ret|apply sound_throw].
Qed.

Lemma sound_generate c vs p :
  sound bound R U (generate c vs p) (fun _ => True).
Proof.
  unfold generate. eapply sound_bind; [apply sound_get_cls|]. intros cs _.
  eapply sound_bind; [apply sound_get_purpose_dir|]. intros dir _.
  by apply sound_ret.
Qed.

End soundness.

(** ** The methods of [iob_module] are sound *)

Section methods_sound.
Context `{project} (U : list scalar) (bound : option nat).
Hypothesis HU : project_fits U.
Implicit Types (st : state) (cs : cls_state) (c : string) (p q : scalar)
  (f : cls_state -> cls_state).

Lemma cls_fits_same cs cs' :
  _setup_purpose cs' = _setup_purpose cs ->
  submodule_list cs' = submodule_list cs ->
  cls_fits U cs -> cls_fits U cs'.
Proof. intros Hh Hl [Hf1 Hf2]. split; unfold hist_of; by rewrite ?Hh, ?Hl. Qed.

Lemma cls_evolves_same cs cs' :
  _setup_purpose cs' = _setup_purpose cs ->
  submodule_list cs' = submodule_list cs ->
  cls_evolves cs cs'.
Proof.
  intros Hh Hl. split; unfold hist_of; rewrite ?Hh, ?Hl.
  - apply extends_refl.
  - intros _. apply entries_evolve_refl.
Qed.

Lemma evolves_alter f c st :
  (forall cs, cls_evolves cs (f cs)) ->
  evolves st {| classes := alter f c (classes st);
                shared_build_dir := shared_build_dir st;
                trace := trace st |}.
Proof.
  intros Hf. split; cbn; [|done]. intros c'.
  destruct (decide (c = c')) as [->|Hne].
  - rewrite lookup_alter_eq. destruct (classes st !! c'); constructor. apply Hf.
  - rewrite lookup_alter_ne by done.
    destruct (classes st !! c'); constructor. apply cls_evolves_refl.
Qed.

Lemma frame_alter f c st :
  (forall cs, _setup_purpose (f cs) = _setup_purpose cs) ->
  frame c st {| classes := alter f c (classes st);
                shared_build_dir := shared_build_dir st;
                trace := trace st |}.
Proof.
  intros Hf. split_and!; cbn; [| |done].
  - intros c' Hne. by rewrite lookup_alter_ne.
  - rewrite lookup_alter_eq. destruct (classes st !! c); constructor. apply Hf.
Qed.

Lemma sound_modify_neutral c f :
  neutral f -> sound bound evolves U (modify_cls c f) (fun _ => True).
Proof.
  intros Hn. apply sound_modify.
  - intros cs. apply cls_fits_same; apply Hn.
  - intros st. apply evolves_alter. intros cs. apply cls_evolves_same; apply Hn.
Qed.

Lemma sound_modify_frame c f :
  (forall cs, cls_fits U cs -> cls_fits U (f cs)) ->
  (forall cs, _setup_purpose (f cs) = _setup_purpose cs) ->
  sound bound (frame c) U (modify_cls c f) (fun _ => True).
Proof.
  intros Hfit Hh. apply sound_modify; [done|].
  intros st. by apply frame_alter.
Qed.

(** Writing into the entry at position [i]. *)
Lemma fits_with_entry c i (g : entry -> entry) st :
  (forall e, entry_fits U e -> entry_fits U (g e)) ->
  fits U (classes st) -> fits U (classes (with_entry c i g st)).
Proof.
  intros Hfit Hf. cbn. apply fits_alter; [|done].
  intros cs [Hh Hl]. split; [done|]. cbn.
  apply Forall_forall. intros e He.
  apply list_elem_of_lookup in He as [j Hj].
  destruct (decide (i = j)) as [->|Hne].
  - rewrite list_lookup_alter_eq in Hj.
    destruct (submodule_list cs !! j) as [e0|] eqn:He0; [|done].
    injection Hj as <-. apply Hfit.
    apply (proj1 (Forall_forall _ _) Hl). by eapply list_elem_of_lookup_2.
  - rewrite list_lookup_alter_ne in Hj by done.
    apply (proj1 (Forall_forall _ _) Hl). by eapply list_elem_of_lookup_2.
Qed.

Lemma evolves_with_entry c i (g : entry -> entry) st :
  (forall cs e,
     classes st !! c = Some cs -> hist_of cs <> [] ->
     submodule_list cs !! i = Some e ->
     entry_evolves (hist_of cs) (hist_of cs) e (g e)) ->
  evolves st (with_entry c i g st).
Proof.
  intros Hg. split; cbn; [|done]. intros c'.
  destruct (decide (c = c')) as [->|Hne].
  - rewrite lookup_alter_eq.
    destruct (classes st !! c') as [cs|] eqn:Hc; constructor.
    split; [apply extends_refl|]. intros Hne. cbn.
    apply Forall2_alter_r; [apply entries_evolve_refl|].
    intros e e' He He' _. rewrite He in He'. injection He' as <-.
    by apply (Hg cs).
  - rewrite lookup_alter_ne by done.
    destruct (classes st !! c'); constructor. apply cls_evolves_refl.
Qed.

Lemma sound_modify_entry c i (g : entry -> entry) :
  (forall e, entry_fits U e -> entry_fits U (g e)) ->
  (forall h e, entry_evolves h h e (g e)) ->
  sound bound evolves U
    (modify_cls c (fun cs =>
       set_submodule_list (alter g i (submodule_list cs)) cs))
    (fun _ => True).
Proof.
  intros Hfit Hev st Hf Hb. cbn. split_and!; [| |done].
  - by apply (fits_with_entry c i g st).
  - apply (evolves_with_entry c i g st). intros cs e _ _ _. apply Hev.
Qed.

Lemma sound_set_vs_name c i vs :
  sound bound evolves U (set_vs_name c i vs) (fun _ => True).
Proof.
  apply sound_modify_entry.
  - intros [[]|[] o] He q; cbn in *; by auto.
  - intros h [[]|[] o]; cbn; auto 6.
Qed.

(** Writing the latest purpose [p] of the class into an entry that asks
    for [hardware]. *)
Lemma fits_set_purpose c i p st :
  p ∈ U -> fits U (classes st) ->
  fits U (classes (with_entry c i (entry_set_option "purpose" p) st)).
Proof.
  intros Hp. apply fits_with_entry. intros [s|s o] He q; cbn; [done|].
  rewrite lookup_insert_eq. by intros [= <-].
Qed.

Lemma evolves_set_purpose c i p st :
  (forall cs e,
     classes st !! c = Some cs -> hist_of cs <> [] ->
     submodule_list cs !! i = Some e ->
     requested_purpose e = hardware /\ last (hist_of cs) = Some p) ->
  evolves st (with_entry c i (entry_set_option "purpose" p) st).
Proof.
  intros Hw. apply evolves_with_entry. intros cs e Hc Hne He.
  destruct (Hw cs e Hc Hne He) as [Hreq Hlast].
  destruct e as [s|s o]; cbn; [apply same_kind_refl|].
  unfold requested_purpose in Hreq. cbn in Hreq. split_and!.
  - apply same_kind_refl.
  - intros _. rewrite lookup_insert_eq. by eexists.
  - intros q Hq Hcase. rewrite lookup_insert_eq. rewrite Hq in Hreq.
    cbn in Hreq. subst q. destruct Hcase as [?|Hcase]; [done|]. congruence.
  - intros q. rewrite lookup_insert_eq. intros [= <-]. right.
    exists (hist_of cs). split_and!; [apply extends_refl..|done].
Qed.

Lemma sound_lift_with {A : Type} (R : relation state) `{!good U R}
  (r : result A) (Q : A -> Prop) :
  (forall a, r = Ok a -> Q a) -> sound bound R U (lift r) Q.
Proof.
  intros HQ. destruct r; [apply sound_ret; [done|by apply HQ]|by apply sound_throw].
Qed.

Lemma ebind {A B : Type} (m : M A) (k : A -> M B)
  (Q : A -> Prop) (Q' : B -> Prop) :
  sound bound evolves U m Q ->
  (forall a, Q a -> sound bound evolves U (k a) Q') ->
  sound bound evolves U (m ≫= k) Q'.
Proof. apply sound_bind, _. Qed.

Lemma eseq {A B : Type} (m : M A) (m' : M B) (Q : A -> Prop)
  (Q' : B -> Prop) :
  sound bound evolves U m Q -> sound bound evolves U m' Q' ->
  sound bound evolves U (m ≫= fun _ => m') Q'.
Proof. apply sound_seq, _. Qed.

Lemma fbind c {A B : Type} (m : M A) (k : A -> M B)
  (Q : A -> Prop) (Q' : B -> Prop) :
  sound bound (frame c) U m Q ->
  (forall a, Q a -> sound bound (frame c) U (k a) Q') ->
  sound bound (frame c) U (m ≫= k) Q'.
Proof. apply sound_bind, _. Qed.

Lemma fseq c {A B : Type} (m : M A) (m' : M B) (Q : A -> Prop)
  (Q' : B -> Prop) :
  sound bound (frame c) U m Q -> sound bound (frame c) U m' Q' ->
  sound bound (frame c) U (m ≫= fun _ => m') Q'.
Proof. apply sound_seq, _. Qed.

(** The rule for a primitive step. *)
Ltac sprim :=
  first [ apply sound_get_cls | apply sound_get_descriptor | apply sound_emit
        | apply sound_lift | apply sound_get_setup_purpose
        | apply sound_get_purpose_dir | apply sound_generate
        | apply sound_get_shared | apply sound_set_shared
        | apply sound_throw | apply sound_ret_True | apply sound_ret ];
  try exact I; try done; try typeclasses eauto.

(** [init_attributes] and [__create_build_dir] touch neither the other
    classes nor the history. *)
Lemma sound_init_attributes c :
  sound bound (frame c) U (init_attributes c) (fun _ => True).
Proof.
  unfold init_attributes. eapply fbind; [apply sound_get_cls, _|]. intros cs _.
  destruct (_initialized_attributes cs); [by apply sound_ret_True, _|].
  eapply fbind; [by apply sound_get_descriptor; [apply _|]|]. intros d Hd.
  eapply fbind; [apply sound_get_shared, _|]. intros inherited _.
  eapply fseq; [apply sound_when; [apply _|apply sound_set_shared, _]|].
  eapply fbind; [apply sound_get_shared, _|]. intros shared _.
  eapply fseq.
  { apply sound_modify_frame; [|done]. intros cs' [Hh _]. split; [done|].
    cbn. constructor. }
  eapply fseq.
  { apply sound_modify_frame; [|done]. intros cs' [Hh Hl]. split; [done|].
    cbn. by apply Forall_app. }
  eapply fbind; [apply sound_get_cls, _|]. intros cs1 _.
  eapply fbind; [apply sound_lift, _|]. intros l1 _.
  eapply fseq; [by apply sound_modify_frame|].
  eapply fbind; [apply sound_get_cls, _|]. intros cs2 _.
  eapply fbind; [apply sound_lift, _|]. intros l2 _.
  eapply fseq; [by apply sound_modify_frame|].
  eapply fbind; [apply sound_get_cls, _|]. intros cs3 _.
  eapply fbind; [apply sound_lift, _|]. intros l3 _.
  by apply sound_modify_frame.
Qed.

Lemma sound_create_build_dir c :
  sound bound (frame c) U (create_build_dir c) (fun _ => True).
Proof.
  unfold create_build_dir. eapply fbind; [apply sound_get_cls, _|]. intros cs _.
  eapply fbind; [by apply sound_get_descriptor; [apply _|]|]. intros d Hd.
  destruct (negb (is_top_module cs)); [apply sound_throw, _|].
  repeat (eapply fseq;
          [first [apply sound_emit, _
                 |apply sound_when; [apply _|apply sound_emit, _]]|]).
  apply sound_emit, _.
Qed.

(** The methods that call [__setup] are sound when [__setup] is. *)
Variable rec : string -> scalar -> bool -> M unit.
Hypothesis Hrec : forall c p t,
  p ∈ U -> sound bound evolves U (rec c p t) (fun _ => True).

Lemma sound_dispatch c i s o :
  opts_fit U o -> sound bound evolves U (dispatch rec c i s o) (fun _ => True).
Proof.
  intros Ho. destruct s as [vs|sub|repr|repr]; cbn [dispatch].
  - eapply ebind; [sprim|]. intros purpose _.
    eapply ebind; [sprim|]. intros vs' _.
    apply sound_set_vs_name.
  - eapply ebind.
    + apply (sound_lift_with evolves _ (fun pt => pt.1 ∈ U)).
      intros [p t]. unfold setup_kwargs. case_decide; [|done].
      intros [= <- _]. cbn. destruct (o !! "purpose") as [q|] eqn:Hq; cbn.
      * by apply Ho.
      * apply HU.
    + intros [p t] Hp. by apply Hrec.
  - eapply ebind; [sprim|].
    intros d _. sprim.
  - sprim.
Qed.

Lemma sound_process_entry c i :
  sound bound evolves U (process_entry rec c i) (fun _ => True).
Proof.
  intros st Hf Hb.
  destruct (classes st !! c) as [cs|] eqn:Hc.
  2:{ unfold process_entry. by rewrite (bind_Throw _ _ _ _ _ (get_cls_None _ _ Hc)). }
  destruct (submodule_list cs !! i) as [e|] eqn:He.
  2:{ unfold process_entry.
      rewrite (bind_Return _ _ _ _ _ (get_cls_Some _ _ _ Hc)), He. by cbn. }
  destruct (Hf c cs Hc) as [Hh Hl].
  assert (opts_fit U (entry_options e)) as Hopt.
  { apply (proj1 (Forall_forall _ _) Hl). by eapply list_elem_of_lookup_2. }
  destruct (decide (requested_purpose e = hardware)) as [Hreq|Hreq].
  - destruct (last (hist_of cs)) as [p|] eqn:Hp.
    + assert (exists l, _setup_purpose cs = Some l /\ last l = Some p)
        as (l & Hl' & Hp').
      { unfold hist_of in Hp. destruct (_setup_purpose cs) as [l|]; [|done].
        by exists l. }
      rewrite (process_entry_default rec c i st cs e l p Hc He Hreq Hl' Hp').
      assert (p ∈ U) as HpU.
      { apply Hh. apply last_Some in Hp as [l0 ->]. apply elem_of_app.
        right. by left. }
      set (sw := with_entry c i (entry_set_option "purpose" p) st).
      assert (fits U (classes sw)) as Hfw by (by apply fits_set_purpose).
      assert (evolves st sw) as Hevw.
      { apply evolves_set_purpose. intros cs0 e0 Hc0 _ He0.
        rewrite Hc in Hc0. injection Hc0 as <-.
        rewrite He in He0. by injection He0 as <-. }
      assert (forall k, bound = Some k -> measure U (classes sw) < k) as Hbw.
      { intros k Hk. specialize (Hb k Hk).
        pose proof (good_measure (U:=U) st sw Hevw). lia. }
      assert (opts_fit U (<["purpose" := p]> (entry_options e))) as Ho.
      { intros q. rewrite lookup_insert_eq. by intros [= <-]. }
      pose proof (sound_dispatch c i (entry_submodule e) _ Ho sw Hfw Hbw) as Hd.
      destruct (dispatch rec c i (entry_submodule e) _ sw) as [[] s2|err s2|];
        [| |done].
      * destruct Hd as (Hf2 & Hev2 & _). split_and!; [done|by etrans|done].
      * destruct Hd as (Hf2 & Hev2). split; [done|by etrans].
    + destruct (process_entry_unset rec c i st cs e Hc He Hreq Hp) as [err ->].
      destruct (entry_options e !! "purpose"); [done|]. split.
      * apply fits_set_purpose; [apply HU|done].
      * apply evolves_with_entry. intros cs0 e0 Hc0 Hne0 _.
        rewrite Hc in Hc0. injection Hc0 as <-.
        by apply last_None in Hp.
  - assert (exists q, entry_options e !! "purpose" = Some q /\ q <> hardware)
      as (q & Hq & Hqne).
    { unfold requested_purpose in Hreq.
      destruct (entry_options e !! "purpose") as [q|]; [|done]. by exists q. }
    rewrite (process_entry_pinned rec c i st cs e q Hc He Hq Hqne).
    destruct (is_top_module cs); [|done].
    by apply (sound_dispatch c i (entry_submodule e) _ Hopt st).
Qed.

Lemma sound_setup_submodules_from c i todo :
  sound bound evolves U (setup_submodules_from rec c i todo) (fun _ => True).
Proof.
  revert i. induction todo as [|todo IH]; intros i; cbn [setup_submodules_from].
  - sprim.
  - eapply eseq; [apply sound_process_entry|apply IH].
Qed.

Lemma sound_setup_submodules c :
  sound bound evolves U (_setup_submodules rec c) (fun _ => True).
Proof.
  unfold _setup_submodules. eapply ebind; [sprim|].
  intros cs _. apply sound_setup_submodules_from.
Qed.

Lemma sound_specific_setup c :
  sound bound evolves U (_specific_setup rec c) (fun _ => True).
Proof.
  unfold _specific_setup. eapply eseq; [apply sound_setup_submodules|].
  eapply ebind; [sprim|]. intros cs _.
  eapply ebind; [sprim|]. intros d _.
  eapply ebind; [sprim|]. intros l _.
  by apply sound_modify_neutral.
Qed.

Lemma ewhen (b : bool) (m : M unit) :
  sound bound evolves U m (fun _ => True) ->
  sound bound evolves U (when b m) (fun _ => True).
Proof. apply sound_when, _. Qed.

(** Steps in sequence, case analyses and primitive steps. *)
Ltac sgo :=
  lazymatch goal with
  | |- sound _ _ _ (_ ≫= _) _ => eapply ebind; [sgo|intros ? ?; sgo]
  | |- sound _ _ _ (when _ _) _ => apply ewhen; sgo
  | |- sound _ _ _ (modify_cls _ _) _ =>
      apply sound_modify_neutral; intros ?; split; reflexivity
  | |- sound _ _ _ (rec _ _ _) _ => apply Hrec; try done
  | |- sound _ _ _ (match ?x with _ => _ end) _ => destruct x eqn:?; sgo
  | |- _ => sprim
  end.

Lemma sound_copy_dirs c d module_class dir_list :
  sound bound evolves U (copy_dirs c d module_class dir_list) (fun _ => True).
Proof.
  induction dir_list as [|directory rest IH]; cbn [copy_dirs]; [sgo|].
  eapply eseq; [sgo|apply IH].
Qed.

Lemma sound_copy_classes c d mro :
  forall previously_setup_dirs,
    sound bound evolves U (copy_classes c d mro previously_setup_dirs)
      (fun _ => True).
Proof.
  induction mro as [|module_class rest IH]; intros prev; cbn [copy_classes];
    [sgo|].
  case_decide; [apply IH|]. case_decide; [apply IH|].
  eapply ebind; [sprim|]. intros cs _.
  eapply eseq; [apply sound_copy_dirs|].
  eapply eseq; [|apply IH]. sgo.
Qed.

Lemma sound_copy_srcs c : sound bound evolves U (_copy_srcs c) (fun _ => True).
Proof.
  unfold _copy_srcs. eapply ebind; [sprim|]. intros d _.
  apply sound_copy_classes.
Qed.

Lemma sound_auto_add_settings c :
  sound bound evolves U (_auto_add_settings rec c) (fun _ => True).
Proof. unfold _auto_add_settings. sgo. Qed.

Lemma sound_build_regs_table c :
  sound bound evolves U (_build_regs_table c) (fun _ => True).
Proof. unfold _build_regs_table. sgo. Qed.

Lemma sound_generate_files c :
  sound bound evolves U (_generate_files c) (fun _ => True).
Proof.
  unfold _generate_files.
  eapply eseq; [apply sound_build_regs_table|].
  eapply eseq; [unfold _generate_hw; sgo|].
  eapply eseq; [unfold _generate_sw; sgo|].
  unfold _generate_doc; sgo.
Qed.

Lemma sound_post_setup c :
  sound bound evolves U (_post_setup rec c) (fun _ => True).
Proof.
  unfold _post_setup.
  eapply eseq; [sprim|].
  eapply eseq; [apply sound_copy_srcs|].
  eapply eseq; [apply sound_auto_add_settings|].
  eapply eseq; [apply sound_generate_files|].
  eapply eseq; [unfold _run_setup_files; sgo|].
  unfold _remove_duplicate_sources. sgo.
Qed.

End methods_sound.

(** ** [__setup] is sound *)

Section setup_sound.
Context `{project} (U : list scalar).
Hypothesis HU : project_fits U.
Implicit Types (st : state) (cs : cls_state) (c : string) (p q : scalar).

Lemma bind_OutOfFuel {A B : Type} (m : M A) (k : A -> M B) st :
  m st = OutOfFuel -> (m ≫= k) st = OutOfFuel.
Proof. intros Hm. unfold mbind, M_bind. by rewrite Hm. Qed.

(** Appending a purpose that the guard has let through. *)
Lemma extends_snoc (h : list scalar) p :
  ~ (p ∈ h \/ hardware ∈ h) -> extends h (h ++ [p]).
Proof.
  intros Hg. exists [p]. split_and!; [done|apply NoDup_singleton|..].
  - intros x Hx. apply list_elem_of_singleton in Hx as ->. tauto.
  - tauto.
  - intros [|x a] b Hab; cbn in Hab.
    + by injection Hab as _ <-.
    + injection Hab as _ Hab. by destruct a.
Qed.

(** One step of the run of a sequence, with the judgment for its head. *)
Ltac run_head s' :=
  lazymatch goal with
  | |- match (?m ≫= ?k) ?s with _ => _ end =>
      let E := fresh "E" in
      destruct (m s) as [[] s'|? s'|] eqn:E;
      [ rewrite (bind_Return _ _ _ _ _ E)
      | rewrite (bind_Throw _ _ _ _ _ E)
      | rewrite (bind_OutOfFuel _ _ _ E) ]
  end.

Lemma sound_setup fuel :
  forall bound, (forall k, bound = Some k -> k <= fuel) ->
  forall c p top, p ∈ U ->
    sound bound evolves U (setup fuel c p top) (fun _ => True).
Proof.
  induction fuel as [|fuel IH]; intros bound Hk c p top Hp st Hf Hb.
  { cbn. destruct bound as [k|]; [|done]. exfalso.
    specialize (Hk k eq_refl). specialize (Hb k eq_refl). lia. }
  cbn [setup].
  destruct (classes st !! c) as [cs|] eqn:Hc; last first.
  { unfold mbind at 1, M_bind at 1, get_cls. rewrite Hc. done. }
  rewrite (bind_Return _ _ _ _ _ (get_cls_Some _ _ _ Hc)).
  (* the state [s1] in which the guard is evaluated *)
  assert (exists s1 cs1,
            (when (bool_decide (_setup_purpose cs = None))
               (modify_cls c (set_setup_purpose (Some []))) : M unit) st
            = Return tt s1 /\
            classes s1 !! c = Some cs1 /\
            hist_of cs1 = hist_of cs /\
            submodule_list cs1 = submodule_list cs /\
            fits U (classes s1) /\ evolves st s1)
    as (s1 & cs1 & Hrun & Hc1 & Hh1 & Hl1 & Hf1 & Hev1).
  { destruct (_setup_purpose cs) as [l|] eqn:Hl.
    - exists st, cs. rewrite bool_decide_eq_false_2 by done.
      split_and!; [done..|reflexivity].
    - eexists _, (set_setup_purpose (Some []) cs).
      rewrite bool_decide_eq_true_2 by done. cbn [when].
      split; [reflexivity|]. cbn [classes]. rewrite lookup_alter_eq, Hc.
      split_and!; [done|by unfold hist_of; cbn; rewrite Hl|done|..].
      + apply fits_alter; [|done]. intros cs' [Hh' Hl']. split; [|done].
        intros q Hq. by apply elem_of_nil in Hq.
      + split; [|done]. cbn [classes]. intros c'.
        destruct (decide (c = c')) as [<-|Hne].
        * rewrite lookup_alter_eq, Hc. constructor.
          split; unfold hist_of; cbn; rewrite Hl; cbn.
          -- apply extends_refl.
          -- done.
        * rewrite lookup_alter_ne by done.
          destruct (classes st !! c'); constructor. apply cls_evolves_refl. }
  rewrite (bind_Return _ _ _ _ _ Hrun).
  rewrite (bind_Return _ _ _ _ _ (get_cls_Some _ _ _ Hc1)).
  change (default [] (_setup_purpose cs1)) with (hist_of cs1).
  assert (forall k, bound = Some k -> measure U (classes s1) < k) as Hb1.
  { intros k Hbk. specialize (Hb k Hbk).
    pose proof (good_measure (U:=U) (R:=evolves) st s1 Hev1). lia. }
  destruct (bool_decide (p ∈ hist_of cs1 \/ hardware ∈ hist_of cs1)) eqn:Hg.
  { cbn. done. }
  apply bool_decide_eq_false in Hg.
  (* attribute initialization and the build directory *)
  rewrite <- bind_bind.
  match goal with
  | |- match (?ab ≫= _) s1 with _ => _ end =>
      assert (match ab s1 with
              | Return _ s3 =>
                  fits U (classes s3) /\ frame c s1 s3 /\
                  (hist_of cs1 <> [] -> s3 = s1)
              | Throw _ s3 => fits U (classes s3) /\ evolves s1 s3
              | OutOfFuel => bound = None
              end) as Hinit
  end.
  { destruct (decide (hist_of cs1 = [])) as [Hnil|Hnn].
    - assert (forall s s', frame c s1 s -> frame c s s' -> evolves s1 s') as Hfe.
      { intros s s' Hf12 Hf23.
        assert (frame c s1 s') as (Ho & Hcc & Ht) by (by etrans).
        split; [|done]. intros c'. destruct (decide (c' = c)) as [->|Hne].
        - rewrite Hc1 in *. inversion Hcc as [? cs' Heq|]; subst. constructor.
          split.
          + unfold hist_of in *. rewrite Heq. apply extends_refl.
          + intros Hnn. by destruct Hnn.
        - rewrite Ho by done.
          destruct (classes s1 !! c'); constructor. apply cls_evolves_refl. }
      match goal with
      | |- match (?a ≫= fun _ => ?b) s1 with _ => _ end =>
          assert (sound bound (frame c) U a (fun _ => True)) as HA;
          [|assert (sound bound (frame c) U b (fun _ => True)) as HB]
      end.
      { apply sound_when; [apply _|]. eapply fseq.
        - by apply sound_modify_frame.
        - by apply sound_init_attributes. }
      { apply sound_when; [apply _|]. by apply sound_create_build_dir. }
      specialize (HA s1 Hf1 Hb1). run_head s.
      + destruct HA as (Hf2 & Hfr2 & _).
        assert (forall k, bound = Some k -> measure U (classes s) < k) as Hb2.
        { intros k Hbk. specialize (Hb1 k Hbk).
          pose proof (good_measure (U:=U) (R:=frame c) s1 s Hfr2). lia. }
        specialize (HB s Hf2 Hb2).
        match goal with
        | |- match ?b s with _ => _ end => destruct (b s) as [[] s3|e s3|]
        end.
        * destruct HB as (Hf3 & Hfr3 & _). split_and!; [done|by etrans|done].
        * destruct HB as (Hf3 & Hfr3). split; [done|by eapply Hfe].
        * done.
      + destruct HA as (Hf2 & Hfr2). split; [done|].
        by apply (Hfe s1 s).
      + done.
    - rewrite bool_decide_eq_false_2, andb_false_r by done. cbn.
      split_and!; [done|reflexivity|done]. }
  run_head s; [|destruct Hinit; split; [done|by etrans]|done].
  destruct Hinit as (Hf3 & (Ho3 & Hc3 & Ht3) & Hsame).
  rewrite Hc1 in Hc3. inversion Hc3 as [? cs3 Hh3 Heq1 Hcs3|]; subst.
  symmetry in Hcs3.
  (* the purpose is recorded *)
  match goal with
  | |- match (modify_cls c ?f ≫= _) s with _ => _ end =>
      set (s4 := {| classes := alter f c (classes s);
                    shared_build_dir := shared_build_dir s;
                    trace := trace s |});
      rewrite (bind_Return (modify_cls c f) _ s tt s4 eq_refl)
  end.
  assert (classes s4 !! c =
          Some (set_setup_purpose (Some (hist_of cs1 ++ [p])) cs3)) as Hc4.
  { unfold s4. cbn [classes]. rewrite lookup_alter_eq, Hcs3. cbn.
    unfold hist_of. by rewrite Hh3. }
  assert (fits U (classes s4)) as Hf4.
  { unfold s4. cbn [classes]. apply fits_alter; [|done].
    intros cs' [Hh' Hl']. split; [|done]. intros q. unfold hist_of. cbn.
    rewrite elem_of_app, list_elem_of_singleton. intros [Hq| ->]; [|done].
    by apply Hh'. }
  assert (evolves s1 s4) as Hev4.
  { split; [|done]. intros c'. destruct (decide (c' = c)) as [->|Hne].
    - rewrite Hc1, Hc4. constructor. split.
      + unfold hist_of at 2. cbn. by apply extends_snoc.
      + intros Hnn. cbn. rewrite (Hsame Hnn) in Hcs3.
        rewrite Hc1 in Hcs3. injection Hcs3 as ->. apply entries_evolve_refl.
    - unfold s4. cbn [classes]. rewrite lookup_alter_ne, Ho3 by done.
      destruct (classes s1 !! c'); constructor. apply cls_evolves_refl. }
  assert (measure U (classes s4) < measure U (classes s1)) as Hlt.
  { apply (measure_lt U _ _ c p).
    - apply same_keys_dom. intros c'. by apply evolves_keys.
    - intros c' x. by apply evolves_hist.
    - by rewrite Hc1.
    - done.
    - unfold hist. rewrite Hc1. tauto.
    - unfold hist. rewrite Hc4. unfold hist_of. cbn.
      apply elem_of_app. right. by left. }
  (* the submodules and the post-setup, with the calls they make *)
  assert (forall c' p' t', p' ∈ U ->
            sound (inner bound) evolves U (setup fuel c' p' t') (fun _ => True))
    as Hrec.
  { intros c' p' t' Hp'. apply IH; [|done]. intros k Hbk.
    destruct bound as [k0|]; [|done]. injection Hbk as <-.
    specialize (Hk k0 eq_refl). lia. }
  match goal with
  | |- match ?body s4 with _ => _ end =>
      assert (sound (inner bound) evolves U body (fun _ => True)) as Hbody
  end.
  { eapply eseq; [by apply sound_specific_setup|by apply sound_post_setup]. }
  specialize (Hbody s4 Hf4).
  match goal with
  | |- match ?body s4 with _ => _ end => destruct (body s4) as [[] s5|e s5|]
  end.
  - destruct Hbody as (Hf5 & Hev5 & _).
    { intros k Hbk. destruct bound as [k0|]; [|done]. injection Hbk as <-.
      specialize (Hb1 k0 eq_refl). lia. }
    split_and!; [done| |done]. by repeat (etrans; [eassumption|]).
  - destruct Hbody as (Hf5 & Hev5).
    { intros k Hbk. destruct bound as [k0|]; [|done]. injection Hbk as <-.
      specialize (Hb1 k0 eq_refl). lia. }
    split; [done|]. by repeat (etrans; [eassumption|]).
  - destruct bound as [k0|]; [|done]. exfalso.
    assert (inner (Some k0) = None) as Hin; [|done].
    apply Hbody. intros k Hbk. injection Hbk as <-.
    specialize (Hb1 k0 eq_refl). lia.
Qed.

End setup_sound.

(** ** Setup terminates, and what it leaves *)

Section setup_facts.
Context `{project}.
Implicit Types (st : state) (cs : cls_state) (c : string) (p q : scalar)
  (m : gmap string cls_state).

Lemma pinned_purposes_elem (l : list entry) e q :
  e ∈ l -> entry_options e !! "purpose" = Some q -> q ∈ pinned_purposes l.
Proof. intros He Hq. unfold pinned_purposes. apply list_elem_of_omap. eauto. Qed.

Lemma universe_hardware p m : hardware ∈ universe p m.
Proof. by left. Qed.

Lemma universe_purpose p m : p ∈ universe p m.
Proof. right. by left. Qed.

Lemma universe_project_fits p m : project_fits (universe p m).
Proof.
  split; [apply universe_hardware|]. intros c d Hd.
  apply Forall_forall. intros e He q Hq. unfold universe.
  do 2 right. apply elem_of_app. right.
  apply list_elem_of_In, in_flat_map. exists (c, d). split.
  - by apply list_elem_of_In, elem_of_map_to_list.
  - apply list_elem_of_In. by eapply pinned_purposes_elem.
Qed.

Lemma universe_fits p m : fits (universe p m) m.
Proof.
  intros c cs Hc.
  assert (forall q, q ∈ hist_of cs ++ pinned_purposes (submodule_list cs) ->
                    q ∈ universe p m) as Hin.
  { intros q Hq. unfold universe. do 2 right. apply elem_of_app. left.
    apply list_elem_of_In, in_flat_map. exists (c, cs). split.
    - by apply list_elem_of_In, elem_of_map_to_list.
    - by apply list_elem_of_In. }
  split.
  - intros q Hq. apply Hin, elem_of_app. by left.
  - apply Forall_forall. intros e He q Hq. apply Hin, elem_of_app. right.
    by eapply pinned_purposes_elem.
Qed.

Lemma evolves_histories_ok st st' :
  evolves st st' -> histories_ok st -> histories_ok st'.
Proof.
  intros [Hev _] Hok c. specialize (Hev c). specialize (Hok c).
  unfold hist in *. destruct Hev as [cs cs' [Hext _]|]; [|done].
  by eapply extends_history_ok.
Qed.

(** C9: for every project, whatever its submodule references, and every
    store, every call of [__setup] terminates once it has enough fuel; it
    returns or raises, in a store whose histories extend the earlier ones
    by purposes they did not hold, so that a class runs the body of
    [__setup] at most once for a purpose. *)
Theorem setup_terminates c p top st :
  exists fuel0, forall fuel, fuel0 <= fuel ->
    match setup fuel c p top st with
    | Return _ st' | Throw _ st' =>
        evolves st st' /\ (histories_ok st -> histories_ok st')
    | OutOfFuel => False
    end.
Proof.
  set (U := universe p (classes st)).
  exists (S (measure U (classes st))). intros fuel Hfuel.
  pose proof (sound_setup U (universe_project_fits _ _) fuel
                (Some (S (measure U (classes st))))) as Hs.
  specialize (Hs ltac:(intros k [= <-]; lia) c p top (universe_purpose _ _) st
                (universe_fits _ _) ltac:(intros k [= <-]; lia)).
  destruct (setup fuel c p top st) as [[] st'|e st'|]; [| |done].
  - destruct Hs as (_ & Hev & _). split; [done|by apply evolves_histories_ok].
  - destruct Hs as (_ & Hev). split; [done|by apply evolves_histories_ok].
Qed.

(** C1: a call of [__setup] for a purpose that the history of the class
    holds, or on a class whose history holds [hardware], returns at once
    in the store it was called in: no purpose is recorded, no attribute is
    initialized, nothing is added to the trace.  And a run of [__setup]
    keeps every history free of repetitions and of purposes after
    [hardware]: a class is set up at most once for a purpose, and not
    again once it is set up for [hardware]. *)
Theorem setup_idempotent fuel c p top st cs l :
  classes st !! c = Some cs ->
  _setup_purpose cs = Some l ->
  p ∈ l \/ hardware ∈ l ->
  setup (S fuel) c p top st = Return tt st /\
  (forall fuel' c' p' top' st0,
     histories_ok st0 ->
     match setup fuel' c' p' top' st0 with
     | Return _ st' | Throw _ st' => histories_ok st'
     | OutOfFuel => True
     end).
Proof.
  intros Hc Hl Hin. split; [by eapply setup_guard|].
  intros fuel' c' p' top' st0 Hok.
  pose proof (sound_setup (universe p' (classes st0))
                (universe_project_fits _ _) fuel' None ltac:(done) c' p' top'
                (universe_purpose _ _) st0 (universe_fits _ _) ltac:(done)) as Hs.
  destruct (setup fuel' c' p' top' st0) as [[] st'|e st'|]; [| |done].
  - destruct Hs as (_ & Hev & _). by eapply evolves_histories_ok.
  - destruct Hs as (_ & Hev). by eapply evolves_histories_ok.
Qed.

Lemma extends_back h h1 : extends h h1 -> extends h1 h -> h1 = h.
Proof.
  intros (e1 & -> & _) (e2 & He & _).
  rewrite <- app_assoc in He. rewrite <- (app_nil_r h) in He at 1.
  apply app_inv_head in He. symmetry in He.
  apply app_eq_nil in He as [-> _]. by rewrite app_nil_r.
Qed.

(** What a store keeps of the entries of a class that has been set up. *)
Lemma evolves_entry st st' c cs j e :
  evolves st st' ->
  classes st !! c = Some cs -> hist_of cs <> [] ->
  submodule_list cs !! j = Some e ->
  exists cs' e',
    classes st' !! c = Some cs' /\ hist_of cs' <> [] /\
    submodule_list cs' !! j = Some e' /\
    entry_evolves (hist_of cs) (hist_of cs') e e'.
Proof.
  intros [Hev _] Hc Hne He. specialize (Hev c). rewrite Hc in Hev.
  inversion Hev as [? cs' [Hext Hl] Heq1 Heq2|]; subst.
  destruct (Forall2_lookup_l _ _ _ _ _ (Hl Hne) He) as (e' & He' & Hee).
  exists cs', e'. split_and!; [done| |done..]. by eapply extends_nonempty.
Qed.

Lemma tuple_bound h h' s o e' :
  entry_evolves h h' (Tuple s o) e' -> is_Some (o !! "purpose") ->
  exists s' o' q, e' = Tuple s' o' /\ o' !! "purpose" = Some q.
Proof.
  destruct e' as [s'|s' o']; cbn; [done|]. intros (_ & Hb & _) Hs.
  destruct (Hb Hs) as [q Hq]. by exists s', o', q.
Qed.

Lemma tuple_kept h h' s o q e' :
  entry_evolves h h' (Tuple s o) e' ->
  o !! "purpose" = Some q -> q <> hardware ->
  exists s' o', e' = Tuple s' o' /\ o' !! "purpose" = Some q.
Proof.
  destruct e' as [s'|s' o']; cbn; [done|]. intros (_ & _ & Hp & _) Hq Hne.
  exists s', o'. split; [done|]. apply Hp; auto.
Qed.

Lemma tuple_resolved h h' s o s' o' q :
  entry_evolves h h' (Tuple s o) (Tuple s' o') ->
  o !! "purpose" = None -> o' !! "purpose" = Some q ->
  exists h1, extends h h1 /\ extends h1 h' /\ last h1 = Some q.
Proof.
  cbn. intros (_ & _ & _ & Hn) Ho Hq.
  destruct (Hn q Hq) as [Hq'|Hh]; [congruence|done].
Qed.

Section loop.
Variables (U : list scalar) (fuel : nat).
Hypothesis HU : project_fits U.

Lemma sound_setup_partial c p top :
  p ∈ U -> sound None evolves U (setup fuel c p top) (fun _ => True).
Proof. by apply sound_setup. Qed.

Lemma process_entry_binds c i st st' cs s o :
  fits U (classes st) ->
  classes st !! c = Some cs -> hist_of cs <> [] ->
  submodule_list cs !! i = Some (Tuple s o) ->
  process_entry (setup fuel) c i st = Return tt st' ->
  fits U (classes st') /\ evolves st st' /\
  exists cs' s' o' q,
    classes st' !! c = Some cs' /\
    submodule_list cs' !! i = Some (Tuple s' o') /\
    o' !! "purpose" = Some q.
Proof.
  intros Hf Hc Hne He Hrun.
  pose proof (sound_process_entry U None HU (setup fuel)
                sound_setup_partial c i st Hf ltac:(done)) as Hs.
  rewrite Hrun in Hs. destruct Hs as (Hf' & Hev & _).
  split_and!; [done..|].
  assert (exists sw csw ow,
            evolves sw st' /\ classes sw !! c = Some csw /\
            hist_of csw <> [] /\
            submodule_list csw !! i = Some (Tuple s ow) /\
            is_Some (ow !! "purpose")) as (sw & csw & ow & Hevw & Hcw & Hnw & Hew & Hbw).
  { destruct (decide (requested_purpose (Tuple s o) = hardware)) as [Hreq|Hreq].
    - unfold hist_of in Hne.
      destruct (_setup_purpose cs) as [l|] eqn:Hl; [|done]. cbn in Hne.
      destruct (last l) as [p|] eqn:Hp; [|by destruct l using rev_ind;
                                           [|rewrite last_snoc in Hp]].
      rewrite (process_entry_default _ c i st cs _ l p Hc He Hreq Hl Hp) in Hrun.
      set (sw := with_entry c i (entry_set_option "purpose" p) st) in *.
      assert (p ∈ U) as HpU.
      { destruct (Hf c cs Hc) as [Hh _]. apply Hh. unfold hist_of. rewrite Hl.
        cbn. apply last_Some in Hp as [l' ->]. apply elem_of_app. right. by left. }
      assert (fits U (classes sw)) as Hfw by (by apply fits_set_purpose).
      assert (opts_fit U (<["purpose" := p]> (entry_options (Tuple s o)))) as Ho.
      { intros q. rewrite lookup_insert_eq. by intros [= <-]. }
      pose proof (sound_dispatch U None HU (setup fuel) sound_setup_partial
                    c i (entry_submodule (Tuple s o)) _ Ho sw Hfw ltac:(done))
        as Hd.
      rewrite Hrun in Hd. destruct Hd as (_ & Hevd & _).
      exists sw, (set_submodule_list
                    (alter (entry_set_option "purpose" p) i (submodule_list cs)) cs),
             (<["purpose" := p]> o).
      split_and!; [done|by apply with_entry_lookup| | |].
      + unfold hist_of. cbn. by rewrite Hl.
      + cbn. by rewrite list_lookup_alter_eq, He.
      + rewrite lookup_insert_eq. by eexists.
    - exists st, cs, o. split_and!; [done..|].
      unfold requested_purpose in Hreq. cbn in Hreq.
      destruct (o !! "purpose"); [by eexists|done]. }
  destruct (evolves_entry sw st' c csw i _ Hevw Hcw Hnw Hew)
    as (cs' & e' & Hc' & _ & He' & Hee).
  destruct (tuple_bound _ _ _ _ _ Hee Hbw) as (s' & o' & q & -> & Hq).
  by exists cs', s', o', q.
Qed.

Lemma setup_submodules_from_binds c todo :
  forall i st st' cs,
    fits U (classes st) ->
    classes st !! c = Some cs -> hist_of cs <> [] ->
    i + todo = length (submodule_list cs) ->
    setup_submodules_from (setup fuel) c i todo st = Return tt st' ->
    evolves st st' /\
    forall j s o,
      i <= j -> submodule_list cs !! j = Some (Tuple s o) ->
      exists cs' s' o' q,
        classes st' !! c = Some cs' /\
        submodule_list cs' !! j = Some (Tuple s' o') /\
        o' !! "purpose" = Some q.
Proof.
  induction todo as [|todo IH]; intros i st st' cs Hf Hc Hne Hlen Hrun.
  - cbn in Hrun. injection Hrun as <-. split; [reflexivity|].
    intros j s o Hij Hj. apply lookup_lt_Some in Hj. lia.
  - rewrite setup_submodules_from_S in Hrun.
    destruct (process_entry (setup fuel) c i st) as [[] sa|e sa|] eqn:Hpe;
      [|by rewrite (bind_Throw _ _ _ _ _ Hpe) in Hrun
       |by rewrite (bind_OutOfFuel _ _ _ Hpe) in Hrun].
    rewrite (bind_Return _ _ _ _ _ Hpe) in Hrun.
    pose proof (sound_process_entry U None HU (setup fuel)
                  sound_setup_partial c i st Hf ltac:(done)) as Hs.
    rewrite Hpe in Hs. destruct Hs as (Hfa & Heva & _).
    destruct (Heva) as [Hcls _]. specialize (Hcls c). rewrite Hc in Hcls.
    inversion Hcls as [? csa [Hext Hl] Heq1 Heq2|]; subst. symmetry in Heq2.
    assert (hist_of csa <> []) as Hnea by (by eapply extends_nonempty).
    assert (length (submodule_list csa) = length (submodule_list cs)) as Hla.
    { symmetry. by eapply Forall2_length, Hl. }
    destruct (IH (S i) sa st' csa Hfa Heq2 Hnea ltac:(lia) Hrun) as [Hev' Hb'].
    split; [by etrans|]. intros j s o Hij Hj.
    destruct (decide (j = i)) as [->|Hji].
    + destruct (process_entry_binds c i st sa cs s o Hf Hc Hne Hj Hpe)
        as (_ & _ & csa' & s' & o' & q & Hca' & Hea' & Hq).
      rewrite Heq2 in Hca'. injection Hca' as <-.
      destruct (evolves_entry sa st' c csa i _ Hev' Heq2 Hnea Hea')
        as (cs' & e' & Hc' & _ & He' & Hee).
      destruct (tuple_bound _ _ _ _ _ Hee ltac:(by eexists))
        as (s'' & o'' & q' & -> & Hq').
      by exists cs', s'', o'', q'.
    + destruct (Forall2_lookup_l _ _ _ _ _ (Hl Hne) Hj) as (ea & Hea & Hee).
      destruct ea as [sa'|sa' oa]; [done|].
      apply (Hb' j sa' oa); [lia|done].
Qed.

End loop.

(** C10: [_setup_submodules] writes into the options of the entries of
    the list it is given.  For a class [c] that has been set up and whose
    loop returns in the store [st']: the options of every tuple entry
    that held no purpose hold a purpose [q] in [st']; [q] is the latest
    purpose that [c] had at a moment of the run, that is the last
    element of a history between the one before and the one after the
    loop, and so the latest purpose of [c] when the loop has not changed
    its history; and when [q] is not [hardware] the options hold [q]
    after every later call of [__setup], whether it returns or raises.
    The entry is handed on with the latest purpose [p] of [c] written
    into its options; and an entry whose options hold a purpose other
    than [hardware] is taken with that purpose whatever [c] is set up for
    later: it is set up with it when [c] is the top module and passed
    over when it is not. *)
Theorem setup_submodules_pins_purpose fuel c st cs st' :
  classes st !! c = Some cs ->
  hist_of cs <> [] ->
  _setup_submodules (setup fuel) c st = Return tt st' ->
  (forall i s o,
     submodule_list cs !! i = Some (Tuple s o) -> o !! "purpose" = None ->
     exists cs' s' o' q,
       classes st' !! c = Some cs' /\
       submodule_list cs' !! i = Some (Tuple s' o') /\
       o' !! "purpose" = Some q /\
       (exists h1,
          extends (hist_of cs) h1 /\ extends h1 (hist_of cs') /\
          last h1 = Some q) /\
       (hist_of cs' = hist_of cs -> last (hist_of cs) = Some q) /\
       (q <> hardware ->
        forall fuel2 c2 p2 top2 st2,
          (setup fuel2 c2 p2 top2 st' = Return tt st2 \/
           exists err, setup fuel2 c2 p2 top2 st' = Throw err st2) ->
          exists cs2 s2 o2,
            classes st2 !! c = Some cs2 /\
            submodule_list cs2 !! i = Some (Tuple s2 o2) /\
            o2 !! "purpose" = Some q)) /\
  (forall (rec : string -> scalar -> bool -> M unit) i s o l p,
     submodule_list cs !! i = Some (Tuple s o) -> o !! "purpose" = None ->
     _setup_purpose cs = Some l -> last l = Some p ->
     process_entry rec c i st =
       dispatch rec c i s (<["purpose" := p]> o)
         (with_entry c i (entry_set_option "purpose" p) st) /\
     exists csw,
       classes (with_entry c i (entry_set_option "purpose" p) st) !! c = Some csw /\
       submodule_list csw !! i = Some (Tuple s (<["purpose" := p]> o))) /\
  (forall (rec : string -> scalar -> bool -> M unit) st2 cs2 i s o q,
     classes st2 !! c = Some cs2 ->
     submodule_list cs2 !! i = Some (Tuple s o) ->
     o !! "purpose" = Some q -> q <> hardware ->
     process_entry rec c i st2 =
       if is_top_module cs2 then dispatch rec c i s o st2 else Return tt st2).
Proof.
  intros Hc Hne Hrun. split_and!.
  - intros i s o He Ho. unfold _setup_submodules in Hrun.
    rewrite (bind_Return _ _ _ _ _ (get_cls_Some _ _ _ Hc)) in Hrun.
    destruct (setup_submodules_from_binds (universe hardware (classes st)) fuel
                (universe_project_fits _ _) c _ 0 st st' cs (universe_fits _ _)
                Hc Hne eq_refl Hrun) as [Hev Hb].
    destruct (Hb i s o ltac:(lia) He) as (cs' & s' & o' & q & Hc' & He' & Hq).
    destruct (evolves_entry st st' c cs i _ Hev Hc Hne He)
      as (cs'' & e'' & Hc'' & Hne' & He'' & Hee).
    rewrite Hc' in Hc''. injection Hc'' as <-.
    rewrite He' in He''. injection He'' as <-.
    destruct (tuple_resolved _ _ _ _ _ _ _ Hee Ho Hq) as (h1 & Ha & Hb1 & Hl1).
    exists cs', s', o', q. split_and!; [done..| | |].
    + by exists h1.
    + intros Heq. rewrite Heq in Hb1.
      by rewrite <- (extends_back _ _ Ha Hb1).
    + intros Hqne fuel2 c2 p2 top2 st2 Hlater.
      assert (evolves st' st2) as Hev2.
      { pose proof (sound_setup (universe p2 (classes st'))
                      (universe_project_fits _ _) fuel2 None ltac:(done) c2 p2
                      top2 (universe_purpose _ _) st' (universe_fits _ _)
                      ltac:(done)) as Hs.
        destruct Hlater as [Hl2|[err Hl2]]; rewrite Hl2 in Hs.
        - by destruct Hs as (_ & ? & _).
        - by destruct Hs as (_ & ?). }
      destruct (evolves_entry st' st2 c cs' i _ Hev2 Hc' Hne' He')
        as (cs2 & e2 & Hc2 & _ & He2 & Hee2).
      destruct (tuple_kept _ _ _ _ _ _ Hee2 Hq Hqne) as (s2 & o2 & -> & Hq2).
      by exists cs2, s2, o2.
  - intros rec i s o l p He Ho Hl Hp. split.
    + apply (process_entry_default rec c i st cs (Tuple s o) l p Hc He); [|done..].
      unfold requested_purpose. cbn. by rewrite Ho.
    + eexists. split; [by apply with_entry_lookup|].
      cbn. by rewrite list_lookup_alter_eq, He.
  - intros rec st2 cs2 i s o q Hc2 He Hq Hqne.
    by apply (process_entry_pinned rec c i st2 cs2 (Tuple s o) q).
Qed.

Lemma check_version_reserved_raises name (pre post : list (gmap string atom)) reg :
  Forall (fun r => exists n, r !! "name" = Some n /\ n <> AStr "VERSION") pre ->
  reg !! "name" = Some (AStr "VERSION") ->
  check_version_reserved name (pre ++ reg :: post) =
  Raise (Exception (name +:+ ": Register 'VERSION' is reserved. Please remove it.")).
Proof.
  intros Hpre Hreg. induction Hpre as [|r pre (n & Hn & Hne) Hpre IH]; cbn.
  - unfold getitem. rewrite Hreg. cbn. by rewrite decide_True.
  - unfold getitem. rewrite Hn. cbn. by rewrite decide_False.
Qed.

(** C4 (amended): when the first setup of a class reaches
    [_generate_files] with a register named [VERSION] in its group
    [general], [_post_setup] raises the error that names the class and
    the register, in the store that the steps before it have left:
    nothing is generated from the registers, and what the build
    directory creation, the flows setup and the source copy have done
    before the check stays in the trace. *)
Theorem version_reserved_failure fuel c st st1 cs d j g
  (pre post : list (gmap string atom)) reg :
  (emit (External "build_srcs.flows_setup" [c]) ≫= fun _ =>
   _copy_srcs c ≫= fun _ => _auto_add_settings (setup fuel) c) st
    = Return tt st1 ->
  classes st1 !! c = Some cs ->
  descriptors !! c = Some d ->
  length (hist_of cs) < 2 ->
  find_named "general" (regs cs) = Ok (Some j) ->
  regs cs !! j = Some g ->
  g !! "regs" = Some (Dicts (pre ++ reg :: post)) ->
  Forall (fun r => exists n, r !! "name" = Some n /\ n <> AStr "VERSION") pre ->
  reg !! "name" = Some (AStr "VERSION") ->
  _post_setup (setup fuel) c st =
    Throw (Exception
             (cls_name d +:+ ": Register 'VERSION' is reserved. Please remove it."))
      st1 /\
  exists more,
    trace st1 = trace st ++ External "build_srcs.flows_setup" [c] :: more.
Proof.
  intros Hpre Hc Hd Hlen Hfind Hj Hg Hnames Hreg. split.
  - unfold _post_setup.
    set (sa := {| classes := classes st; shared_build_dir := shared_build_dir st;
                  trace := trace st ++ [External "build_srcs.flows_setup" [c]] |}).
    rewrite (bind_Return (emit _) _ st tt sa eq_refl) in Hpre.
    rewrite (bind_Return (emit _) _ st tt sa eq_refl).
    destruct (_copy_srcs c sa) as [[] sb|e sb|] eqn:Hcp;
      [|by rewrite (bind_Throw _ _ _ _ _ Hcp) in Hpre
       |by rewrite (bind_OutOfFuel _ _ _ Hcp) in Hpre].
    rewrite (bind_Return _ _ _ _ _ Hcp) in Hpre.
    rewrite (bind_Return _ _ _ _ _ Hcp), (bind_Return _ _ _ _ _ Hpre).
    assert (_build_regs_table c st1 =
            Throw (Exception
                     (cls_name d +:+
                      ": Register 'VERSION' is reserved. Please remove it.")) st1)
      as Hraise.
    { unfold _build_regs_table.
      rewrite (bind_Return _ _ _ _ _ (get_cls_Some _ _ _ Hc)).
      unfold get_descriptor. rewrite Hd, bind_mret.
      destruct (regs cs) as [|r0 rs] eqn:Hregs; [done|].
      rewrite Hfind, bind_lift_ok. cbn beta iota. rewrite bind_mret.
      rewrite (bind_Return _ _ _ _ _ (get_cls_Some _ _ _ Hc)).
      change (default [] (_setup_purpose cs)) with (hist_of cs).
      rewrite (proj2 (Nat.ltb_lt _ _) Hlen). cbn [when].
      rewrite Hregs, Hj. unfold getitem at 1. rewrite Hg, bind_lift_ok.
      rewrite (check_version_reserved_raises _ _ _ _ Hnames Hreg).
      by rewrite bind_lift_raise. }
    unfold _generate_files. rewrite bind_bind.
    by rewrite (bind_Throw _ _ _ _ _ Hraise).
  - set (sa := {| classes := classes st; shared_build_dir := shared_build_dir st;
                  trace := trace st ++ [External "build_srcs.flows_setup" [c]] |}).
    rewrite (bind_Return (emit _) _ st tt sa eq_refl) in Hpre.
    set (U := universe hardware (classes sa)).
    assert (sound None evolves U
              (_copy_srcs c ≫= fun _ => _auto_add_settings (setup fuel) c)
              (fun _ => True)) as Hs.
    { eapply eseq.
      - apply sound_copy_srcs, universe_project_fits.
      - apply sound_auto_add_settings; [apply universe_project_fits|].
        intros c' p' t' Hp'. apply sound_setup; [apply universe_project_fits|done..]. }
    specialize (Hs sa (universe_fits _ _) ltac:(done)).
    rewrite Hpre in Hs. destruct Hs as (_ & [_ [more Hmore]] & _).
    exists more. rewrite Hmore. cbn. by rewrite <- app_assoc.
Qed.

End setup_facts.

(** ** The statements on the project [demo_project] *)

(** C1 at a cache that is set up for [hardware] and asked for
    [simulation]. *)
Lemma setup_idempotent_witness :
  let cs := demo_cls [hardware] false [] [] in
  let st := demo_store {[ "iob_cache" := cs ]} in
  @setup demo_project 1 "iob_cache" (SStr "simulation") false st = Return tt st /\
  (forall fuel' c' p' top' st0,
     histories_ok st0 ->
     match @setup demo_project fuel' c' p' top' st0 with
     | Return _ st' | Throw _ st' => histories_ok st'
     | OutOfFuel => True
     end).
Proof.
  intros cs st.
  apply (@setup_idempotent demo_project 0 "iob_cache" (SStr "simulation") false
           st cs [hardware]).
  - vm_compute. reflexivity.
  - reflexivity.
  - right. left.
Defined.

(** C2 at the first submodule of a system that is set up for
    [simulation]. *)
Lemma setup_submodules_purpose_witness :
  let e := Bare (SClass "iob_uart") in
  let cs := demo_cls [SStr "simulation"] false
              [ e; Tuple (SClass "iob_tb") {[ "purpose" := SStr "simulation" ]} ]
              [] in
  let st := demo_store
              (<["iob_soc" := cs]>
                 (classes (initial_state (@descriptors demo_project)))) in
  let rec := @setup demo_project 4 in
  let top := from_option truthy false (entry_options e !! "is_top_module") in
  (@_setup_submodules demo_project rec "iob_soc" st =
     foldr (fun j k => @process_entry demo_project rec "iob_soc" j ≫= fun _ => k)
       (mret tt) (seq 0 (length (submodule_list cs))) st /\
   0 ∈ seq 0 (length (submodule_list cs))) /\
  (forall l p,
     requested_purpose e = hardware ->
     _setup_purpose cs = Some l -> last l = Some p ->
     @process_entry demo_project rec "iob_soc" 0 st =
     rec "iob_uart" p top
       (with_entry "iob_soc" 0 (entry_set_option "purpose" p) st)) /\
  (requested_purpose e <> hardware -> is_top_module cs = true ->
   @process_entry demo_project rec "iob_soc" 0 st =
   rec "iob_uart" (requested_purpose e) top st) /\
  (requested_purpose e <> hardware -> is_top_module cs = false ->
   @process_entry demo_project rec "iob_soc" 0 st = Return tt st).
Proof.
  intros e cs st rec top.
  apply (@setup_submodules_purpose demo_project rec "iob_soc" 0 st cs e "iob_uart").
  - vm_compute. reflexivity.
  - reflexivity.
  - reflexivity.
  - apply (bool_decide_unpack _). vm_compute. reflexivity.
Defined.

(** C10 at the system of [demo_project], set up for simulation, with a
    second submodule that is a tuple without a purpose: the loop returns,
    and the options of that entry then hold [simulation]. *)
Lemma setup_submodules_pins_purpose_witness :
  let cs := demo_cls [SStr "simulation"] false
              [ Bare (SClass "iob_uart"); Tuple (SClass "iob_cache") ∅ ] [] in
  let st := demo_store
              (<["iob_soc" := cs]>
                 (classes (initial_state (@descriptors demo_project)))) in
  exists st',
    @_setup_submodules demo_project (@setup demo_project 6) "iob_soc" st
      = Return tt st' /\
    (exists cs',
       classes st' !! "iob_soc" = Some cs' /\
       submodule_list cs' !! 1 =
         Some (Tuple (SClass "iob_cache") {[ "purpose" := SStr "simulation" ]})) /\
    (forall i s o,
       submodule_list cs !! i = Some (Tuple s o) -> o !! "purpose" = None ->
       exists cs' s' o' q,
         classes st' !! "iob_soc" = Some cs' /\
         submodule_list cs' !! i = Some (Tuple s' o') /\
         o' !! "purpose" = Some q /\
         (exists h1,
            extends (hist_of cs) h1 /\ extends h1 (hist_of cs') /\
            last h1 = Some q) /\
         (hist_of cs' = hist_of cs -> last (hist_of cs) = Some q) /\
         (q <> hardware ->
          forall fuel2 c2 p2 top2 st2,
            (@setup demo_project fuel2 c2 p2 top2 st' = Return tt st2 \/
             exists err, @setup demo_project fuel2 c2 p2 top2 st' = Throw err st2) ->
            exists cs2 s2 o2,
              classes st2 !! "iob_soc" = Some cs2 /\
              submodule_list cs2 !! i = Some (Tuple s2 o2) /\
              o2 !! "purpose" = Some q)) /\
    (forall (rec : string -> scalar -> bool -> M unit) i s o l p,
       submodule_list cs !! i = Some (Tuple s o) -> o !! "purpose" = None ->
       _setup_purpose cs = Some l -> last l = Some p ->
       @process_entry demo_project rec "iob_soc" i st =
         @dispatch demo_project rec "iob_soc" i s (<["purpose" := p]> o)
           (with_entry "iob_soc" i (entry_set_option "purpose" p) st) /\
       exists csw,
         classes (with_entry "iob_soc" i (entry_set_option "purpose" p) st)
           !! "iob_soc" = Some csw /\
         submodule_list csw !! i = Some (Tuple s (<["purpose" := p]> o))) /\
    (forall (rec : string -> scalar -> bool -> M unit) st2 cs2 i s o q,
       classes st2 !! "iob_soc" = Some cs2 ->
       submodule_list cs2 !! i = Some (Tuple s o) ->
       o !! "purpose" = Some q -> q <> hardware ->
       @process_entry demo_project rec "iob_soc" i st2 =
         if is_top_module cs2 then @dispatch demo_project rec "iob_soc" i s o st2
         else Return tt st2).
Proof.
  intros cs st.
  set (st' := match @_setup_submodules demo_project (@setup demo_project 6)
                      "iob_soc" st with
              | Return _ st' => st'
              | _ => st
              end).
  assert (@_setup_submodules demo_project (@setup demo_project 6) "iob_soc" st
            = Return tt st') as Hrun by (vm_compute; reflexivity).
  exists st'. split; [exact Hrun|]. split.
  - eexists. split; vm_compute; reflexivity.
  - apply (@setup_submodules_pins_purpose demo_project 6 "iob_soc" st cs st').
    + vm_compute. reflexivity.
    + vm_compute. discriminate.
    + exact Hrun.
Defined.

(** C4 (amended) at [iob_bad], set up for [hardware] as a submodule. *)
Lemma version_reserved_failure_witness :
  let cs := demo_cls [hardware] false [] [bad_group] in
  let st := demo_store
              {[ "iob_bad" := cs;
                 "iob_ctls" := initial_cls_state
                                 (demo_descriptor "iob_ctls" "" "/ctls" [] []) ]} in
  exists st1,
    @_post_setup demo_project (@setup demo_project 3) "iob_bad" st =
      Throw (Exception "iob_bad: Register 'VERSION' is reserved. Please remove it.")
        st1 /\
    exists more,
      trace st1 = trace st ++ External "build_srcs.flows_setup" ["iob_bad"] :: more.
Proof.
  intros cs st. eexists.
  apply (@version_reserved_failure demo_project 3 "iob_bad" st _ cs
           (demo_descriptor "iob_bad" "" "/bad" [] [bad_group]) 0 bad_group
           [] [] {[ "name" := AStr "VERSION" ]}).
  - vm_compute. reflexivity.
  - vm_compute. reflexivity.
  - vm_compute. reflexivity.
  - vm_compute. lia.
  - vm_compute. reflexivity.
  - reflexivity.
  - vm_compute. reflexivity.
  - constructor.
  - vm_compute. reflexivity.
Defined.

(** C4 as stated fails: the setup of [iob_bad] as the top module raises the
    error after it has made the build directory, copied the generic
    Makefile into it and copied the sources of the class. *)
Lemma version_reserved_after_writes_counterexample :
  exists st',
    @setup_as_top_module demo_project 5 "iob_bad"
      (initial_state (@descriptors demo_project)) =
      Throw (Exception "iob_bad: Register 'VERSION' is reserved. Please remove it.")
        st' /\
    trace st' =
      [ MakeDirs "../iob_bad_V0.10";
        External "config_build_mk" ["iob_bad"];
        MakeDirs "../iob_bad_V0.10/hardware/src";
        CopyFile "/lib/build.mk" "../iob_bad_V0.10/Makefile";
        External "build_srcs.flows_setup" ["iob_bad"];
        CopyTree "/bad/hardware/src" "../iob_bad_V0.10/hardware/src"
          (Some ("iob_bad", "iob_bad"));
        External "build_srcs.flows_setup" ["iob_ctls"] ] /\
    trace st' <> [].
Proof.
  eexists. split; [vm_compute; reflexivity|].
  split; [vm_compute; reflexivity|]. vm_compute. discriminate.
Qed.

(** The setup of the system [iob_soc], whose UART names the system among
    its submodules, returns. *)
Example setup_cyclic_project_returns :
  exists st',
    @setup_as_top_module demo_project 4 "iob_soc"
      (initial_state (@descriptors demo_project)) = Return tt st' /\
    hist (classes st') "iob_soc" = [hardware] /\
    hist (classes st') "iob_uart" = [hardware] /\
    hist (classes st') "iob_cache" = [SStr "simulation"; hardware].
Proof.
  eexists. split; [vm_compute; reflexivity|].
  split_and!; vm_compute; reflexivity.
Qed.

(** * Further properties of the code *)

(** ** [update_dict_list] *)

Section update_dict_list_more.
Context {V : Type} `{EqDecision V}.
Implicit Types (e it : gmap string V) (L N : list (gmap string V)).

Lemma fresh_all_seen seen N :
  (forall it, it ∈ N -> it !! "name" ∈ seen) -> fresh seen N = [].
Proof.
  induction N as [|it N IH]; intros Hall; cbn; [done|].
  rewrite decide_True by (apply Hall; left).
  apply IH. intros it' Hit'. apply Hall. by right.
Qed.

Lemma merge_into_twice e N : merge_into (merge_into e N) N = merge_into e N.
Proof.
  apply map_eq. intros k. rewrite merge_into_lookup, merge_into_name.
  rewrite (merge_into_lookup e N k).
  by destruct (last_value (e !! "name") k N).
Qed.

Lemma merge_item_names it L L' :
  merge_item it L = Ok L' ->
  names L' = names L \/ names L' = names L ++ [it !! "name"].
Proof.
  revert L'. induction L as [|e L IH]; intros L'; cbn.
  - intros [= <-]. by right.
  - unfold getitem. destruct (e !! "name") as [n1|] eqn:He; [|done]. cbn.
    destruct (it !! "name") as [n2|] eqn:Hit; [|done]. cbn.
    case_decide as Hn.
    + intros [= <-]. left. cbn. unfold dict_update.
      rewrite (lookup_union_Some_l _ _ _ _ Hit). by rewrite ?He, Hn.
    + destruct (merge_item it L) as [R|err] eqn:HR; [|done]. cbn.
      intros [= <-].
      change (names (e :: R)) with (e !! "name" :: names R).
      change (names (e :: L)) with (e !! "name" :: names L).
      destruct (IH R eq_refl) as [Hn'|Hn']; unfold names in *; cbn;
        rewrite Hn', He; [by left|by right].
Qed.

(** X1: a call of [update_dict_list] with the items of two lists, one
    after the other, is the call with the first list followed by the call
    with the second on its result; an exception of the first call is the
    exception of the whole. *)
Theorem update_dict_list_app L N1 N2 :
  update_dict_list L (N1 ++ N2) =
  (L' ← update_dict_list L N1; update_dict_list L' N2).
Proof.
  revert L. induction N1 as [|it N1 IH]; intros L; cbn; [done|].
  destruct (merge_item it L) as [L'|err]; cbn; [apply IH|done].
Qed.

(** X2: on a list of named entries with distinct names, a second call
    with the same named items changes nothing: it returns the list the
    first call has returned. *)
Theorem update_dict_list_idempotent L N R :
  Forall named L -> Forall named N -> NoDup (names L) ->
  update_dict_list L N = Ok R ->
  update_dict_list R N = Ok R.
Proof.
  intros HL HN Hnd HR.
  rewrite (update_dict_list_shape L N HL HN Hnd) in HR. injection HR as <-.
  set (R := map (fun e => merge_into e N) (L ++ fresh (names L) N)).
  assert (names R = names L ++ names (fresh (names L) N)) as Hnames.
  { unfold R, names. rewrite map_map, <- map_app. apply map_ext.
    intros e. apply merge_into_name. }
  destruct (fresh_spec (names L) N Hnd) as [Hnd' Hiff].
  assert (Forall named R) as HRn.
  { unfold R. apply Forall_forall. intros d Hd.
    apply list_elem_of_In, in_map_iff in Hd as (e & <- & He).
    unfold named. rewrite merge_into_name.
    apply list_elem_of_In, elem_of_app in He as [He|He].
    - by eapply (proj1 (Forall_forall _ _) HL).
    - destruct (e !! "name") eqn:Hn; [done|]. exfalso.
      assert (e ∈ N) as HeN.
      { clear -He. revert He. generalize (names L). induction N as [|it N IH];
          intros seen; cbn; [by intros ?%elem_of_nil|].
        case_decide.
        - intros ?%IH. by right.
        - intros [->|?%IH]%elem_of_cons; [left|by right]. }
      pose proof (proj1 (Forall_forall _ _) HN e HeN) as [? Hsome].
      congruence. }
  rewrite (update_dict_list_shape R N HRn HN) by (by rewrite Hnames).
  f_equal. rewrite fresh_all_seen, app_nil_r.
  - unfold R. rewrite map_map. apply map_ext. intros e. apply merge_into_twice.
  - intros it Hit. rewrite Hnames. apply Hiff, elem_of_app. right.
    unfold names. apply list_elem_of_In, in_map_iff. exists it.
    split; [done|by apply list_elem_of_In].
Qed.

(** X3: an item without the key [name] is appended to an empty list
    without any error, since the comparison of names is never reached; on
    a list that holds an entry the same item raises [KeyError], and so
    does every later item once the unnamed one is in the list. *)
Theorem update_dict_list_unnamed it e e' L :
  it !! "name" = None ->
  update_dict_list [] [it] = Ok [it] /\
  update_dict_list (e :: L) [it] = Raise (KeyError "name") /\
  update_dict_list [it] [e'] = Raise (KeyError "name").
Proof.
  intros Hit. split; [done|]. split; cbn; unfold getitem.
  - destruct (e !! "name"); cbn; [|done]. by rewrite Hit.
  - by rewrite Hit.
Qed.

(** X4: whatever the lists hold (names twice, entries without a name),
    a call that returns keeps every existing entry at its position and
    with its name, adds entries at the end only, at most one for each new
    item, and removes none. *)
Theorem update_dict_list_keeps_positions L N R :
  update_dict_list L N = Ok R ->
  (exists ext, names R = names L ++ ext /\ length ext <= length N) /\
  length L <= length R <= length L + length N.
Proof.
  revert L. induction N as [|it N IH]; intros L; cbn.
  - intros [= <-]. split; [|lia]. exists []. by rewrite app_nil_r.
  - destruct (merge_item it L) as [L'|err] eqn:HL'; [|done]. cbn.
    intros HR. destruct (IH L' HR) as [(ext & Hext & Hlen) Hlen'].
    pose proof (merge_item_names it L L' HL') as Hn.
    assert (length (names L') = length L') as Hl1 by apply length_map.
    assert (length (names L) = length L) as Hl2 by apply length_map.
    destruct Hn as [Hn|Hn].
    + rewrite Hn in Hext, Hl1. split; [exists ext; split; [done|lia]|lia].
    + rewrite Hn in Hext, Hl1. rewrite length_app in Hl1. cbn in Hl1.
      split; [|lia]. exists ((it !! "name") :: ext).
      rewrite <- app_assoc in Hext. split; [done|cbn; lia].
Qed.

End update_dict_list_more.

(** ** Renaming and commas *)

Section rename_more.
Implicit Types (s t old new : string) (c : ascii).




(** Reversal *)
Lemma rev_string_onto_app s acc :
  rev_string_onto s acc = rev_string_onto s "" +:+ acc.
Proof.
  revert acc. induction s as [|c s IH]; intros acc; cbn.
  - by rewrite append_nil_l.
  - rewrite (IH (String c acc)), (IH (String c "")).
    by rewrite append_assoc, append_cons, append_nil_l.
Qed.

Lemma reverse_cons c s : reverse (String c s) = reverse s +:+ String c "".
Proof. unfold reverse. cbn. apply rev_string_onto_app. Qed.

Lemma reverse_app s t : reverse (s +:+ t) = reverse t +:+ reverse s.
Proof.
  induction s as [|c s IH].
  - by rewrite append_nil_l, append_nil_r.
  - rewrite append_cons, !reverse_cons, IH. by rewrite append_assoc.
Qed.

Lemma reverse_involutive s : reverse (reverse s) = s.
Proof.
  induction s as [|c s IH]; [done|].
  rewrite reverse_cons, reverse_app, IH.
  change (reverse (String c "")) with (String c "").
  by rewrite append_cons, append_nil_l.
Qed.

Lemma contains_comma_app s t :
  contains "," (s +:+ t) = contains "," s || contains "," t.
Proof.
  induction s as [|c s IH].
  - rewrite append_nil_l. cbn. by destruct (contains "," t).
  - rewrite append_cons. cbn [contains]. rewrite IH. cbn [starts_with].
    destruct (Ascii.eqb "," c); cbn; [done|].
    by destruct (contains "," s).
Qed.

Lemma contains_comma_reverse s : contains "," (reverse s) = contains "," s.
Proof.
  induction s as [|c s IH]; [done|].
  rewrite reverse_cons, contains_comma_app, IH. cbn [contains starts_with].
  destruct (Ascii.eqb "," c), (contains "," s); done.
Qed.

Lemma replace_scan_spent old new s :
  replace_scan old new (Some 0) 0 s = s.
Proof.
  induction s as [|c s IH]; cbn; [done|].
  by rewrite andb_false_r, IH.
Qed.

Lemma replace_first_comma s t :
  contains "," s = false ->
  replace_scan "," "" (Some 1) 0 (s +:+ "," +:+ t) = s +:+ t.
Proof.
  induction s as [|c s IH]; intros Hs.
  - rewrite !append_nil_l, append_cons, append_nil_l.
    cbn [replace_scan starts_with String.length Nat.sub count_left count_pred
         Nat.pred].
    rewrite Ascii.eqb_refl. cbn [andb].
    by rewrite append_nil_l, replace_scan_spent.
  - rewrite (append_cons c s). cbn [contains starts_with] in Hs.
    cbn [replace_scan starts_with].
    destruct (Ascii.eqb "," c); [done|].
    cbn [andb orb] in Hs |- *. by rewrite IH, append_cons.
Qed.

Lemma replace_no_comma count s :
  contains "," s = false -> replace_scan "," "" count 0 s = s.
Proof.
  induction s as [|c s IH]; intros Hs; [done|].
  cbn [contains starts_with] in Hs. cbn [replace_scan starts_with].
  destruct (Ascii.eqb "," c); [done|]. cbn [andb orb] in Hs |- *. by rewrite IH.
Qed.

Lemma strip_last_comma_last (a b : string) :
  contains "," b = false -> strip_last_comma (a +:+ "," +:+ b) = a +:+ b.
Proof.
  intros Hb. unfold strip_last_comma, py_replace.
  rewrite !reverse_app. change (reverse ",") with ",".
  rewrite append_assoc, replace_first_comma
    by (by rewrite contains_comma_reverse).
  by rewrite reverse_app, !reverse_involutive.
Qed.

(** X6: [line[::-1].replace(",", "", 1)[::-1]] takes the last comma out
    of the line and nothing else, whatever commas stand before it; a line
    without a comma stays as it is. *)
Theorem strip_last_comma_spec (a b : string) :
  contains "," b = false ->
  strip_last_comma (a +:+ "," +:+ b) = a +:+ b /\
  strip_last_comma b = b.
Proof.
  intros Hb. split; [by apply strip_last_comma_last|].
  unfold strip_last_comma, py_replace.
  rewrite replace_no_comma by (by rewrite contains_comma_reverse).
  apply reverse_involutive.
Qed.

End rename_more.

(** ** [createSystem.py] *)

Section createSystem_more.
Context `{helpers}.


Lemma insert_wires_loop (pre : list string) (wires : list wire) :
  forall post,
    foldl (fun tc w => py_insert (Z.of_nat (length pre)) (wire_line w) tc)
      (pre ++ post) wires =
    pre ++ rev (map wire_line wires) ++ post.
Proof.
  induction wires as [|w wires IH]; intros post; cbn [foldl map rev]; [done|].
  rewrite py_insert_at, IH. by rewrite <- app_assoc.
Qed.

(** X8: the internal wires go directly after the first line that holds
    [);], under one comment line and in the reverse of their order in the
    list, since all are inserted at the same index; an empty list of
    wires, like no list, inserts nothing, not even the comment. *)
Theorem insert_internal_wires_spec (pre post : list string) (line : string)
  (wires : list wire) :
  Forall (fun l => contains ");" l = false) pre ->
  contains ");" line = true ->
  wires <> [] ->
  insert_internal_wires (Some wires) (pre ++ line :: post) =
    pre ++ line :: ("    // Module internal wires" +:+ nl) ::
    rev (map wire_line wires) ++ post /\
  insert_internal_wires (Some []) (pre ++ line :: post) = pre ++ line :: post /\
  insert_internal_wires None (pre ++ line :: post) = pre ++ line :: post.
Proof.
  intros Hpre Hline Hw. split; [|done].
  destruct wires as [|w wires]; [done|].
  unfold insert_internal_wires, find_idx.
  rewrite (first_line_with_end _ pre line post Hpre Hline).
  replace (Z.of_nat (length pre) + 1)%Z
    with (Z.of_nat (length (pre ++ [line]))) by (rewrite length_app; cbn; lia).
  replace (pre ++ line :: post) with ((pre ++ [line]) ++ post)
    by (by rewrite <- app_assoc).
  pose proof (insert_wires_loop (pre ++ [line]) (w :: wires) post) as Hloop.
  unfold wire_line in Hloop at 1. rewrite Hloop.
  rewrite py_insert_at. by rewrite <- !app_assoc.
Qed.

Lemma finish_lines_false bodies :
  finish_lines false bodies = map (fun b => b +:+ "," +:+ nl) bodies.
Proof. induction bodies as [|b bs IH]; cbn; [done|]. by rewrite IH. Qed.

Lemma strip_first_inserted_at (pre rest : list string) (first : bool) (body : string) :
  strip_first_inserted (Z.of_nat (length pre)) first
    (pre ++ (body +:+ "," +:+ nl) :: rest) =
  Ok (pre ++ (body +:+ (if first then "" else ",") +:+ nl) :: rest).
Proof.
  unfold strip_first_inserted. destruct first; [|done].
  rewrite py_get_at. cbn [mbind result_bind]. rewrite py_set_at.
  rewrite strip_last_comma_last by done. by rewrite append_nil_l.
Qed.

Lemma insert_reserved_signals_at (top type_top : string)
  (top_list : gmap string string) (u : instance) (pre : list string) :
  top_list !! i_type u = Some type_top ->
  forall (signals : list signal) (first : bool) (rest : list string),
    insert_reserved_signals top top_list u (Z.of_nat (length pre)) signals first
      (pre ++ rest) =
    Ok (pre ++
        rev (finish_lines first
               (map (fun sg =>
                       "      " +:+
                       get_reserved_signal_connection (sig_name sg)
                         (upper top +:+ "_" +:+ i_name u)
                         (upper type_top +:+ "_SWREG")) signals)) ++ rest,
        first && bool_decide (signals = [])).
Proof.
  intros Htop. induction signals as [|sg signals IH]; intros first rest.
  - cbn. by rewrite andb_true_r.
  - cbn [insert_reserved_signals]. unfold getitem. rewrite Htop.
    cbn [mbind result_bind]. rewrite py_insert_at.
    rewrite <- (append_assoc "      ").
    rewrite strip_first_inserted_at. cbn [mbind result_bind].
    rewrite IH. cbn [map finish_lines rev]. rewrite <- !app_assoc.
    cbn [app andb].
    rewrite (bool_decide_eq_false_2 (sg :: signals = [])) by done.
    by rewrite andb_false_r.
Qed.

Lemma insert_pio_signals_at (u : instance) (pre : list string) :
  forall (signals : list signal) (first : bool) (rest : list string),
    insert_pio_signals u (Z.of_nat (length pre)) signals first (pre ++ rest) =
    Ok (pre ++
        rev (finish_lines first
               (map (fun sg =>
                       "      ." +:+ sig_name sg +:+ "(" +:+
                       get_peripheral_port_mapping u (sig_name sg) +:+ ")")
                  signals)) ++ rest,
        first && bool_decide (signals = [])).
Proof.
  induction signals as [|sg signals IH]; intros first rest.
  - cbn. by rewrite andb_true_r.
  - cbn [insert_pio_signals].
    replace ("      ." +:+ sig_name sg +:+ "(" +:+
             get_peripheral_port_mapping u (sig_name sg) +:+ ")," +:+ nl)
      with (("      ." +:+ sig_name sg +:+ "(" +:+
             get_peripheral_port_mapping u (sig_name sg) +:+ ")") +:+ "," +:+ nl).
    2:{ rewrite !append_assoc. do 4 f_equal. }
    rewrite py_insert_at, strip_first_inserted_at. cbn [mbind result_bind].
    rewrite IH. cbn [map finish_lines rev]. rewrite <- !app_assoc.
    cbn [app andb].
    rewrite (bool_decide_eq_false_2 (sg :: signals = [])) by done.
    by rewrite andb_false_r.
Qed.

Lemma insert_params_at (pre : list string) :
  forall (params : list (string * string)) (first : bool) (rest : list string),
    insert_params (Z.of_nat (length pre)) params first (pre ++ rest) =
    pre ++ rev (finish_lines first (param_bodies params)) ++ rest.
Proof.
  induction params as [|[p v] params IH]; intros first rest; [done|].
  cbn [insert_params]. rewrite py_insert_at, IH.
  cbn [param_bodies map finish_lines rev fst snd]. rewrite <- !app_assoc.
  cbn [app]. do 3 f_equal. by rewrite !append_assoc.
Qed.

Lemma finish_lines_app first a b :
  finish_lines first (a ++ b) =
  finish_lines first a ++ finish_lines (first && bool_decide (a = [])) b.
Proof.
  revert first. induction a as [|x a IH]; intros first; cbn.
  - by rewrite andb_true_r.
  - rewrite IH. cbn [andb]. by rewrite andb_false_r.
Qed.

Lemma bool_decide_map_nil {A B : Type} (f : A -> B) (l : list A) :
  bool_decide (map f l = []) = bool_decide (l = []).
Proof.
  destruct l; [by rewrite !bool_decide_eq_true_2|by rewrite !bool_decide_eq_false_2].
Qed.

Lemma insert_instance_at (top type_top : string)
  (port_list : gmap string (list signal)) (top_list : gmap string string)
  (u : instance) (ports : list signal) (pre post : list string)
  (endline : string) :
  Forall (fun l => contains "endmodule" l = false) pre ->
  contains "endmodule" endline = true ->
  port_list !! i_type u = Some ports ->
  top_list !! i_type u = Some type_top ->
  insert_instance top port_list top_list u (pre ++ endline :: post) =
  Ok (pre ++ instance_text top type_top u ports ++ endline :: post).
Proof.
  intros Hpre Hend Hports Htop.
  unfold insert_instance, find_idx.
  rewrite (first_line_with_end _ pre endline post Hpre Hend).
  replace (Z.of_nat (length pre) + 1 - 1)%Z with (Z.of_nat (length pre)) by lia.
  unfold getitem. rewrite Hports, Htop. cbn [mbind result_bind].
  rewrite py_insert_at.
  rewrite (insert_reserved_signals_at top type_top top_list u pre Htop).
  cbn [mbind result_bind].
  rewrite insert_pio_signals_at. cbn [mbind result_bind].
  rewrite !py_insert_at.
  unfold instance_text, connection_bodies.
  rewrite finish_lines_app, rev_app_distr.
  rewrite bool_decide_map_nil.
  destruct (i_params u) as [|pv params] eqn:Hpar.
  - cbn [length Nat.ltb Nat.leb]. rewrite !py_insert_at.
    cbn [app]. by rewrite <- !app_assoc.
  - change ((0 <? length (pv :: params))%nat) with true. cbv iota.
    rewrite insert_params_at, !py_insert_at.
    cbn [app]. rewrite <- !app_assoc. cbn [app].
    by rewrite <- !app_assoc.
Qed.

(** X9: the body of the loop over the peripherals puts the text of one
    instantiation directly above the first line that holds [endmodule],
    for any number of parameters, reserved signals and regular ports:
    parameters and connections stand in the reverse of the order in which
    they are visited, and the line made first, which ends up last, is the
    only one without a comma at its end. *)
Theorem insert_instance_spec (top type_top : string)
  (port_list : gmap string (list signal)) (top_list : gmap string string)
  (u : instance) (ports : list signal) (pre post : list string)
  (endline : string) :
  Forall (fun l => contains "endmodule" l = false) pre ->
  contains "endmodule" endline = true ->
  port_list !! i_type u = Some ports ->
  top_list !! i_type u = Some type_top ->
  insert_instance top port_list top_list u (pre ++ endline :: post) =
    Ok (pre ++ instance_text top type_top u ports ++ endline :: post) /\
  (forall b bs,
     finish_lines true (b :: bs) =
     (b +:+ nl) :: map (fun x => x +:+ "," +:+ nl) bs).
Proof.
  intros Hpre Hend Hports Htop. split; [by apply insert_instance_at|].
  intros b bs. cbn [finish_lines]. by rewrite append_nil_l, finish_lines_false.
Qed.

(** X10: the instantiations stand above [endmodule] in the order of the
    peripherals list (unlike the include lines), when no line of an
    instantiation holds the word [endmodule]. *)
Theorem insert_instances_order (top : string) (ports_of : string -> list signal)
  (top_of : string -> string)
  (port_list : gmap string (list signal)) (top_list : gmap string string)
  (peripherals_list : list instance) (pre post : list string)
  (endline : string) :
  (forall u, u ∈ peripherals_list ->
     port_list !! i_type u = Some (ports_of (i_type u)) /\
     top_list !! i_type u = Some (top_of (i_type u)) /\
     Forall (fun l => contains "endmodule" l = false)
       (instance_text top (top_of (i_type u)) u (ports_of (i_type u)))) ->
  Forall (fun l => contains "endmodule" l = false) pre ->
  contains "endmodule" endline = true ->
  insert_instances top port_list top_list peripherals_list
    (pre ++ endline :: post) =
  Ok (pre ++
      flat_map (fun u =>
                  instance_text top (top_of (i_type u)) u (ports_of (i_type u)))
        peripherals_list ++
      endline :: post).
Proof.
  intros Hus Hpre Hend. revert pre Hpre.
  induction peripherals_list as [|u us IH]; intros pre Hpre; [done|].
  destruct (Hus u ltac:(left)) as (Hports & Htop & Hfree).
  cbn [insert_instances flat_map].
  rewrite (insert_instance_at top _ port_list top_list u _ pre post endline
             Hpre Hend Hports Htop).
  cbn [mbind result_bind]. rewrite app_assoc.
  rewrite IH.
  - by rewrite <- !app_assoc.
  - intros u' Hu'. apply Hus. by right.
  - by apply Forall_app.
Qed.

End createSystem_more.

(** ** The statements above on concrete inputs *)

Lemma update_dict_list_idempotent_witness :
  let L : list (gmap string string) := [ {[ "name" := "a"; "val" := "1" ]} ] in
  let N : list (gmap string string) :=
    [ {[ "name" := "b"; "val" := "2" ]}; {[ "name" := "a"; "val" := "3" ]};
      {[ "name" := "b"; "min" := "0" ]} ] in
  let R : list (gmap string string) :=
    [ {[ "name" := "a"; "val" := "3" ]};
      {[ "name" := "b"; "val" := "2"; "min" := "0" ]} ] in
  update_dict_list R N = Ok R.
Proof.
  intros L N R. apply (update_dict_list_idempotent L N R).
  - repeat constructor; eexists; vm_compute; reflexivity.
  - repeat constructor; eexists; vm_compute; reflexivity.
  - apply (bool_decide_unpack _). vm_compute. reflexivity.
  - vm_compute. reflexivity.
Defined.

Lemma update_dict_list_unnamed_witness :
  let it : gmap string string := {[ "val" := "1" ]} in
  let e : gmap string string := {[ "name" := "a" ]} in
  update_dict_list [] [it] = Ok [it] /\
  update_dict_list [e] [it] = Raise (KeyError "name") /\
  update_dict_list [it] [e] = Raise (KeyError "name").
Proof.
  intros it e. apply (update_dict_list_unnamed it e e []).
  vm_compute. reflexivity.
Defined.

Lemma update_dict_list_keeps_positions_witness :
  let L : list (gmap string string) :=
    [ {[ "name" := "a"; "val" := "1" ]}; {[ "name" := "a"; "val" := "2" ]} ] in
  let N : list (gmap string string) :=
    [ {[ "name" := "a"; "val" := "3" ]}; {[ "name" := "b" ]} ] in
  let R : list (gmap string string) :=
    [ {[ "name" := "a"; "val" := "3" ]}; {[ "name" := "a"; "val" := "2" ]};
      {[ "name" := "b" ]} ] in
  (exists ext, names R = names L ++ ext /\ length ext <= length N) /\
  length L <= length R <= length L + length N.
Proof.
  intros L N R. apply (update_dict_list_keeps_positions L N R).
  vm_compute. reflexivity.
Defined.


Lemma strip_last_comma_spec_witness :
  strip_last_comma ("      .a(x, y)" +:+ "," +:+ nl) = "      .a(x, y)" +:+ nl /\
  strip_last_comma nl = nl.
Proof. apply (strip_last_comma_spec "      .a(x, y)" nl). vm_compute. reflexivity. Defined.


Lemma insert_internal_wires_spec_witness :
  let pre := [ "module top(" +:+ nl ] in
  let line := ");" +:+ nl in
  let post := [ "endmodule" +:+ nl ] in
  let wires := [ {| w_name := "a"; w_n_bits := "8" |};
                 {| w_name := "b"; w_n_bits := "1" |} ] in
  @insert_internal_wires demo_helpers (Some wires) (pre ++ line :: post) =
    pre ++ line :: ("    // Module internal wires" +:+ nl) ::
    rev (map wire_line wires) ++ post /\
  @insert_internal_wires demo_helpers (Some []) (pre ++ line :: post) =
    pre ++ line :: post /\
  @insert_internal_wires demo_helpers None (pre ++ line :: post) =
    pre ++ line :: post.
Proof.
  intros pre line post wires.
  apply (@insert_internal_wires_spec demo_helpers pre post line wires).
  - repeat constructor.
  - vm_compute. reflexivity.
  - discriminate.
Defined.

Lemma insert_instance_spec_witness :
  let u := {| i_type := "UART"; i_name := "UART0";
              i_params := [ ("W", "8"); ("D", "2") ] |} in
  let pre := [ "module top(" +:+ nl; ");" +:+ nl ] in
  let endline := "endmodule" +:+ nl in
  @insert_instance demo_helpers "top" {[ "UART" := demo_ports ]}
    {[ "UART" := "iob_uart" ]} u (pre ++ endline :: []) =
    Ok (pre ++ @instance_text demo_helpers "top" "iob_uart" u demo_ports ++
        endline :: []) /\
  (forall b bs,
     finish_lines true (b :: bs) =
     (b +:+ nl) :: map (fun x => x +:+ "," +:+ nl) bs).
Proof.
  intros u pre endline.
  apply (@insert_instance_spec demo_helpers "top" "iob_uart"
           {[ "UART" := demo_ports ]} {[ "UART" := "iob_uart" ]} u demo_ports
           pre [] endline).
  - repeat constructor.
  - vm_compute. reflexivity.
  - vm_compute. reflexivity.
  - vm_compute. reflexivity.
Defined.

Lemma insert_instances_order_witness :
  let pre := [ "module top(" +:+ nl; ");" +:+ nl ] in
  let endline := "endmodule" +:+ nl in
  let ports_of := fun _ : string => [ {| sig_name := "data" |} ] in
  let port_list : gmap string (list signal) :=
    {[ "UART" := ports_of "UART"; "TIMER" := ports_of "TIMER" ]} in
  @insert_instances demo_helpers "top" port_list demo_dirs demo_peripherals
    (pre ++ endline :: []) =
  Ok (pre ++
      flat_map (fun u =>
                  @instance_text demo_helpers "top" (demo_top_of (i_type u)) u
                    (ports_of (i_type u)))
        demo_peripherals ++
      endline :: []).
Proof.
  intros pre endline ports_of port_list.
  apply (@insert_instances_order demo_helpers "top" ports_of demo_top_of
           port_list demo_dirs demo_peripherals pre [] endline).
  - intros u Hu. apply list_elem_of_In in Hu.
    repeat (destruct Hu as [<-|Hu]; [vm_compute; repeat constructor|]).
    destruct Hu.
  - repeat constructor.
  - vm_compute. reflexivity.
Defined.

(** ** Repeated and failed setups *)

Section setup_more.
Context `{project}.
Implicit Types (st : state) (cs : cls_state) (c : string) (p q : scalar).

(** What the history of a class holds stays in it through the
    submodules and the post-setup. *)
Lemma body_keeps_recorded fuel c c' p s4 :
  p ∈ hist (classes s4) c' ->
  match (_specific_setup (setup fuel) c ≫= fun _ => _post_setup (setup fuel) c) s4
  with
  | Return _ s5 | Throw _ s5 => p ∈ hist (classes s5) c'
  | OutOfFuel => True
  end.
Proof.
  intros Hp. set (U := universe p (classes s4)).
  assert (project_fits U) as HU by apply universe_project_fits.
  assert (forall c p t, p ∈ U ->
            sound None evolves U (setup fuel c p t) (fun _ => True)) as Hrec.
  { intros c0 p0 t0 Hp0. by apply sound_setup. }
  pose proof (eseq U None _ _ _ _
                (sound_specific_setup U None HU (setup fuel) Hrec c)
                (sound_post_setup U None HU (setup fuel) Hrec c)
                s4 (universe_fits _ _) ltac:(done)) as Hs.
  destruct ((_specific_setup (setup fuel) c ≫=
             fun _ => _post_setup (setup fuel) c) s4) as [[] s5|e s5|]; [| |done].
  - destruct Hs as (_ & Hev & _). by eapply evolves_hist.
  - destruct Hs as (_ & Hev). by eapply evolves_hist.
Qed.

Lemma recorded_guard fuel c p top st :
  p ∈ hist (classes st) c \/ hardware ∈ hist (classes st) c ->
  setup (S fuel) c p top st = Return tt st.
Proof.
  unfold hist. intros Hin.
  destruct (classes st !! c) as [cs|] eqn:Hc;
    [|destruct Hin as [Hin|Hin]; by apply elem_of_nil in Hin].
  destruct (_setup_purpose cs) as [l|] eqn:Hl;
    [|destruct Hin as [Hin|Hin]; by apply elem_of_nil in Hin].
  by apply (setup_guard fuel c p top st cs l).
Qed.

Lemma setup_records fuel c p top st :
  match setup fuel c p top st with
  | Return _ st' =>
      p ∈ hist (classes st') c \/ hardware ∈ hist (classes st') c
  | Throw _ st' => hist (classes st) c <> [] -> p ∈ hist (classes st') c
  | OutOfFuel => True
  end.
Proof.
  destruct fuel as [|fuel]; [done|]. cbn [setup].
  destruct (classes st !! c) as [cs|] eqn:Hc; last first.
  { unfold mbind at 1, M_bind at 1, get_cls. rewrite Hc.
    unfold hist. by rewrite Hc. }
  rewrite (bind_Return _ _ _ _ _ (get_cls_Some _ _ _ Hc)).
  assert (exists s1 cs1,
            (when (bool_decide (_setup_purpose cs = None))
               (modify_cls c (set_setup_purpose (Some []))) : M unit) st
            = Return tt s1 /\
            classes s1 !! c = Some cs1 /\
            is_Some (_setup_purpose cs1) /\
            hist_of cs1 = hist_of cs)
    as (s1 & cs1 & Hrun & Hc1 & Hl1 & Hh1).
  { destruct (_setup_purpose cs) as [l|] eqn:Hl.
    - exists st, cs. rewrite bool_decide_eq_false_2 by done.
      split_and!; [done..|by rewrite Hl|done].
    - eexists _, (set_setup_purpose (Some []) cs).
      rewrite bool_decide_eq_true_2 by done. cbn [when].
      split; [reflexivity|]. cbn [classes]. rewrite lookup_alter_eq, Hc.
      split_and!; [done|by eexists|]. unfold hist_of. cbn. by rewrite Hl. }
  rewrite (bind_Return _ _ _ _ _ Hrun).
  rewrite (bind_Return _ _ _ _ _ (get_cls_Some _ _ _ Hc1)).
  change (default [] (_setup_purpose cs1)) with (hist_of cs1).
  assert (hist (classes s1) c = hist_of cs1) as Hhist1.
  { unfold hist. by rewrite Hc1. }
  assert (hist (classes st) c = hist_of cs) as Hhist0.
  { unfold hist. by rewrite Hc. }
  destruct (bool_decide (p ∈ hist_of cs1 \/ hardware ∈ hist_of cs1)) eqn:Hg.
  { apply bool_decide_eq_true in Hg. cbn. by rewrite Hhist1. }
  (* attribute initialization and the build directory leave the history *)
  set (U := universe p (classes s1)).
  assert (project_fits U) as HU by apply universe_project_fits.
  rewrite <- bind_bind.
  match goal with
  | |- match (?ab ≫= _) s1 with _ => _ end =>
      assert (match ab s1 with
              | Return _ s3 =>
                  exists cs3, classes s3 !! c = Some cs3 /\
                              _setup_purpose cs3 = _setup_purpose cs1
              | Throw _ s3 => hist_of cs1 = []
              | OutOfFuel => True
              end) as Hinit
  end.
  { destruct (decide (hist_of cs1 = [])) as [Hnil|Hnn].
    - match goal with
      | |- match (?a ≫= fun _ => ?b) s1 with _ => _ end =>
          assert (sound None (frame c) U a (fun _ => True)) as HA;
          [|assert (sound None (frame c) U b (fun _ => True)) as HB]
      end.
      { apply sound_when; [apply _|]. eapply fseq.
        - by apply sound_modify_frame.
        - by apply sound_init_attributes. }
      { apply sound_when; [apply _|]. by apply sound_create_build_dir. }
      specialize (HA s1 (universe_fits _ _) ltac:(done)).
      match goal with
      | |- match (?a ≫= ?k) s1 with _ => _ end =>
          destruct (a s1) as [[] s2|e s2|] eqn:Ea;
          [ rewrite (bind_Return _ _ _ _ _ Ea)
          | by rewrite (bind_Throw _ _ _ _ _ Ea)
          | by rewrite (bind_OutOfFuel _ _ _ Ea) ]
      end.
      destruct HA as (Hf2 & Hfr2 & _).
      specialize (HB s2 Hf2 ltac:(done)).
      match goal with
      | |- match ?b s2 with _ => _ end => destruct (b s2) as [[] s3|e s3|]
      end; [|done..].
      destruct HB as (_ & Hfr3 & _).
      assert (frame c s1 s3) as (_ & Hcc & _) by (by etrans).
      rewrite Hc1 in Hcc. inversion Hcc as [? cs3 Heq|]; subst.
      by exists cs3.
    - rewrite bool_decide_eq_false_2, andb_false_r by done. cbn.
      by exists cs1. }
  match goal with
  | |- match (?ab ≫= ?k) s1 with _ => _ end =>
      destruct (ab s1) as [[] s3|e s3|] eqn:Eab;
      [ rewrite (bind_Return _ _ _ _ _ Eab)
      | rewrite (bind_Throw _ _ _ _ _ Eab)
      | by rewrite (bind_OutOfFuel _ _ _ Eab) ]
  end; last first.
  { intros Hne. rewrite Hhist0, <- Hh1 in Hne. done. }
  destruct Hinit as (cs3 & Hc3 & Hl3).
  (* the purpose is recorded *)
  match goal with
  | |- match (modify_cls c ?f ≫= _) s3 with _ => _ end =>
      set (s4 := {| classes := alter f c (classes s3);
                    shared_build_dir := shared_build_dir s3;
                    trace := trace s3 |});
      rewrite (bind_Return (modify_cls c f) _ s3 tt s4 eq_refl)
  end.
  assert (p ∈ hist (classes s4) c) as Hp4.
  { unfold hist, s4. cbn [classes]. rewrite lookup_alter_eq, Hc3. cbn.
    apply elem_of_app. right. by left. }
  pose proof (body_keeps_recorded fuel c c p s4 Hp4) as Hbody.
  match goal with
  | |- match ?body s4 with _ => _ end => destruct (body s4) as [[] s5|e s5|]
  end; [by left|done|done].
Qed.


(** X11: after a call of [__setup] that returns, the history of the
    class holds the purpose asked for or [hardware], and any further call
    for that purpose, top module or not, returns at once in the same
    store. *)
Theorem setup_twice fuel c p top st st' :
  setup fuel c p top st = Return tt st' ->
  (p ∈ hist (classes st') c \/ hardware ∈ hist (classes st') c) /\
  forall fuel' top', setup (S fuel') c p top' st' = Return tt st'.
Proof.
  intros Hrun. pose proof (setup_records fuel c p top st) as Hrec.
  rewrite Hrun in Hrec. split; [done|].
  intros fuel' top'. by apply recorded_guard.
Qed.

(** X12: the purpose is recorded before the submodules and the
    post-setup run and is not taken back when they raise: after a failed
    call on a class that had been set up before, the history holds the
    purpose, and a retry for it returns at once without doing the work. *)
Theorem setup_failure_recorded fuel c p top st err st' :
  hist (classes st) c <> [] ->
  setup fuel c p top st = Throw err st' ->
  p ∈ hist (classes st') c /\
  forall fuel' top', setup (S fuel') c p top' st' = Return tt st'.
Proof.
  intros Hne Hrun. pose proof (setup_records fuel c p top st) as Hrec.
  rewrite Hrun in Hrec. specialize (Hrec Hne). split; [done|].
  intros fuel' top'. apply recorded_guard. by left.
Qed.

End setup_more.

(** ** The register table *)

Section regs_table.
Context `{project}.
Implicit Types (st : state) (cs : cls_state) (c : string) (p q : scalar).

Lemma find_named_Some n (l : list (gmap string value)) j :
  find_named n l = Ok (Some j) ->
  exists g, l !! j = Some g /\ g !! "name" = Some (Atom (AStr n)) /\
    Forall (fun e => exists v, e !! "name" = Some v /\ v <> Atom (AStr n))
      (take j l).
Proof.
  revert j. induction l as [|e l IH]; intros j; cbn; [done|].
  unfold getitem. destruct (e !! "name") as [v|] eqn:He; [|done]. cbn.
  case_decide as Hv.
  - intros [= <-]. exists e. by rewrite He, Hv.
  - destruct (find_named n l) as [[i|]|err] eqn:Hl; cbn; [|done..].
    intros [= <-]. destruct (IH i eq_refl) as (g & Hg & Hn & Hpre).
    exists g. split_and!; [done..|]. cbn. constructor; [by exists v|done].
Qed.

Lemma find_named_None n (l : list (gmap string value)) :
  find_named n l = Ok None ->
  Forall (fun e => exists v, e !! "name" = Some v /\ v <> Atom (AStr n)) l.
Proof.
  induction l as [|e l IH]; cbn; [done|].
  unfold getitem. destruct (e !! "name") as [v|] eqn:He; [|done]. cbn.
  case_decide as Hv; [done|].
  destruct (find_named n l) as [[i|]|err] eqn:Hl; cbn; [done| |done].
  intros _. constructor; [by exists v|by apply IH].
Qed.

Lemma find_named_at n (pre post : list (gmap string value)) g :
  Forall (fun e => exists v, e !! "name" = Some v /\ v <> Atom (AStr n)) pre ->
  g !! "name" = Some (Atom (AStr n)) ->
  find_named n (pre ++ g :: post) = Ok (Some (length pre)).
Proof.
  intros Hpre Hg. induction Hpre as [|e pre (v & He & Hv) Hpre IH]; cbn.
  - unfold getitem. rewrite Hg. cbn. by rewrite decide_True.
  - unfold getitem. rewrite He. cbn. rewrite decide_False by done.
    by rewrite IH.
Qed.

Lemma check_version_reserved_Ok name (l : list (gmap string atom)) :
  check_version_reserved name l = Ok tt ->
  Forall (fun r => exists n, r !! "name" = Some n /\ n <> AStr "VERSION") l.
Proof.
  induction l as [|r l IH]; cbn; [done|].
  unfold getitem. destruct (r !! "name") as [v|] eqn:Hr; [|done]. cbn.
  case_decide as Hv; [done|]. intros Hl. constructor; [by exists v|by apply IH].
Qed.

Lemma build_regs_table_raises c st cs d j g
  (pre post : list (gmap string atom)) reg :
  classes st !! c = Some cs ->
  descriptors !! c = Some d ->
  length (hist_of cs) < 2 ->
  find_named "general" (regs cs) = Ok (Some j) ->
  regs cs !! j = Some g ->
  g !! "regs" = Some (Dicts (pre ++ reg :: post)) ->
  Forall (fun r => exists n, r !! "name" = Some n /\ n <> AStr "VERSION") pre ->
  reg !! "name" = Some (AStr "VERSION") ->
  _build_regs_table c st =
  Throw (Exception
           (cls_name d +:+ ": Register 'VERSION' is reserved. Please remove it."))
    st.
Proof.
  intros Hc Hd Hlen Hfind Hj Hg Hnames Hreg.
  unfold _build_regs_table.
  rewrite (bind_Return _ _ _ _ _ (get_cls_Some _ _ _ Hc)).
  unfold get_descriptor. rewrite Hd, bind_mret.
  destruct (regs cs) as [|r0 rs] eqn:Hregs; [done|].
  rewrite Hfind, bind_lift_ok. cbn beta iota. rewrite bind_mret.
  rewrite (bind_Return _ _ _ _ _ (get_cls_Some _ _ _ Hc)).
  change (default [] (_setup_purpose cs)) with (hist_of cs).
  rewrite (proj2 (Nat.ltb_lt _ _) Hlen). cbn [when].
  rewrite Hregs, Hj. unfold getitem at 1. rewrite Hg, bind_lift_ok.
  rewrite (check_version_reserved_raises _ _ _ _ Hnames Hreg).
  by rewrite bind_lift_raise.
Qed.

(** The first run of [_build_regs_table] on a class with registers. *)
Lemma build_regs_table_first c st st' cs d :
  classes st !! c = Some cs ->
  descriptors !! c = Some d ->
  regs cs <> [] ->
  length (hist_of cs) < 2 ->
  _build_regs_table c st = Return tt st' ->
  exists j g0 l,
    let reg := version_register (version_str_to_digits (cls_version d)) in
    let g := <["regs" := Dicts (l ++ [reg])]> g0 in
    (regs cs !! j = Some g0 /\ g0 !! "regs" = Some (Dicts l) \/
     j = length (regs cs) /\ g0 = general_group /\ l = []) /\
    g0 !! "name" = Some (Atom (AStr "general")) /\
    Forall (fun e => exists v, e !! "name" = Some v /\
                               v <> Atom (AStr "general")) (take j (regs cs)) /\
    Forall (fun r => exists n, r !! "name" = Some n /\ n <> AStr "VERSION") l /\
    st' = {| classes :=
               <[c := set_regs (take j (regs cs) ++ g :: drop (S j) (regs cs)) cs]>
                 (classes st);
             shared_build_dir := shared_build_dir st;
             trace := trace st |}.
Proof.
  intros Hc Hd Hne Hlen Hrun.
  unfold _build_regs_table in Hrun.
  rewrite (bind_Return _ _ _ _ _ (get_cls_Some _ _ _ Hc)) in Hrun.
  unfold get_descriptor in Hrun. rewrite Hd, bind_mret in Hrun.
  destruct (regs cs) as [|r0 rs] eqn:Hregs; [done|].
  rewrite <- Hregs in *. cbv beta iota in Hrun.
  destruct (find_named "general" (regs cs)) as [[j|]|err] eqn:Hfind;
    [| |by rewrite bind_lift_raise in Hrun].
  - (* the group exists *)
    rewrite bind_lift_ok in Hrun. cbv beta iota in Hrun.
    rewrite bind_mret in Hrun.
    rewrite (bind_Return _ _ _ _ _ (get_cls_Some _ _ _ Hc)) in Hrun.
    change (default [] (_setup_purpose cs)) with (hist_of cs) in Hrun.
    rewrite (proj2 (Nat.ltb_lt _ _) Hlen) in Hrun. cbn [when] in Hrun.
    destruct (find_named_Some _ _ _ Hfind) as (g0 & Hj & Hname & Hpre).
    rewrite Hj in Hrun. unfold getitem in Hrun.
    destruct (g0 !! "regs") as [[a|l]|] eqn:Hg0;
      [by rewrite bind_lift_ok in Hrun| |by rewrite bind_lift_raise in Hrun].
    rewrite bind_lift_ok in Hrun.
    destruct (check_version_reserved (cls_name d) l) as [[]|err] eqn:Hchk;
      [|by rewrite bind_lift_raise in Hrun].
    rewrite bind_lift_ok in Hrun. injection Hrun as <-.
    exists j, g0, l. cbv zeta. split_and!; [by left|done|done| |].
    + by apply check_version_reserved_Ok in Hchk.
    + f_equal. apply map_eq. intros c'. destruct (decide (c' = c)) as [->|Hc'].
      * rewrite lookup_alter_eq, lookup_insert_eq, Hc. cbn. do 2 f_equal.
        apply insert_take_drop. by eapply lookup_lt_Some.
      * by rewrite lookup_alter_ne, lookup_insert_ne.
  - (* the group is made *)
    rewrite bind_lift_ok in Hrun. cbv beta iota in Hrun.
    match type of Hrun with
    | ((modify_cls c ?f ≫= ?k) ≫= _) _ = _ =>
        set (s1 := {| classes := alter f c (classes st);
                      shared_build_dir := shared_build_dir st;
                      trace := trace st |}) in *;
        rewrite bind_bind in Hrun;
        rewrite (bind_Return (modify_cls c f) _ st tt s1 eq_refl) in Hrun
    end.
    rewrite bind_mret in Hrun.
    assert (classes s1 !! c = Some (set_regs (regs cs ++ [general_group]) cs))
      as Hc1 by (unfold s1; cbn [classes]; by rewrite lookup_alter_eq, Hc).
    rewrite (bind_Return _ _ _ _ _ (get_cls_Some _ _ _ Hc1)) in Hrun.
    change (default [] (_setup_purpose (set_regs (regs cs ++ [general_group]) cs)))
      with (hist_of cs) in Hrun.
    rewrite (proj2 (Nat.ltb_lt _ _) Hlen) in Hrun. cbn [when] in Hrun.
    cbn [regs set_regs] in Hrun.
    rewrite lookup_app_r, Nat.sub_diag in Hrun by done.
    cbn [lookup list_lookup] in Hrun.
    change (lift (getitem general_group "regs")) with (lift (Ok (Dicts [])) : M value)
      in Hrun.
    rewrite bind_lift_ok in Hrun. cbn [check_version_reserved] in Hrun.
    rewrite bind_lift_ok in Hrun. injection Hrun as <-.
    exists (length (regs cs)), general_group, []. cbv zeta.
    split_and!; [by right|done| |done|].
    + rewrite firstn_all. by apply find_named_None.
    + f_equal. unfold s1. cbn [classes]. apply map_eq. intros c'.
      destruct (decide (c' = c)) as [->|Hc'].
      * rewrite lookup_alter_eq, lookup_alter_eq, lookup_insert_eq, Hc.
        cbn [fmap option_fmap option_map]. unfold set_regs. cbn. do 2 f_equal.
        rewrite firstn_all, drop_ge by lia.
        rewrite insert_app_r_alt, Nat.sub_diag by done. done.
      * by rewrite !lookup_alter_ne, lookup_insert_ne.
Qed.


Lemma lookup_take_cons_drop {A : Type} (l : list A) (j i : nat) (x : A) :
  j <= length l -> i <> j ->
  (take j l ++ x :: drop (S j) l) !! i = l !! i.
Proof.
  intros Hj Hi. destruct (decide (i < j)) as [Hlt|Hge].
  - rewrite lookup_app_l by (rewrite length_take; lia).
    by rewrite lookup_take_lt.
  - rewrite lookup_app_r by (rewrite length_take; lia).
    rewrite length_take, Nat.min_l by done.
    destruct (i - j) as [|k] eqn:Hk; [lia|].
    change (drop (S j) l !! k = l !! i).
    rewrite lookup_drop. f_equal. lia.
Qed.

(** The store after the first run: the group [general] stands at [j] and
    its last register is the version register. *)
Lemma build_regs_table_post c st st' cs d :
  classes st !! c = Some cs ->
  descriptors !! c = Some d ->
  regs cs <> [] ->
  length (hist_of cs) < 2 ->
  _build_regs_table c st = Return tt st' ->
  exists cs' j g l,
    classes st' !! c = Some cs' /\
    hist_of cs' = hist_of cs /\
    find_named "general" (regs cs') = Ok (Some j) /\
    regs cs' !! j = Some g /\
    g !! "regs" =
      Some (Dicts (l ++ [version_register (version_str_to_digits (cls_version d))])) /\
    Forall (fun r => exists n, r !! "name" = Some n /\ n <> AStr "VERSION") l /\
    (forall g0, regs cs !! j = Some g0 ->
       g0 !! "regs" = Some (Dicts l) /\
       g = <["regs" :=
               Dicts (l ++ [version_register
                              (version_str_to_digits (cls_version d))])]> g0) /\
    (regs cs !! j = None -> l = [] /\ j = length (regs cs)) /\
    (forall i, i <> j -> regs cs' !! i = regs cs !! i) /\
    (forall c', c' <> c -> classes st' !! c' = classes st !! c') /\
    trace st' = trace st.
Proof.
  intros Hc Hd Hne Hlen Hrun.
  destruct (build_regs_table_first c st st' cs d Hc Hd Hne Hlen Hrun)
    as (j & g0 & l & Hcase & Hname & Hpre & Hl & ->).
  cbv zeta in *.
  set (reg := version_register (version_str_to_digits (cls_version d))) in *.
  set (g := <["regs" := Dicts (l ++ [reg])]> g0) in *.
  assert (j <= length (regs cs)) as Hj.
  { destruct Hcase as [[Hj _]|[-> _]]; [|done].
    apply lookup_lt_Some in Hj. lia. }
  assert (length (take j (regs cs)) = j) as Htake
    by (rewrite length_take; lia).
  exists (set_regs (take j (regs cs) ++ g :: drop (S j) (regs cs)) cs), j, g, l.
  cbn [classes trace regs set_regs].
  split_and!; [by rewrite lookup_insert_eq|done| | | |done| | | | |done].
  - transitivity (Ok (Some (length (take j (regs cs)))) : result (option nat));
      [|by rewrite Htake].
    apply find_named_at; [done|]. unfold g. by rewrite lookup_insert_ne.
  - by apply list_lookup_middle.
  - unfold g. by rewrite lookup_insert_eq.
  - intros g1 Hg1. destruct Hcase as [[Hg0 Hregs]|[-> _]].
    + rewrite Hg0 in Hg1. by injection Hg1 as <-.
    + apply lookup_lt_Some in Hg1. lia.
  - intros Hnone. destruct Hcase as [[Hg0 _]|(-> & _ & ->)]; [congruence|done].
  - intros i Hi. by apply lookup_take_cons_drop.
  - intros c' Hc'. by rewrite lookup_insert_ne.
Qed.

(** X13: on the first setup of a class with registers,
    [_build_regs_table], when it returns, has put the version register at
    the end of the registers of the group [general], which it has made at
    the end of the list if there was none; no register of the group was
    named [VERSION], the other groups, the other classes and the trace
    are as before. *)
Theorem build_regs_table_adds_version c st st' cs d :
  classes st !! c = Some cs ->
  descriptors !! c = Some d ->
  regs cs <> [] ->
  length (hist_of cs) < 2 ->
  _build_regs_table c st = Return tt st' ->
  exists cs' j g l,
    classes st' !! c = Some cs' /\
    find_named "general" (regs cs') = Ok (Some j) /\
    regs cs' !! j = Some g /\
    g !! "regs" =
      Some (Dicts (l ++ [version_register (version_str_to_digits (cls_version d))])) /\
    Forall (fun r => exists n, r !! "name" = Some n /\ n <> AStr "VERSION") l /\
    (forall g0, regs cs !! j = Some g0 ->
       g0 !! "regs" = Some (Dicts l) /\
       g = <["regs" :=
               Dicts (l ++ [version_register
                              (version_str_to_digits (cls_version d))])]> g0) /\
    (regs cs !! j = None -> l = [] /\ j = length (regs cs)) /\
    (forall i, i <> j -> regs cs' !! i = regs cs !! i) /\
    (forall c', c' <> c -> classes st' !! c' = classes st !! c') /\
    trace st' = trace st.
Proof.
  intros Hc Hd Hne Hlen Hrun.
  destruct (build_regs_table_post c st st' cs d Hc Hd Hne Hlen Hrun)
    as (cs' & j & g & l & H1 & _ & H2).
  by exists cs', j, g, l.
Qed.

(** X14: [_build_regs_table] cannot be run twice during the first setup:
    after a run that returned, a second run raises the error of the
    reserved register against the version register that the first run
    has added. *)
Theorem build_regs_table_twice c st st' cs d :
  classes st !! c = Some cs ->
  descriptors !! c = Some d ->
  regs cs <> [] ->
  length (hist_of cs) < 2 ->
  _build_regs_table c st = Return tt st' ->
  _build_regs_table c st' =
  Throw (Exception
           (cls_name d +:+ ": Register 'VERSION' is reserved. Please remove it."))
    st'.
Proof.
  intros Hc Hd Hne Hlen Hrun.
  destruct (build_regs_table_post c st st' cs d Hc Hd Hne Hlen Hrun)
    as (cs' & j & g & l & Hc' & Hh & Hfind & Hj & Hg & Hl & _).
  apply (build_regs_table_raises c st' cs' d j g l []
           (version_register (version_str_to_digits (cls_version d))));
    [done|done|by rewrite Hh|done..|].
  unfold version_register. by rewrite lookup_insert_eq.
Qed.

End regs_table.

(** ** Attributes, interfaces and purposes *)

Section attributes.
Context `{project}.
Implicit Types (st : state) (cs : cls_state) (c : string) (p q : scalar).

Lemma init_attributes_run c st st' cs d :
  classes st !! c = Some cs ->
  descriptors !! c = Some d ->
  _initialized_attributes cs = false ->
  init_attributes c st = Return tt st' ->
  exists new_c new_i new_r,
    update_dict_list [] (new_confs d) = Ok new_c /\
    update_dict_list [] (new_ios d) = Ok new_i /\
    update_dict_list [] (new_regs d) = Ok new_r /\
    let own := match cls_build_dir d with
               | Some _ => build_dir cs
               | None => shared_build_dir st
               end in
    let shared :=
      if is_top_module cs
      then if decide (own = "")
           then "../" +:+ cls_name d +:+ "_" +:+ cls_version d
           else own
      else shared_build_dir st in
    st' = {| classes :=
               <[c := {| _setup_purpose := _setup_purpose cs;
                         is_top_module := is_top_module cs;
                         _initialized_attributes := true;
                         build_dir := shared;
                         previous_version :=
                           match previous_version cs with
                           | None | Some EmptyString => Some (cls_version d)
                           | Some v => Some v
                           end;
                         confs := new_c; regs := new_r; ios := new_i;
                         block_groups := [];
                         submodule_list := new_submodules d |}]> (classes st);
             shared_build_dir := shared;
             trace := trace st |}.
Proof.
  intros Hc Hd Hflag Hrun.
  unfold init_attributes in Hrun.
  rewrite (bind_Return _ _ _ _ _ (get_cls_Some _ _ _ Hc)), Hflag in Hrun.
  unfold get_descriptor in Hrun. rewrite Hd, bind_mret in Hrun.
  destruct st as [m sh tr]. cbn [classes shared_build_dir trace] in *.
  rewrite (bind_Return get_shared_build_dir _
             {| classes := m; shared_build_dir := sh; trace := tr |} sh _ eq_refl)
    in Hrun.
  cbv zeta in Hrun.
  set (own := match cls_build_dir d with
              | Some _ => build_dir cs
              | None => sh
              end) in *.
  set (shared := if is_top_module cs
                 then if decide (own = "")
                      then "../" +:+ cls_name d +:+ "_" +:+ cls_version d
                      else own
                 else sh).
  assert ((when (is_top_module cs)
             (set_shared_build_dir
                (if decide (own = "")
                 then "../" +:+ cls_name d +:+ "_" +:+ cls_version d
                 else own)) : M unit)
            {| classes := m; shared_build_dir := sh; trace := tr |} =
          Return tt {| classes := m; shared_build_dir := shared; trace := tr |})
    as Hw.
  { unfold shared. by destruct (is_top_module cs). }
  rewrite (bind_Return _ _ _ _ _ Hw) in Hrun. clear Hw.
  unfold get_shared_build_dir, modify_cls, get_cls, lift in Hrun.
  unfold mbind, M_bind in Hrun.
  cbn [classes shared_build_dir trace] in Hrun.
  rewrite !lookup_alter_eq, Hc in Hrun.
  cbn [fmap option_fmap option_map confs reset_attributes set_submodule_list]
    in Hrun.
  destruct (update_dict_list [] (new_confs d)) as [new_c|err] eqn:Hconfs;
    [|done].
  cbn [mret M_ret classes shared_build_dir trace] in Hrun.
  rewrite !lookup_alter_eq, Hc in Hrun.
  cbn [fmap option_fmap option_map ios set_confs reset_attributes
       set_submodule_list] in Hrun.
  destruct (update_dict_list [] (new_ios d)) as [new_i|err] eqn:Hios; [|done].
  cbn [mret M_ret classes shared_build_dir trace] in Hrun.
  rewrite !lookup_alter_eq, Hc in Hrun.
  cbn [fmap option_fmap option_map regs set_ios set_confs reset_attributes
       set_submodule_list] in Hrun.
  destruct (update_dict_list [] (new_regs d)) as [new_r|err] eqn:Hregs; [|done].
  cbn [mret M_ret classes shared_build_dir trace] in Hrun.
  injection Hrun as <-.
  exists new_c, new_i, new_r. split_and!; [done..|]. cbv zeta. f_equal.
  apply map_eq. intros c'. destruct (decide (c' = c)) as [->|Hne].
  - rewrite !lookup_alter_eq, lookup_insert_eq, Hc. reflexivity.
  - by rewrite !lookup_alter_ne, lookup_insert_ne.
Qed.

(** X15: a run of [init_attributes] that does the work gives the class
    the build directory held by [iob_module.build_dir].  The top module
    first sets that one: to the [build_dir] it reads, which is its own
    when its descriptor declares one and is what [iob_module.build_dir]
    holds when it declares none, or, when what it reads is empty, to
    [../<name>_<version>]; any other class takes what is there, whatever
    its own [build_dir] was.  The previous version is set, and kept when
    it was set and not empty; the other classes and the trace are as
    before. *)
Theorem init_attributes_build_dir c st st' cs d :
  classes st !! c = Some cs ->
  descriptors !! c = Some d ->
  _initialized_attributes cs = false ->
  init_attributes c st = Return tt st' ->
  exists cs',
    classes st' !! c = Some cs' /\
    build_dir cs' = shared_build_dir st' /\
    shared_build_dir st' =
      (if is_top_module cs
       then let own := match cls_build_dir d with
                       | Some _ => build_dir cs
                       | None => shared_build_dir st
                       end in
            if decide (own = "")
            then "../" +:+ cls_name d +:+ "_" +:+ cls_version d
            else own
       else shared_build_dir st) /\
    is_Some (previous_version cs') /\
    (forall v, previous_version cs = Some v -> v <> "" ->
               previous_version cs' = Some v) /\
    (forall c', c' <> c -> classes st' !! c' = classes st !! c') /\
    trace st' = trace st.
Proof.
  intros Hc Hd Hflag Hrun.
  destruct (init_attributes_run c st st' cs d Hc Hd Hflag Hrun)
    as (new_c & new_i & new_r & _ & _ & _ & ->).
  cbv zeta. eexists. cbn [classes shared_build_dir trace].
  rewrite lookup_insert_eq. split; [reflexivity|]. cbn.
  split_and!; [done|done| | | |done].
  - by destruct (previous_version cs) as [[|]|].
  - intros v -> Hv. by destruct v.
  - intros c' Hc'. by rewrite lookup_insert_ne.
Qed.

(** X16: [init_attributes] does its work once: after a run that
    returned, the class is marked as initialized and a second run returns
    at once in the same store.  The first run leaves the history and
    [is_top_module], and makes the lists anew: the submodules are those of
    the descriptor, and [confs], [ios] and [regs] are what
    [update_dict_list] makes of the descriptor's items from the empty
    list. *)
Theorem init_attributes_once c st st' cs d :
  classes st !! c = Some cs ->
  descriptors !! c = Some d ->
  _initialized_attributes cs = false ->
  init_attributes c st = Return tt st' ->
  init_attributes c st' = Return tt st' /\
  exists cs',
    classes st' !! c = Some cs' /\
    _initialized_attributes cs' = true /\
    _setup_purpose cs' = _setup_purpose cs /\
    is_top_module cs' = is_top_module cs /\
    submodule_list cs' = new_submodules d /\
    update_dict_list [] (new_confs d) = Ok (confs cs') /\
    update_dict_list [] (new_ios d) = Ok (ios cs') /\
    update_dict_list [] (new_regs d) = Ok (regs cs') /\
    block_groups cs' = [].
Proof.
  intros Hc Hd Hflag Hrun.
  destruct (init_attributes_run c st st' cs d Hc Hd Hflag Hrun)
    as (new_c & new_i & new_r & Hc' & Hi' & Hr' & ->).
  cbv zeta. split.
  - unfold init_attributes.
    erewrite (bind_Return (get_cls c));
      [|apply get_cls_Some; cbn [classes]; apply lookup_insert_eq].
    reflexivity.
  - eexists. cbn [classes]. rewrite lookup_insert_eq.
    split; [reflexivity|]. by cbn.
Qed.

End attributes.

Section interfaces.
Context `{project}.
Implicit Types (st : state) (cs : cls_state) (c : string) (p : string).









End interfaces.

(** ** The statements on the setup engine on concrete inputs *)

Lemma setup_twice_witness :
  exists st',
    @setup demo_project 3 "iob_tb" (SStr "simulation") false
      (initial_state (@descriptors demo_project)) = Return tt st' /\
    (SStr "simulation" ∈ hist (classes st') "iob_tb" \/
     hardware ∈ hist (classes st') "iob_tb") /\
    forall fuel' top',
      @setup demo_project (S fuel') "iob_tb" (SStr "simulation") top' st' =
      Return tt st'.
Proof.
  eexists. split; [vm_compute; reflexivity|].
  apply (@setup_twice demo_project 3 "iob_tb" (SStr "simulation") false
           (initial_state (@descriptors demo_project))).
  vm_compute. reflexivity.
Defined.

Lemma setup_failure_recorded_witness :
  let st := demo_store {[ "iob_bad" := demo_cls [SStr "simulation"] false [] [] ]} in
  exists st',
    @setup demo_project 2 "iob_bad" (SStr "doc") false st =
      Throw (AssertionError "Unknown purpose doc") st' /\
    SStr "doc" ∈ hist (classes st') "iob_bad" /\
    forall fuel' top',
      @setup demo_project (S fuel') "iob_bad" (SStr "doc") top' st' = Return tt st'.
Proof.
  intros st. eexists. split; [vm_compute; reflexivity|].
  apply (@setup_failure_recorded demo_project 2 "iob_bad" (SStr "doc") false st
           (AssertionError "Unknown purpose doc")).
  - vm_compute. discriminate.
  - vm_compute. reflexivity.
Defined.

Lemma build_regs_table_adds_version_witness :
  let cs := demo_cls [hardware] false [] (new_regs demo_uart) in
  let st := demo_store {[ "iob_uart" := cs ]} in
  exists st',
    @_build_regs_table demo_project "iob_uart" st = Return tt st' /\
    exists cs' j g l,
      classes st' !! "iob_uart" = Some cs' /\
      find_named "general" (regs cs') = Ok (Some j) /\
      regs cs' !! j = Some g /\
      g !! "regs" =
        Some (Dicts (l ++ [version_register
                             (@version_str_to_digits demo_project
                                (cls_version demo_uart))])) /\
      Forall (fun r => exists n, r !! "name" = Some n /\ n <> AStr "VERSION") l /\
      (forall g0, regs cs !! j = Some g0 ->
         g0 !! "regs" = Some (Dicts l) /\
         g = <["regs" :=
                 Dicts (l ++ [version_register
                                (@version_str_to_digits demo_project
                                   (cls_version demo_uart))])]> g0) /\
      (regs cs !! j = None -> l = [] /\ j = length (regs cs)) /\
      (forall i, i <> j -> regs cs' !! i = regs cs !! i) /\
      (forall c', c' <> "iob_uart" -> classes st' !! c' = classes st !! c') /\
      trace st' = trace st.
Proof.
  intros cs st. eexists. split; [vm_compute; reflexivity|].
  apply (@build_regs_table_adds_version demo_project "iob_uart" st _ cs demo_uart).
  - vm_compute. reflexivity.
  - vm_compute. reflexivity.
  - vm_compute. discriminate.
  - vm_compute. lia.
  - vm_compute. reflexivity.
Defined.

Lemma build_regs_table_twice_witness :
  let cs := demo_cls [hardware] false [] (new_regs demo_uart) in
  let st := demo_store {[ "iob_uart" := cs ]} in
  exists st',
    @_build_regs_table demo_project "iob_uart" st = Return tt st' /\
    @_build_regs_table demo_project "iob_uart" st' =
    Throw (Exception
             (cls_name demo_uart +:+
              ": Register 'VERSION' is reserved. Please remove it."))
      st'.
Proof.
  intros cs st. eexists. split; [vm_compute; reflexivity|].
  apply (@build_regs_table_twice demo_project "iob_uart" st _ cs demo_uart).
  - vm_compute. reflexivity.
  - vm_compute. reflexivity.
  - vm_compute. discriminate.
  - vm_compute. lia.
  - vm_compute. reflexivity.
Defined.

(** X15 at two top modules that declare no build directory: the first
    finds [iob_module.build_dir] empty and fills it in from its name and
    version, the second finds it set and keeps it. *)
Lemma init_attributes_build_dir_witness :
  let cs := set_is_top_module true (initial_cls_state demo_cache) in
  let st := {| classes := {[ "iob_cache" := cs ]};
               shared_build_dir := "../iob_soc_V0.10"; trace := [] |} in
  let st0 := {| classes := {[ "iob_cache" := cs ]};
                shared_build_dir := ""; trace := [] |} in
  (exists st0',
     @init_attributes demo_project "iob_cache" st0 = Return tt st0' /\
     shared_build_dir st0' = "../iob_cache_V0.10") /\
  exists st',
    @init_attributes demo_project "iob_cache" st = Return tt st' /\
    shared_build_dir st' = "../iob_soc_V0.10" /\
    exists cs',
      classes st' !! "iob_cache" = Some cs' /\
      build_dir cs' = shared_build_dir st' /\
      shared_build_dir st' =
        (if is_top_module cs
         then let own := match cls_build_dir demo_cache with
                         | Some _ => build_dir cs
                         | None => shared_build_dir st
                         end in
              if decide (own = "")
              then "../" +:+ cls_name demo_cache +:+ "_" +:+ cls_version demo_cache
              else own
         else shared_build_dir st) /\
      is_Some (previous_version cs') /\
      (forall v, previous_version cs = Some v -> v <> "" ->
                 previous_version cs' = Some v) /\
      (forall c', c' <> "iob_cache" -> classes st' !! c' = classes st !! c') /\
      trace st' = trace st.
Proof.
  intros cs st st0. split.
  { eexists. split; vm_compute; reflexivity. }
  eexists. split; [vm_compute; reflexivity|]. split; [vm_compute; reflexivity|].
  apply (@init_attributes_build_dir demo_project "iob_cache" st _ cs demo_cache).
  - vm_compute. reflexivity.
  - vm_compute. reflexivity.
  - reflexivity.
  - vm_compute. reflexivity.
Defined.

Lemma init_attributes_once_witness :
  let cs := initial_cls_state demo_uart in
  let st := initial_state (@descriptors demo_project) in
  exists st',
    @init_attributes demo_project "iob_uart" st = Return tt st' /\
    @init_attributes demo_project "iob_uart" st' = Return tt st' /\
    exists cs',
      classes st' !! "iob_uart" = Some cs' /\
      _initialized_attributes cs' = true /\
      _setup_purpose cs' = _setup_purpose cs /\
      is_top_module cs' = is_top_module cs /\
      submodule_list cs' = new_submodules demo_uart /\
      update_dict_list [] (new_confs demo_uart) = Ok (confs cs') /\
      update_dict_list [] (new_ios demo_uart) = Ok (ios cs') /\
      update_dict_list [] (new_regs demo_uart) = Ok (regs cs') /\
      block_groups cs' = [].
Proof.
  intros cs st. eexists. split; [vm_compute; reflexivity|].
  apply (@init_attributes_once demo_project "iob_uart" st _ cs demo_uart).
  - vm_compute. reflexivity.
  - vm_compute. reflexivity.
  - reflexivity.
  - vm_compute. reflexivity.
Defined.



(** ** [find_modules] *)

Section find_modules_facts.
Implicit Types (s : search) (dirs : list (string * list (string * node))).




(** The directories found on the way lie below the ones searched. *)
Lemma scan_entries_levels k parent entries s :
  levels_below entries <= S k ->
  Forall (fun d => levels_below d.2 <= k) (nextDirs s) ->
  Forall (fun d => levels_below d.2 <= k)
    (nextDirs (scan_entries parent entries s)).
Proof.
  revert s. induction entries as [|[f n] rest IH]; intros s Hk Hs; [done|].
  cbn [scan_entries].
  change (levels_below ((f, n) :: rest))
    with (Nat.max (levels n) (levels_below rest)) in Hk.
  apply IH; [lia|].
  destruct n as [|es].
  - by destruct (ends_with ".py" f && negb (bool_decide (f ∈ found_modules s))).
  - cbn [nextDirs]. apply Forall_app. split; [done|]. constructor; [|done].
    change (levels (Dir es)) with (S (levels_below es)) in Hk. cbn [snd]. lia.
Qed.

Lemma scan_dirs_levels k dirs s :
  Forall (fun d => levels_below d.2 <= S k) dirs ->
  Forall (fun d => levels_below d.2 <= k) (nextDirs s) ->
  Forall (fun d => levels_below d.2 <= k) (nextDirs (scan_dirs dirs s)).
Proof.
  revert s. induction dirs as [|[parent entries] rest IH]; intros s Hd Hs; [done|].
  inversion Hd as [|? ? Hd1 Hd2]; subst. cbn [scan_dirs].
  apply IH; [done|]. by apply scan_entries_levels.
Qed.

Lemma scan_entries_flat parent entries s :
  levels_below entries = 0 -> nextDirs s = [] ->
  nextDirs (scan_entries parent entries s) = [].
Proof.
  revert s. induction entries as [|[f n] rest IH]; intros s Hk Hs; [done|].
  cbn [scan_entries].
  change (levels_below ((f, n) :: rest))
    with (Nat.max (levels n) (levels_below rest)) in Hk.
  destruct n as [|es];
    [|change (levels (Dir es)) with (S (levels_below es)) in Hk; lia].
  apply IH; [lia|].
  by destruct (ends_with ".py" f && negb (bool_decide (f ∈ found_modules s))).
Qed.

Lemma scan_dirs_flat dirs s :
  Forall (fun d => levels_below d.2 <= 0) dirs -> nextDirs s = [] ->
  nextDirs (scan_dirs dirs s) = [].
Proof.
  revert s. induction dirs as [|[parent entries] rest IH]; intros s Hd Hs; [done|].
  inversion Hd as [|? ? Hd1 Hd2]; subst. cbn [scan_dirs].
  apply IH; [done|]. apply scan_entries_flat; [cbn [snd] in Hd1; lia|done].
Qed.

Lemma find_modules_loop_returns k :
  forall fuel dirs found path,
    Forall (fun d => levels_below d.2 <= k) dirs ->
    S k <= fuel ->
    is_Some (find_modules_loop fuel dirs found path).
Proof.
  induction k as [|k IH]; intros fuel dirs found path Hd Hfuel.
  - destruct fuel as [|fuel]; [lia|]. destruct dirs as [|d dirs]; [by eexists|].
    cbn [find_modules_loop]. rewrite scan_dirs_flat by done.
    destruct fuel; by eexists.
  - destruct fuel as [|fuel]; [lia|]. destruct dirs as [|d dirs]; [by eexists|].
    cbn [find_modules_loop]. apply IH; [|lia].
    by apply scan_dirs_levels.
Qed.


(** X20: on a directory tree the search of [find_modules] ends: it
    makes at most one round of its loop for each level of directories,
    the one searched included. *)
Theorem find_modules_terminates search_path entries path :
  forall fuel, S (levels_below entries) <= fuel ->
    is_Some (find_modules fuel search_path entries path).
Proof.
  intros fuel Hfuel. unfold find_modules.
  apply (find_modules_loop_returns (levels_below entries)); [|done].
  by constructor.
Qed.

End find_modules_facts.


Lemma find_modules_terminates_witness :
  is_Some (find_modules 3 "." demo_tree []).
Proof. apply (find_modules_terminates "." demo_tree [] 3). vm_compute. lia. Defined.
